(** * Tensor_Space_Vis: chunk streaming core (plotData.js, dataHandler.js)

    A shallow embedding of the chunk-streaming code of the viewer and the
    properties established about it.

    Modelling conventions.
    - A JavaScript number is an exact rational or NaN ([num]).  Rounding of
      IEEE doubles, overflow and the infinities are not modelled; the only
      division of the modelled code is the one by the diameter inside
      [trim], where a zero divisor ends in NaN once the quotient has been
      multiplied by that same zero.
    - A chunk key is the triple of numbers whose [toString] the code uses as
      the property name; rationals are kept canonical ([Qc]), so that two
      keys are equal exactly when their strings are.
    - The objects of the rendering engine (meshes and their thin-instance
      buffers) live in a store of mesh records addressed by handles.
    - [Float32Array] cells hold the numbers written to them (the rounding to
      single precision is not modelled). *)

From Stdlib Require Import QArith Qcanon Qround ZArith Lia Lqa Ascii String.
From stdpp Require Import base numbers list strings gmap fin_maps.

Local Open Scope Z_scope.

(** ** JavaScript numbers *)

Inductive num : Type :=
| Fin (q : Qc)
| NaN.

Global Instance num_eq_dec : EqDecision num.
Proof. solve_decision. Defined.

Global Instance num_countable : Countable num.
Proof.
  refine (inj_countable'
            (fun n => match n with Fin q => Some q | NaN => None end)
            (fun o => match o with Some q => Fin q | None => NaN end) _).
  by intros [].
Defined.

Definition qz (z : Z) : Qc := Qc_of_Z z.
Definition nz (z : Z) : num := Fin (qz z).
Definition qhalf : Qc := Q2Qc (1 # 2).

Definition qfloor (q : Qc) : Z := Qfloor (this q).
Definition qabs (q : Qc) : Qc := if decide (q < 0)%Qc then (- q)%Qc else q.

Module Num.

Definition add (a b : num) : num :=
  match a, b with Fin x, Fin y => Fin (x + y)%Qc | _, _ => NaN end.

Definition sub (a b : num) : num :=
  match a, b with Fin x, Fin y => Fin (x - y)%Qc | _, _ => NaN end.

Definition mul (a b : num) : num :=
  match a, b with Fin x, Fin y => Fin (x * y)%Qc | _, _ => NaN end.

(** [x / 0] is an infinity or NaN in JavaScript; see the header. *)
Definition div (a b : num) : num :=
  match a, b with
  | Fin x, Fin y => if decide (y = 0%Qc) then NaN else Fin (x / y)%Qc
  | _, _ => NaN
  end.

(** [Math.floor] *)
Definition floor (a : num) : num :=
  match a with Fin x => Fin (qz (qfloor x)) | NaN => NaN end.

(** [Math.abs] *)
Definition abs (a : num) : num :=
  match a with Fin x => Fin (qabs x) | NaN => NaN end.

(** [a < b], [a <= b], [a > b]: false as soon as one side is NaN. *)
Definition ltb (a b : num) : bool :=
  match a, b with Fin x, Fin y => bool_decide (x < y)%Qc | _, _ => false end.

Definition leb (a b : num) : bool :=
  match a, b with Fin x, Fin y => bool_decide (x <= y)%Qc | _, _ => false end.

Definition gtb (a b : num) : bool := ltb b a.

(** [a !== b] on numbers: NaN differs from everything, itself included. *)
Definition neb (a b : num) : bool :=
  match a, b with Fin x, Fin y => bool_decide (x <> y) | _, _ => true end.

End Num.

Definition vec3 : Type := num * num * num.

Definition vget (v : vec3) (i : nat) : num :=
  match v, i with
  | (x, _, _), O => x
  | (_, y, _), S O => y
  | (_, _, z), _ => z
  end.

Definition vset (v : vec3) (i : nat) (a : num) : vec3 :=
  match v, i with
  | (_, y, z), O => (a, y, z)
  | (x, _, z), S O => (x, a, z)
  | (x, y, _), _ => (x, y, a)
  end.

(** ** Grid indexer: [getChunkCentroid] (plotData.js) *)

Definition trim (diameter a : num) : num :=
  Num.mul (Num.floor (Num.div (Num.add a (Num.div diameter (nz 2))) diameter))
          diameter.

Definition getChunkCentroid (p : vec3) (diameter : num) : vec3 :=
  let '(x, y, z) := p in (trim diameter x, trim diameter y, trim diameter z).

(** The formula of the contract, over the rationals:
    [floor((a + d/2) / d) * d]. *)
Definition centroid_formula (a d : Qc) : Qc :=
  (qz (qfloor ((a + d / qz 2) / d)) * d)%Qc.

(** ** Data handler (dataHandler.js) *)

(** *** 32-bit integer operators *)

Definition two32 : Z := 4294967296.

Definition toUint32 (z : Z) : Z := z mod two32.

Definition toInt32 (z : Z) : Z :=
  let u := z mod two32 in
  if 2147483648 <=? u then u - two32 else u.

(** [a ^ b] *)
Definition xor32 (a b : Z) : Z := toInt32 (Z.lxor (toInt32 a) (toInt32 b)).

(** [a & b] *)
Definition and32 (a b : Z) : Z := toInt32 (Z.land (toInt32 a) (toInt32 b)).

(** [a >>> n] *)
Definition ushr32 (a n : Z) : Z := Z.shiftr (toUint32 a) (n mod 32).

(** *** Strings *)

(** A JavaScript string is read through its code units; for the strings of
    this development (bytes below 256) that is the character code. *)
Definition charCodes (s : string) : list Z :=
  map (fun c => Z.of_N (Ascii.N_of_ascii c)) (String.list_ascii_of_string s).

Definition digitChar (d : Z) : ascii :=
  if d <? 10 then Ascii.ascii_of_N (Z.to_N (48 + d))
  else Ascii.ascii_of_N (Z.to_N (87 + d)).

Fixpoint digitsAux (fuel : nat) (radix n : Z) (acc : string) : string :=
  match fuel with
  | O => acc
  | S fuel' =>
      let acc' := String (digitChar (n mod radix)) acc in
      if n / radix =? 0 then acc' else digitsAux fuel' radix (n / radix) acc'
  end.

(** [n.toString(radix)] for an integer [n] and [2 <= radix <= 36]. *)
Definition toStringRadix (radix n : Z) : string :=
  if n <? 0
  then String "-" (digitsAux (S (Z.to_nat (Z.log2 (- n)))) radix (- n) EmptyString)
  else digitsAux (S (Z.to_nat (Z.log2 n))) radix n EmptyString.

Fixpoint replicateChar (n : nat) (c : ascii) : string :=
  match n with O => EmptyString | S n' => String c (replicateChar n' c) end.

(** [s.padStart(len, c)] for a one-character filler. *)
Definition padStart (len : nat) (c : ascii) (s : string) : string :=
  (replicateChar (len - String.length s) c ++ s)%string.

Definition isOctalDigit (c : ascii) : bool :=
  let n := Ascii.N_of_ascii c in ((48 <=? n) && (n <=? 55))%N.

(** [Number(char)] for a decimal digit character. *)
Definition digitValue (c : ascii) : Z := Z.of_N (Ascii.N_of_ascii c) - 48.

(** [s.replace(/[0-7]/g, f)] *)
Fixpoint replaceOctal (f : ascii -> string) (s : string) : string :=
  match s with
  | EmptyString => EmptyString
  | String c s' =>
      ((if isOctalDigit c then f c else String c EmptyString)
         ++ replaceOctal f s')%string
  end.

Definition upperChar (c : ascii) : ascii :=
  let n := Ascii.N_of_ascii c in
  if ((97 <=? n) && (n <=? 122))%N then Ascii.ascii_of_N (n - 32) else c.

Fixpoint toUpperCase (s : string) : string :=
  match s with
  | EmptyString => EmptyString
  | String c s' => String (upperChar c) (toUpperCase s')
  end.

(** *** [crc32] *)

Definition crcBit (crc : Z) : Z :=
  xor32 (ushr32 crc 1) (if and32 crc 1 =? 0 then 0 else 3988292384).

Definition crcUnit (crc c : Z) : Z :=
  Nat.iter 8 crcBit (xor32 crc c).

Definition crc32 (str : list Z) : Z :=
  xor32 (fold_left crcUnit str 4294967295) 4294967295.

(** *** [getColor]; [darkMode] is the value of [config.get("darkMode")]. *)

Definition colorValue (family : list Z) : Z := and32 (crc32 family) (8 ^ 6 - 1).

Definition colorShift (darkMode : bool) : Z := if darkMode then 3 else 7.

Definition getColor (darkMode : bool) (family : list Z) : string :=
  let value := colorValue family in
  let shift := colorShift darkMode in
  let hexString := padStart 6 "0" (toStringRadix 8 value) in
  String "#"
    (toUpperCase
       (replaceOctal (fun char => toStringRadix 16 (digitValue char + shift))
                     hexString)).

(** The derivation in the words of the specification: the six base-8 digits
    of the masked checksum, most significant first, each moved up by the
    shift of the display mode and written as one base-16 digit. *)
Definition hexDigit (d : Z) : ascii :=
  if d <? 10 then Ascii.ascii_of_N (Z.to_N (48 + d))
  else Ascii.ascii_of_N (Z.to_N (55 + d)).

Definition octalDigit (v : Z) (i : nat) : Z := (v / 8 ^ Z.of_nat i) mod 8.


Definition isHexDigit (c : ascii) : bool :=
  let n := Ascii.N_of_ascii c in
  (((48 <=? n) && (n <=? 57)) || ((65 <=? n) && (n <=? 70)))%N.

(** Auxiliary forms used to relate the two. *)
Definition octalString (v : Z) : string :=
  String.string_of_list_ascii
    (map (fun i => digitChar (octalDigit v i)) [5; 4; 3; 2; 1; 0]%nat).

Definition shiftDigit (shift : Z) (char : ascii) : string :=
  toStringRadix 16 (digitValue char + shift).

(** The string pipeline of [getColor] on a masked value. *)
Definition renderColor (shift v : Z) : string :=
  String "#"
    (toUpperCase
       (replaceOctal (shiftDigit shift) (padStart 6 "0" (toStringRadix 8 v)))).

Definition specColor (shift v : Z) : string :=
  String "#"
    (String.string_of_list_ascii
       (map (fun i => hexDigit (octalDigit v i + shift)) [5; 4; 3; 2; 1; 0]%nat)).

Definition sixHex (s : string) : bool :=
  match s with
  | String h (String c1 (String c2 (String c3 (String c4 (String c5
      (String c6 EmptyString)))))) =>
      Ascii.eqb h "#" && isHexDigit c1 && isHexDigit c2 && isHexDigit c3
      && isHexDigit c4 && isHexDigit c5 && isHexDigit c6
  | _ => false
  end.

(** *** The point source: [iterGenes]

    [sampleData.json] maps a family to its per-gene columns, followed by the
    table of tissues (one column of values per tissue) and by the centroid
    entry.  The per-gene columns are read here as one row per gene; the
    outlier flag is a boolean column.  A tissue column holds numbers or
    [null]. *)

Inductive jsval : Type :=
| JNum (n : num)
| JNull
| JUndefined.

(** [ToNumber], as applied by [v * scale]. *)
Definition toNumber (v : jsval) : num :=
  match v with
  | JNum n => n
  | JNull => nz 0
  | JUndefined => NaN
  end.

Record geneMeta : Type := GeneMeta { gene : string; is_outlier : bool }.

Record familyData : Type := FamilyData {
  genes : list geneMeta;
  tissueColumns : list (string * list jsval)
}.

Definition dataset : Type := list (string * familyData).

Fixpoint assoc {A : Type} (k : string) (l : list (string * A)) : option A :=
  match l with
  | [] => None
  | (k', v) :: l' => if decide (k = k') then Some v else assoc k l'
  end.

(** [dataHandler.families] *)
Definition families (data : dataset) : list string := map fst data.

(** [allTissueData[tissue]?.[i]] *)
Definition tissueValue (cols : list (string * list jsval)) (tissue : string)
    (i : nat) : jsval :=
  match assoc tissue cols with
  | Some column => default JUndefined (column !! i)
  | None => JUndefined
  end.

Record rawPoint : Type := RawPoint {
  rawCoordinates : jsval * jsval * jsval;
  rawMeta : geneMeta
}.

Definition iterGenes (data : dataset) (family tissueX tissueY tissueZ : string)
    : list rawPoint :=
  match assoc family data with
  | Some familyData =>
      imap (fun i g =>
              RawPoint (tissueValue (tissueColumns familyData) tissueX i,
                        tissueValue (tissueColumns familyData) tissueY i,
                        tissueValue (tissueColumns familyData) tissueZ i) g)
           (genes familyData)
  | None => []
  end.

(** ** Configuration store, as read by the chunk code ([config.get]) *)

Record config : Type := Config {
  darkMode : bool;
  cfgChunkDiameter : num;                         (* chunkDiameter *)
  cfgChunkLoadRange : num;                        (* chunkLoadRange *)
  scale : num;
  shownFamilies : option (list string);
  tissueX : string;
  tissueY : string;
  tissueZ : string;
  familyColor : string -> option string;          (* <family>_Color *)
  familyOutlierColor : string -> option string;   (* <family>_OutlierColor *)
  familyDiameter : string -> option num;          (* <family>_Diameter *)
  familyOutlierDiameter : string -> option num    (* <family>_OutlierDiameter *)
}.

(** ** Chunks *)

Abbreviation handle := nat.

Record point : Type := Point { coordinates : vec3; meta : geneMeta }.

(** The five cells of a chunk record:
    [[points, memberCounts, outlierCount, sphereMesh, octMesh]].
    [memberCounts] lists the families in the order [Object.entries] gives
    them, which is the order of first insertion (family names are not
    array-index strings). *)
Record chunk : Type := Chunk {
  points : list point;
  memberCounts : list (string * nat);
  outlierCount : nat;
  sphereMesh : option handle;
  octMesh : option handle
}.

Global Instance jsval_eq_dec : EqDecision jsval.
Proof. solve_decision. Defined.
Global Instance geneMeta_eq_dec : EqDecision geneMeta.
Proof. solve_decision. Defined.
Global Instance point_eq_dec : EqDecision point.
Proof. solve_decision. Defined.
Global Instance chunk_eq_dec : EqDecision chunk.
Proof. solve_decision. Defined.

Definition emptyChunk : chunk := Chunk [] [] 0 None None.

(** [counts[family] ??= 0; counts[family]++] *)
Fixpoint incrCount (family : string) (counts : list (string * nat))
    : list (string * nat) :=
  match counts with
  | [] => [(family, 1%nat)]
  | (f, n) :: rest =>
      if decide (family = f) then (f, S n) :: rest
      else (f, n) :: incrCount family rest
  end.

Definition scalePoint (s : num) (raw : rawPoint) : point :=
  let '(x, y, z) := rawCoordinates raw in
  Point (Num.mul (toNumber x) s, Num.mul (toNumber y) s, Num.mul (toNumber z) s)
        (rawMeta raw).

Definition halfNum : num := Fin qhalf.

(** [sight = (chunkLoadRange + 0.5) * chunkDiameter] *)
Definition sightDistance (chunkDiameter chunkLoadRange : num) : num :=
  Num.mul (Num.add chunkLoadRange halfNum) chunkDiameter.

(** The test of the three axes against [sight]. *)
Definition inSight (sight : num) (pos key : vec3) : bool :=
  Num.ltb (Num.abs (Num.sub (vget key 0) (vget pos 0))) sight
  && Num.ltb (Num.abs (Num.sub (vget key 1) (vget pos 1))) sight
  && Num.ltb (Num.abs (Num.sub (vget key 2) (vget pos 2))) sight.

Definition addPoint (family : string) (p : point) (c : chunk) : chunk :=
  Chunk (points c ++ [p])
        (incrCount family (memberCounts c))
        (outlierCount c + (if is_outlier (meta p) then 1 else 0))%nat
        (sphereMesh c) (octMesh c).

Definition buildState : Type := gmap vec3 chunk * list vec3.

(** The body of the inner loop of [calculateChunks]. *)
Definition buildStep (pos : vec3) (chunkDiameter sight s : num)
    (family : string) (st : buildState) (raw : rawPoint) : buildState :=
  let '(chunks, activeChunks) := st in
  let scaled := scalePoint s raw in
  let key := getChunkCentroid (coordinates scaled) chunkDiameter in
  let '(chunks1, active1) :=
    match chunks !! key with
    | None =>
        (<[key := emptyChunk]> chunks,
         if inSight sight pos key then activeChunks ++ [key] else activeChunks)
    | Some _ => (chunks, activeChunks)
    end in
  (alter (addPoint family scaled) key chunks1, active1).

Definition familiesToShow (cfg : config) (data : dataset) : list string :=
  default (families data) (shownFamilies cfg).

Definition buildFamily (cfg : config) (data : dataset) (pos : vec3)
    (chunkDiameter sight : num) (st : buildState) (family : string)
    : buildState :=
  foldl (buildStep pos chunkDiameter sight (scale cfg) family) st
        (iterGenes data family (tissueX cfg) (tissueY cfg) (tissueZ cfg)).

Definition calculateChunks (cfg : config) (data : dataset) (pos : vec3)
    (chunkDiameter chunkLoadRange : num) : buildState :=
  let sight := sightDistance chunkDiameter chunkLoadRange in
  foldl (buildFamily cfg data pos chunkDiameter sight) (∅, [])
        (familiesToShow cfg data).

(** The points reaching the inner loop body, in source order, each with the
    family it was yielded for. *)
Definition pointStream (cfg : config) (data : dataset)
    : list (string * rawPoint) :=
  flat_map (fun family =>
              map (pair family)
                  (iterGenes data family (tissueX cfg) (tissueY cfg)
                             (tissueZ cfg)))
           (familiesToShow cfg data).

Definition keyOf (cfg : config) (chunkDiameter : num) (raw : rawPoint) : vec3 :=
  getChunkCentroid (coordinates (scalePoint (scale cfg) raw)) chunkDiameter.

(** ** Outcomes of effectful code: a result, a thrown exception, or a loop
    still running when the fuel is spent *)

Inductive outcome (A : Type) : Type :=
| Done (a : A)
| Raised
| Timeout.

Arguments Done {A} a.
Arguments Raised {A}.
Arguments Timeout {A}.

Definition obind {A B : Type} (m : outcome A) (f : A -> outcome B) : outcome B :=
  match m with
  | Done a => f a
  | Raised => Raised
  | Timeout => Timeout
  end.

Notation "x <?- m ; k" := (obind m (fun x => k))
  (at level 100, m at next level, right associativity, only parsing).

Fixpoint foldlM {S A : Type} (f : S -> A -> outcome S) (s : S) (l : list A)
    : outcome S :=
  match l with
  | [] => Done s
  | a :: l' => obind (f s a) (fun s' => foldlM f s' l')
  end.

(** ** The rendering engine's meshes *)

Inductive shape : Type := Sphere | Polyhedron.

Record color4 : Type := Color4 { cr : num; cg : num; cb : num; ca : num }.

(** A mesh with its two thin-instance buffers ("matrix" and "color"). *)
Record mesh : Type := Mesh {
  meshShape : shape;
  disposed : bool;
  matrixBuffer : option (list num);
  colorBuffer : option (list num);
  edgesRendering : bool
}.

Global Instance shape_eq_dec : EqDecision shape.
Proof. solve_decision. Defined.
Global Instance mesh_eq_dec : EqDecision mesh.
Proof. solve_decision. Defined.

(** The scene: every mesh ever created; a handle is a position in it. *)
Abbreviation scene := (list mesh).

Definition createMesh (sh : shape) (edges : bool) (sc : scene) : scene * handle :=
  (sc ++ [Mesh sh false None None edges], length sc).

Definition disposeMesh (m : mesh) : mesh :=
  Mesh (meshShape m) true (matrixBuffer m) (colorBuffer m) (edgesRendering m).

(** [mesh?.dispose()] *)
Definition dispose (h : option handle) (sc : scene) : scene :=
  match h with
  | Some i => alter disposeMesh i sc
  | None => sc
  end.

Definition setMatrix (buf : list num) (m : mesh) : mesh :=
  Mesh (meshShape m) (disposed m) (Some buf) (colorBuffer m) (edgesRendering m).

Definition setColor (buf : list num) (m : mesh) : mesh :=
  Mesh (meshShape m) (disposed m) (matrixBuffer m) (Some buf) (edgesRendering m).

(** [mesh?.thinInstanceSetBuffer("matrix", m, 16)] followed by
    [mesh?.thinInstanceSetBuffer("color", c, 4)] *)
Definition setBuffers (h : option handle) (m c : list num) (sc : scene) : scene :=
  match h with
  | Some i => alter (setColor c) i (alter (setMatrix m) i sc)
  | None => sc
  end.

(** ** Chunk geometry loader: [loadChunk] and [fillThinInstanceBuffers] *)

Definition fillThinInstanceBuffers (dimensionsBuffer : list num) (dIndex : nat)
    (colorBuffer : list num) (cIndex : nat) (diameter : num) (xyz : vec3)
    (color : color4) : list num * list num :=
  let '(x, y, z) := xyz in
  let d1 := <[dIndex := diameter]> dimensionsBuffer in
  let d2 := <[(dIndex + 5)%nat := diameter]> d1 in
  let d3 := <[(dIndex + 10)%nat := diameter]> d2 in
  let d4 := <[(dIndex + 12)%nat := x]> d3 in
  let d5 := <[(dIndex + 13)%nat := y]> d4 in
  let d6 := <[(dIndex + 14)%nat := z]> d5 in
  let d7 := <[(dIndex + 15)%nat := nz 1]> d6 in
  let c1 := <[cIndex := cr color]> colorBuffer in
  let c2 := <[(cIndex + 1)%nat := cg color]> c1 in
  let c3 := <[(cIndex + 2)%nat := cb color]> c2 in
  let c4 := <[(cIndex + 3)%nat := ca color]> c3 in
  (d7, c4).

(** The four buffers under construction and the running outlier index. *)
Record fillState : Type := FillState {
  sphereDimensionsBuffer : list num;
  sphereColorBuffer : list num;
  octDimensionsBuffer : list num;
  octColorBuffer : list num;
  outlierIndex : nat
}.

Definition defaultDiameter : num := Fin (Q2Qc (1 # 4)).

Section Loader.

(** [BABYLON.Color4.FromHexString] *)
Variable FromHexString : string -> color4.

Definition familyColorOf (cfg : config) (family : string) : color4 :=
  FromHexString
    (default (getColor (darkMode cfg) (charCodes family))
             (familyColor cfg family)).

Definition outlierColorOf (cfg : config) (family : string) : color4 :=
  match familyOutlierColor cfg family with
  | None => familyColorOf cfg family
  | Some outlierColorHex => FromHexString outlierColorHex
  end.

(** One turn of the loop over [i]; [index = familyIndex + i].  Reading
    [is_outlier] off a missing point raises.  [index - outlierIndex] is
    never negative: [outlierIndex] counts outliers among the points before
    [index]. *)
Definition fillPoint (cfg : config) (family : string)
    (dataPoints : list point) (st : fillState) (index : nat)
    : outcome fillState :=
  match dataPoints !! index with
  | None => Raised
  | Some pointData =>
      if is_outlier (meta pointData) then
        let diameter := default defaultDiameter (familyOutlierDiameter cfg family) in
        let '(d, c) :=
          fillThinInstanceBuffers
            (octDimensionsBuffer st) (outlierIndex st * 16)
            (octColorBuffer st) (outlierIndex st * 4)
            diameter (coordinates pointData) (outlierColorOf cfg family) in
        Done (FillState (sphereDimensionsBuffer st) (sphereColorBuffer st)
                        d c (S (outlierIndex st)))
      else
        let diameter := default defaultDiameter (familyDiameter cfg family) in
        let '(d, c) :=
          fillThinInstanceBuffers
            (sphereDimensionsBuffer st) ((index - outlierIndex st) * 16)
            (sphereColorBuffer st) ((index - outlierIndex st) * 4)
            diameter (coordinates pointData) (familyColorOf cfg family) in
        Done (FillState d c (octDimensionsBuffer st) (octColorBuffer st)
                        (outlierIndex st))
  end.

(** The callback of [Object.entries(memberCounts).forEach]; the state
    carries [familyIndex]. *)
Definition fillFamily (cfg : config) (dataPoints : list point)
    (acc : fillState * nat) (entry : string * nat) : outcome (fillState * nat) :=
  let '(st, familyIndex) := acc in
  let '(family, chunkMemberCount) := entry in
  st' <?- foldlM (fun s i => fillPoint cfg family dataPoints s (familyIndex + i))
                 st (seq 0 chunkMemberCount);
  Done (st', (familyIndex + chunkMemberCount)%nat).

Definition zeros (n : nat) : list num := replicate n (nz 0).

Definition activate (cfg : config) (sc : scene) (chunkData : chunk)
    : outcome (scene * chunk) :=
  let dataPoints := points chunkData in
  let sc1 := dispose (octMesh chunkData) (dispose (sphereMesh chunkData) sc) in
  (* new Float32Array of a negative length raises *)
  if (length dataPoints <? outlierCount chunkData)%nat then Raised else
  let normalCount := (length dataPoints - outlierCount chunkData)%nat in
  let sphereDim := zeros (16 * normalCount) in
  let sphereCol := zeros (4 * normalCount) in
  let '(sc2, mesh3) :=
    if (0 <? length sphereCol)%nat
    then let '(s, h) := createMesh Sphere false sc1 in (s, Some h)
    else (sc1, sphereMesh chunkData) in
  let octDim := zeros (16 * outlierCount chunkData) in
  let octCol := zeros (4 * outlierCount chunkData) in
  let '(sc3, mesh4) :=
    if (0 <? outlierCount chunkData)%nat
    then let '(s, h) := createMesh Polyhedron true sc2 in (s, Some h)
    else (sc2, octMesh chunkData) in
  filled <?- foldlM (fillFamily cfg dataPoints)
                    (FillState sphereDim sphereCol octDim octCol 0, 0%nat)
                    (memberCounts chunkData);
  let st := fst filled in
  let sc4 := setBuffers mesh3 (sphereDimensionsBuffer st) (sphereColorBuffer st) sc3 in
  let sc5 := setBuffers mesh4 (octDimensionsBuffer st) (octColorBuffer st) sc4 in
  Done (sc5, Chunk (points chunkData) (memberCounts chunkData)
                   (outlierCount chunkData) mesh3 mesh4).

Definition deactivate (sc : scene) (chunkData : chunk) : scene * chunk :=
  let sc1 := dispose (sphereMesh chunkData) sc in
  let c1 := Chunk (points chunkData) (memberCounts chunkData)
                  (outlierCount chunkData) None (octMesh chunkData) in
  let sc2 := dispose (octMesh c1) sc1 in
  (sc2, Chunk (points c1) (memberCounts c1) (outlierCount c1)
              (sphereMesh c1) None).

(** [loadChunk(scene, chunkData, state)] on a chunk record. *)
Definition loadChunk (cfg : config) (sc : scene) (chunkData : chunk)
    (state : bool) : outcome (scene * chunk) :=
  if state then activate cfg sc chunkData
  else Done (deactivate sc chunkData).

(** [loadChunk(scene, chunks[key], state)]: nothing happens when no chunk
    is stored under [key]; otherwise the record in the map is updated in
    place. *)
Definition loadChunkAt (cfg : config) (sc : scene) (chunks : gmap vec3 chunk)
    (key : vec3) (state : bool) : outcome (scene * gmap vec3 chunk) :=
  match chunks !! key with
  | None => Done (sc, chunks)
  | Some chunkData =>
      r <?- loadChunk cfg sc chunkData state;
      Done (fst r, <[key := snd r]> chunks)
  end.

End Loader.

(** ** Streaming controller: [plotData] and its per-frame callback *)

(** The variables the callback closes over. *)
Record controller : Type := Controller {
  chunkDiameter : num;
  chunkLoadRange : num;
  lastChunkDist : num;
  chunks : gmap vec3 chunk;
  activeChunks : list vec3;
  chunkCentroid : vec3;
  triggeredChunkCentroid : vec3;
  theScene : scene
}.

(** [const i = a.indexOf(k); if (i !== -1) a.splice(i, 1)] *)
Fixpoint removeFirst (k : vec3) (l : list vec3) : list vec3 :=
  match l with
  | [] => []
  | x :: l' => if decide (x = k) then l' else x :: removeFirst k l'
  end.

(** [for (let a = lo; a <= hi; a += step) body(a)] *)
Fixpoint forLoop {S : Type} (fuel : nat) (a hi step : num)
    (body : S -> num -> outcome S) (s : S) : outcome S :=
  match fuel with
  | O => Timeout
  | S fuel' =>
      if Num.leb a hi
      then obind (body s a) (forLoop fuel' (Num.add a step) hi step body)
      else Done s
  end.

Section Controller.

Variable FromHexString : string -> color4.

Definition setTriggered (t : vec3) (c : controller) : controller :=
  Controller (chunkDiameter c) (chunkLoadRange c) (lastChunkDist c) (chunks c)
             (activeChunks c) (chunkCentroid c) t (theScene c).

Definition setWorld (sc : scene) (m : gmap vec3 chunk) (act : list vec3)
    (c : controller) : controller :=
  Controller (chunkDiameter c) (chunkLoadRange c) (lastChunkDist c) m act
             (chunkCentroid c) (triggeredChunkCentroid c) sc.

(** The body of the loop over [bAxis]. *)
Definition sweepCell (cfg : config) (i : nat) (currentAxis axis direction : num)
    (c : controller) (bAxis : num) : outcome controller :=
  let k := ((i + 2) mod 3)%nat in
  let t1 := vset (triggeredChunkCentroid c) k
                 (Num.add (vget (chunkCentroid c) k) bAxis) in
  let t2 := vset t1 i (Num.add currentAxis (Num.mul direction (lastChunkDist c))) in
  r1 <?- loadChunkAt FromHexString cfg (theScene c) (chunks c) t2 true;
  let act1 := activeChunks c ++ [t2] in
  let t3 := vset t2 i (Num.sub axis (Num.mul direction (lastChunkDist c))) in
  r2 <?- loadChunkAt FromHexString cfg (fst r1) (snd r1) t3 false;
  let act2 := removeFirst t3 act1 in
  Done (setTriggered t3 (setWorld (fst r2) (snd r2) act2 c)).

(** The body of the loop over [aAxis]. *)
Definition sweepRow (fuel : nat) (cfg : config) (i : nat)
    (currentAxis axis direction : num) (c : controller) (aAxis : num)
    : outcome controller :=
  let j := ((i + 1) mod 3)%nat in
  let c1 := setTriggered (vset (triggeredChunkCentroid c) j
                               (Num.add (vget (chunkCentroid c) j) aAxis)) c in
  forLoop fuel (Num.sub (nz 0) (lastChunkDist c1)) (lastChunkDist c1)
          (chunkDiameter c1) (sweepCell cfg i currentAxis axis direction) c1.

(** The callback of [chunkCentroid.forEach] for axis [i]. *)
Definition sweepAxis (fuel : nat) (cfg : config) (currentChunkCentroid : vec3)
    (c : controller) (i : nat) : outcome controller :=
  let axis := vget (chunkCentroid c) i in
  let currentAxis := vget currentChunkCentroid i in
  if Num.neb currentAxis axis then
    let direction := if Num.gtb currentAxis axis then nz 1 else nz (-1) in
    forLoop fuel (Num.sub (nz 0) (lastChunkDist c)) (lastChunkDist c)
            (chunkDiameter c) (sweepRow fuel cfg i currentAxis axis direction) c
  else Done c.

(** The callback registered with [scene.registerBeforeRender], run with
    the camera at [camera]; no loop of it may take more than [fuel]
    turns. *)
Definition tick (fuel : nat) (cfg : config) (c : controller) (camera : vec3)
    : outcome controller :=
  let currentChunkCentroid := getChunkCentroid camera (chunkDiameter c) in
  c' <?- foldlM (sweepAxis fuel cfg currentChunkCentroid) c [0; 1; 2]%nat;
  Done (Controller (chunkDiameter c') (chunkLoadRange c') (lastChunkDist c')
                   (chunks c') (activeChunks c') currentChunkCentroid
                   (triggeredChunkCentroid c') (theScene c')).

(** [plotData] up to the registration of the callback: the initial build
    and the activation of the chunks initially in sight. *)
Definition plotData (cfg : config) (data : dataset) (sc : scene) (camera : vec3)
    : outcome controller :=
  let d := cfgChunkDiameter cfg in
  let r := cfgChunkLoadRange cfg in
  let '(chunks0, activeChunks0) := calculateChunks cfg data camera d r in
  w <?- foldlM (fun w key => loadChunkAt FromHexString cfg (fst w) (snd w) key true)
               (sc, chunks0) activeChunks0;
  Done (Controller d r (Num.mul r d) (snd w) activeChunks0
                   (getChunkCentroid camera d) (nz 0, nz 0, nz 0) (fst w)).

(** The callback run once per frame along a path of camera positions. *)
Definition run (fuel : nat) (cfg : config) (c : controller)
    (path : list vec3) : outcome controller :=
  foldlM (tick fuel cfg) c path.

End Controller.

(** ** Specification vocabulary for the chunk builder *)

(** One turn of the inner loop, on an entry of [pointStream]. *)
Definition streamStep (cfg : config) (pos : vec3) (chunkDiameter sight : num)
    (st : buildState) (fp : string * rawPoint) : buildState :=
  buildStep pos chunkDiameter sight (scale cfg) (fst fp) st (snd fp).

(** The entries of a stream that fall into the chunk [key], in order. *)
Definition streamAt (cfg : config) (chunkDiameter : num) (key : vec3)
    (l : list (string * rawPoint)) : list (string * rawPoint) :=
  filter (fun fp => keyOf cfg chunkDiameter (snd fp) = key) l.

Definition storedPoint (cfg : config) (fp : string * rawPoint) : point :=
  scalePoint (scale cfg) (snd fp).

Definition isOutlier (fp : string * rawPoint) : bool :=
  is_outlier (rawMeta (snd fp)).


(** The record a chunk holds once the entries [ps] have been added to it. *)
Definition chunkOfPoints (cfg : config) (ps : list (string * rawPoint)) : chunk :=
  Chunk (map (storedPoint cfg) ps)
        (foldl (fun counts fp => incrCount (fst fp) counts) [] ps)
        (length (filter (fun fp => isOutlier fp = true) ps))
        None None.

Definition chunkOfStream (cfg : config) (chunkDiameter : num) (key : vec3)
    (l : list (string * rawPoint)) : option chunk :=
  match streamAt cfg chunkDiameter key l with
  | [] => None
  | ps => Some (chunkOfPoints cfg ps)
  end.


(** The sum of the member counts. *)
Definition totalCount (counts : list (string * nat)) : nat :=
  foldr (fun e acc => (snd e + acc)%nat) 0%nat counts.

Definition outliersOf (ps : list point) : list point :=
  filter (fun p => is_outlier (meta p) = true) ps.

(** A chunk record whose counters agree with its point sequence, as the
    builder leaves it. *)
Definition chunkWf (c : chunk) : Prop :=
  totalCount (memberCounts c) = length (points c)
  /\ outlierCount c = length (outliersOf (points c)).

(** ** Points with unresolved coordinates *)





Definition plainConfig (d r : Z) : config :=
  Config true (nz d) (nz r) (nz 1) None "Liver" "Heart" "Lung"
         (fun _ => None) (fun _ => None) (fun _ => None) (fun _ => None).

(** ** Specification vocabulary for the geometry loader *)

(** The families of the member counts, each repeated as often as it is
    counted: the family the fill loop works under at each index. *)
Definition expandCounts (counts : list (string * nat)) : list string :=
  flat_map (fun e => replicate (snd e) (fst e)) counts.

(** The points of a chunk, each with the family the fill loop reads its
    diameter and colour from. *)
Definition taggedPoints (c : chunk) : list (string * point) :=
  zip (expandCounts (memberCounts c)) (points c).

Definition normalTagged (l : list (string * point)) : list (string * point) :=
  filter (fun tp => is_outlier (meta (snd tp)) = false) l.

Definition outlierTagged (l : list (string * point)) : list (string * point) :=
  filter (fun tp => is_outlier (meta (snd tp)) = true) l.

(** One 4x4 slot of a transform buffer. *)
Definition transformSlot (diameter : num) (xyz : vec3) : list num :=
  let '(x, y, z) := xyz in
  [diameter; nz 0; nz 0; nz 0;
   nz 0; diameter; nz 0; nz 0;
   nz 0; nz 0; diameter; nz 0;
   x; y; z; nz 1].

Definition colorSlot (c : color4) : list num := [cr c; cg c; cb c; ca c].

Definition normalDiameter (cfg : config) (family : string) : num :=
  default defaultDiameter (familyDiameter cfg family).

Definition outlierDiameter (cfg : config) (family : string) : num :=
  default defaultDiameter (familyOutlierDiameter cfg family).

Definition sphereMatrix (cfg : config) (l : list (string * point)) : list num :=
  concat (map (fun tp => transformSlot (normalDiameter cfg (fst tp))
                                       (coordinates (snd tp)))
              (normalTagged l)).

Definition octMatrix (cfg : config) (l : list (string * point)) : list num :=
  concat (map (fun tp => transformSlot (outlierDiameter cfg (fst tp))
                                       (coordinates (snd tp)))
              (outlierTagged l)).

(** The chunk's handles are meshes of the scene. *)
Definition handlesValid (sc : scene) (c : chunk) : Prop :=
  (forall h, sphereMesh c = Some h -> (h < length sc)%nat)
  /\ (forall h, octMesh c = Some h -> (h < length sc)%nat).

(** The mesh behind a handle. *)
Definition meshOf (sc : scene) (h : option handle) : option mesh :=
  match h with
  | Some i => sc !! i
  | None => None
  end.

(** What a chunk looks like from outside: its cells, with the meshes in
    place of the handles. *)
Definition chunkView (sc : scene) (c : chunk)
    : list point * list (string * nat) * nat * option mesh * option mesh :=
  (points c, memberCounts c, outlierCount c,
   meshOf sc (sphereMesh c), meshOf sc (octMesh c)).

Section LoaderSpec.

Variable FromHexString : string -> color4.

Definition sphereColors (cfg : config) (l : list (string * point)) : list num :=
  concat (map (fun tp => colorSlot (familyColorOf FromHexString cfg (fst tp)))
              (normalTagged l)).

Definition octColors (cfg : config) (l : list (string * point)) : list num :=
  concat (map (fun tp => colorSlot (outlierColorOf FromHexString cfg (fst tp)))
              (outlierTagged l)).

(** The fill state once the tagged points [done] have been written, in
    buffers allocated for [n] normal and [m] outlier points. *)
Definition fillAfter (cfg : config) (n m : nat) (done : list (string * point))
    : fillState :=
  FillState
    (sphereMatrix cfg done ++ zeros (16 * (n - length (normalTagged done))))
    (sphereColors cfg done ++ zeros (4 * (n - length (normalTagged done))))
    (octMatrix cfg done ++ zeros (16 * (m - length (outlierTagged done))))
    (octColors cfg done ++ zeros (4 * (m - length (outlierTagged done))))
    (length (outlierTagged done)).

End LoaderSpec.

Section ActivateSpec.

Variable FromHexString : string -> color4.

(** The sphere mesh and the octahedron mesh an activation creates. *)
Definition newSphere (cfg : config) (c : chunk) : mesh :=
  Mesh Sphere false
       (Some (sphereMatrix cfg (taggedPoints c)))
       (Some (sphereColors FromHexString cfg (taggedPoints c))) false.

Definition newOct (cfg : config) (c : chunk) : mesh :=
  Mesh Polyhedron false
       (Some (octMatrix cfg (taggedPoints c)))
       (Some (octColors FromHexString cfg (taggedPoints c))) true.

(** The scene and the chunk record after a successful activation. *)
Definition installed (cfg : config) (sc : scene) (c : chunk) : scene * chunk :=
  let tagged := taggedPoints c in
  let sc1 := dispose (octMesh c) (dispose (sphereMesh c) sc) in
  let '(sc2, mesh3) :=
    if (0 <? length (normalTagged tagged))%nat
    then (sc1 ++ [Mesh Sphere false None None false], Some (length sc1))
    else (sc1, sphereMesh c) in
  let '(sc3, mesh4) :=
    if (0 <? length (outlierTagged tagged))%nat
    then (sc2 ++ [Mesh Polyhedron false None None true], Some (length sc2))
    else (sc2, octMesh c) in
  (setBuffers mesh4 (octMatrix cfg tagged) (octColors FromHexString cfg tagged)
     (setBuffers mesh3 (sphereMatrix cfg tagged)
                 (sphereColors FromHexString cfg tagged) sc3),
   Chunk (points c) (memberCounts c) (outlierCount c) mesh3 mesh4).

End ActivateSpec.

(** A chunk with three normal points and one outlier, and a parser for the
    colour strings that maps every string to opaque white. *)
Definition samplePoints : list point :=
  [Point (nz 1, nz 2, nz 3) (GeneMeta "g1" false);
   Point (nz 4, nz 5, nz 6) (GeneMeta "g2" true);
   Point (nz 7, nz 8, nz 9) (GeneMeta "g3" false);
   Point (nz 2, nz 2, nz 2) (GeneMeta "g4" false)].

Definition sampleChunk : chunk :=
  Chunk samplePoints [("OG1", 3%nat); ("OG2", 1%nat)] 1 None None.

Definition whiteHex (s : string) : color4 := Color4 (nz 1) (nz 1) (nz 1) (nz 1).

(** ** Specification vocabulary for the streaming controller *)

(** The offsets a sweep loop runs through for a load range of [R] chunks of
    edge [d]: [-R*d, (-R+1)*d, ..., R*d]. *)
Definition offsetAt (R : nat) (d : Qc) (t : nat) : num :=
  Fin (qz (Z.of_nat t - Z.of_nat R) * d)%Qc.

Definition offsets (R : nat) (d : Qc) : list num :=
  map (offsetAt R d) (seq 0 (2 * R + 1)).

(** The key of the cell at offsets [a] and [b] from [cc] on the two axes
    after [i], and at [along] on axis [i]. *)
Definition cellKey (i : nat) (along a b : num) (cc : vec3) : vec3 :=
  vset (vset (vset cc ((i + 1) mod 3) (Num.add (vget cc ((i + 1) mod 3)) a))
             ((i + 2) mod 3) (Num.add (vget cc ((i + 2) mod 3)) b))
       i along.

(** The pairs of keys (to activate, to deactivate) of a sweep on axis [i],
    in the order of the two loops. *)
Definition shellCells (R : nat) (d : Qc) (i : nat) (cc : vec3)
    (actAlong deAlong : num) : list (vec3 * vec3) :=
  flat_map (fun a => map (fun b => (cellKey i actAlong a b cc,
                                    cellKey i deAlong a b cc))
                         (offsets R d))
           (offsets R d).

(** Scene, chunk map and active list. *)
Definition world : Type := list mesh * gmap vec3 chunk * list vec3.

Definition worldOf (c : controller) : world :=
  (theScene c, chunks c, activeChunks c).

Section SweepSpec.

Variable FromHexString : string -> color4.

(** What one turn of the inner sweep loop does to the world, given its two
    keys. *)
Definition cellStep (cfg : config) (w : world) (keys : vec3 * vec3)
    : outcome world :=
  let '(sc, m, act) := w in
  r1 <?- loadChunkAt FromHexString cfg sc m (fst keys) true;
  r2 <?- loadChunkAt FromHexString cfg (fst r1) (snd r1) (snd keys) false;
  Done (fst r2, snd r2, removeFirst (snd keys) (act ++ [fst keys])).

End SweepSpec.

(** Every chunk of the map has counters that agree with its points. *)
Definition allWf (m : gmap vec3 chunk) : Prop :=
  forall k ch, m !! k = Some ch -> chunkWf ch.

(** Two chunk records with the same points and counters. *)
Definition sameCells (c c' : chunk) : Prop :=
  points c' = points c /\ memberCounts c' = memberCounts c
  /\ outlierCount c' = outlierCount c.

(** Geometry is present for each category that has points. *)
Definition loaded (c : chunk) : Prop :=
  ((0 < length (normalTagged (taggedPoints c)))%nat -> is_Some (sphereMesh c))
  /\ ((0 < length (outlierTagged (taggedPoints c)))%nat -> is_Some (octMesh c)).

Definition unloaded (c : chunk) : Prop :=
  sphereMesh c = None /\ octMesh c = None.

(** The controller [c] holds the world [w] and the parameters and centroid
    of [c0]. *)
Definition agree (c0 c : controller) (w : world) : Prop :=
  worldOf c = w
  /\ chunkDiameter c = chunkDiameter c0
  /\ chunkLoadRange c = chunkLoadRange c0
  /\ lastChunkDist c = lastChunkDist c0
  /\ chunkCentroid c = chunkCentroid c0.

(** The active list after the cells [cells]: each cell appends its first key
    and then removes the first occurrence of its second key. *)
Definition activeAfter (act : list vec3) (cells : list (vec3 * vec3)) : list vec3 :=
  foldl (fun l keys => removeFirst (snd keys) (l ++ [fst keys])) act cells.

Definition removeAll (ks : list vec3) (l : list vec3) : list vec3 :=
  foldl (fun l' k => removeFirst k l') l ks.

(** What a chunk map can have become after calls of [loadChunk]: nothing
    where there was nothing, else a record with the same points and
    counters. *)
Definition evolved (m m' : gmap vec3 chunk) : Prop :=
  forall k,
    match m !! k with
    | None => m' !! k = None
    | Some ch => exists ch', m' !! k = Some ch' /\ sameCells ch ch'
    end.

(** ** The scenario of the specification: chunk diameter 10, load range 1,
    the viewpoint moving from (0,0,0) to (11,0,0) *)

Definition numbers (l : list Z) : list jsval := map (fun z => JNum (nz z)) l.

(** Four genes, falling into the chunks (0,0,0), (20,0,0), (-10,0,0) and
    (20,0,0). *)
Definition sweepData : dataset :=
  [("OG1", FamilyData [GeneMeta "g1" false; GeneMeta "g2" true;
                       GeneMeta "g3" false; GeneMeta "g4" false]
                      [("Liver", numbers [4; 21; -9; 19]);
                       ("Heart", numbers [4; 0; 0; 0]);
                       ("Lung", numbers [4; 0; 0; 0])])].

Definition result {A : Type} (o : outcome A) : option A :=
  match o with Done a => Some a | _ => None end.

Definition sweepStart : outcome controller :=
  plotData whiteHex (plainConfig 10 1) sweepData [] (nz 0, nz 0, nz 0).

Definition sweepEnd : outcome controller :=
  obind sweepStart
        (fun c => tick whiteHex 4 (plainConfig 10 1) c (nz 11, nz 0, nz 0)).

(** From [c0] to [c1] nothing changes for the keys whose coordinate on axis
    [i] is neither [de] nor [act]. *)
Definition onlyShellsAffected (c0 c1 : controller) (i : nat) (de act : num)
    : Prop :=
  forall k,
    vget k i <> de -> vget k i <> act ->
    chunks c1 !! k = chunks c0 !! k
    /\ (k ∈ activeChunks c1 <-> k ∈ activeChunks c0).

Definition key3 (x y z : Z) : vec3 := (nz x, nz y, nz z).

(** The facts of the scenario that evaluation settles. *)
Definition scenarioCheck : bool :=
  match sweepStart, sweepEnd with
  | Done c0, Done c1 =>
      bool_decide (chunkCentroid c0 = key3 0 0 0)
      && bool_decide (chunkCentroid c1 = key3 10 0 0)
      && bool_decide (activeChunks c0 = [key3 0 0 0; key3 (-10) 0 0])
      && bool_decide (activeChunks c1
                      = [key3 0 0 0;
                         key3 20 (-10) (-10); key3 20 (-10) 0; key3 20 (-10) 10;
                         key3 20 0 (-10); key3 20 0 0; key3 20 0 10;
                         key3 20 10 (-10); key3 20 10 0; key3 20 10 10])
      && bool_decide (sphereMesh <$> (chunks c0 !! key3 (-10) 0 0) = Some (Some 1%nat))
      && bool_decide (chunks c1 !! key3 (-10) 0 0
                      = (fun ch => Chunk (points ch) (memberCounts ch)
                                         (outlierCount ch) None None)
                          <$> chunks c0 !! key3 (-10) 0 0)
      && bool_decide (sphereMesh <$> (chunks c0 !! key3 20 0 0) = Some None)
      && bool_decide (octMesh <$> (chunks c0 !! key3 20 0 0) = Some None)
      && bool_decide (sphereMesh <$> (chunks c1 !! key3 20 0 0) = Some (Some 2%nat))
      && bool_decide (octMesh <$> (chunks c1 !! key3 20 0 0) = Some (Some 3%nat))
      && bool_decide (chunks c1 !! key3 0 0 0 = chunks c0 !! key3 0 0 0)
      && bool_decide (chunks c1 !! key3 20 (-10) (-10) = None)
  | _, _ => false
  end.

(** A controller over an empty chunk map. *)
Definition emptyController : controller :=
  Controller (nz 10) (nz 1) (Num.mul (nz 1) (nz 10)) ∅ []
             (key3 0 0 0) (key3 0 0 0) [].

(** ** The grid of chunk centroids *)














(** ** Three runs of the controller on the data of the scenario *)





(** ** Properties of the controller along arbitrary paths *)

(** The chunk holds geometry. *)
Definition hasGeometry (ch : chunk) : Prop :=
  is_Some (sphereMesh ch) \/ is_Some (octMesh ch).

(** Every chunk that holds geometry has its key in the active list. *)
Definition geometryListed (m : gmap vec3 chunk) (act : list vec3) : Prop :=
  forall k ch, m !! k = Some ch -> hasGeometry ch -> k ∈ act.

(** The chunk holds the mesh [h] in one of its two cells. *)
Definition holds (ch : chunk) (h : handle) : Prop :=
  sphereMesh ch = Some h \/ octMesh ch = Some h.

(** The scene and the chunk map fit together; the meshes from position
    [base] on are those the chunk code has created:
    - the counters of every chunk agree with its points;
    - a mesh held by a chunk is one of the chunk code's, and not disposed;
    - no mesh is held twice, neither by two chunks nor in the two cells of
      one chunk;
    - every mesh of the chunk code that is not disposed is held by a chunk;
    - a chunk holds a sphere mesh only if it has normal points, and an
      octahedron mesh only if it has outliers. *)
Record tidy (base : nat) (sc : scene) (m : gmap vec3 chunk) : Prop := Tidy {
  tidy_wf : allWf m;
  tidy_base : (base <= length sc)%nat;
  tidy_live :
    forall k ch h, m !! k = Some ch -> holds ch h ->
                   (base <= h)%nat
                   /\ exists me, sc !! h = Some me /\ disposed me = false;
  tidy_own :
    forall k k' ch ch' h, m !! k = Some ch -> m !! k' = Some ch' ->
                          holds ch h -> holds ch' h -> k = k';
  tidy_apart :
    forall k ch h, m !! k = Some ch -> sphereMesh ch = Some h ->
                   octMesh ch <> Some h;
  tidy_noleak :
    forall h me, sc !! h = Some me -> (base <= h)%nat -> disposed me = false ->
                 exists k ch, m !! k = Some ch /\ holds ch h;
  tidy_points :
    forall k ch, m !! k = Some ch ->
                 (is_Some (sphereMesh ch)
                  -> (0 < length (normalTagged (taggedPoints ch)))%nat)
                 /\ (is_Some (octMesh ch)
                     -> (0 < length (outlierTagged (taggedPoints ch)))%nat)
}.

(** What the chunk code keeps of the world, from a scene [sc0] it was given
    and the chunk map [m0] of the build: scene and map fit together, every
    chunk with geometry is in the active list, the chunks are those of the
    build with their points and counters, and the meshes of [sc0] are as
    they were. *)
Definition kept (sc0 : scene) (m0 : gmap vec3 chunk) (w : world) : Prop :=
  let '(sc, m, act) := w in
  tidy (length sc0) sc m
  /\ geometryListed m act
  /\ evolved m0 m
  /\ (forall h, (h < length sc0)%nat -> sc !! h = sc0 !! h).

(** A path with a jump of two chunks and a position that is not a number. *)
Definition roughPath : list vec3 := [(nz 21, nz 0, nz 0); (NaN, nz 0, nz 0)].

(** A scene that holds one mesh of its own before the chunk code runs. *)
Definition foreignScene : scene := [Mesh Sphere false None None false].

(** ** Reloading: [clearChunks], [reloadChunks] and the listener of
    "chunkReload" (plotData.js) *)

Section Reload.

Variable FromHexString : string -> color4.

(** [clearChunks(scene, chunks, activeChunks)] *)
Definition clearChunks (cfg : config) (sc : scene) (chunks : gmap vec3 chunk)
    (activeChunks : list vec3) : outcome (scene * gmap vec3 chunk) :=
  foldlM (fun w key => loadChunkAt FromHexString cfg (fst w) (snd w) key false)
         (sc, chunks) activeChunks.

(** [reloadChunks(scene, chunks, activeChunks)], with the configuration
    [cfg] in force and the active camera at [camera].  The result is the
    scene together with the array the function returns. *)
Definition reloadChunks (cfg : config) (data : dataset) (camera : vec3)
    (sc : scene) (chunks : gmap vec3 chunk) (activeChunks : list vec3)
    : outcome (scene * (gmap vec3 chunk * list vec3 * num * num)) :=
  w <?- clearChunks cfg sc chunks activeChunks;
  let chunkDiameter := cfgChunkDiameter cfg in
  let chunkLoadRange := cfgChunkLoadRange cfg in
  let '(newChunks, newActiveChunks) :=
    calculateChunks cfg data camera chunkDiameter chunkLoadRange in
  w' <?- foldlM (fun w key =>
                   loadChunkAt FromHexString cfg (fst w) (snd w) key true)
                (fst w, newChunks) newActiveChunks;
  Done (fst w', (snd w', newActiveChunks, chunkDiameter, chunkLoadRange)).

(** The listener [plotData] registers for "chunkReload": the four
    variables are replaced and [lastChunkDist] is computed anew; the
    centroid the callback compares with is not. *)
Definition onChunkReload (cfg : config) (data : dataset) (camera : vec3)
    (c : controller) : outcome controller :=
  r <?- reloadChunks cfg data camera (theScene c) (chunks c) (activeChunks c);
  let '(sc, (chunks', activeChunks', chunkDiameter', chunkLoadRange')) := r in
  Done (Controller chunkDiameter' chunkLoadRange'
                   (Num.mul chunkLoadRange' chunkDiameter')
                   chunks' activeChunks' (chunkCentroid c)
                   (triggeredChunkCentroid c) sc).

End Reload.

(** The configuration of the scenario with another diameter and another load
    range. *)
Definition wideConfig : config := plainConfig 25 2.


(** ** Further vocabulary *)

(** Every character of [s] is one of [allowed]. *)
Definition charsWithin (allowed s : string) : bool :=
  forallb (fun c => existsb (Ascii.eqb c) (String.list_ascii_of_string allowed))
          (String.list_ascii_of_string s).

(** ** The configuration object (config.js)

    The values of a setting in this model are booleans, numbers, strings,
    [null], [undefined] and arrays of strings.  The three objects of
    [values] are maps from property names to values; a name that
    [Object.prototype] defines ([constructor], [toString], ...) reads as a
    function on every object of the code and is outside the model: the
    properties below ask for [ownKey]. *)

Module ConfigStore.

Inductive cval : Type :=
| CBool (b : bool)
| CNum (n : num)
| CStr (s : string)
| CNull
| CUndef
| CArr (l : list string).

Global Instance cval_eq_dec : EqDecision cval.
Proof. solve_decision. Defined.

Definition objectPrototypeNames : list string :=
  ["constructor"; "__defineGetter__"; "__defineSetter__"; "hasOwnProperty";
   "__lookupGetter__"; "__lookupSetter__"; "isPrototypeOf";
   "propertyIsEnumerable"; "toString"; "valueOf"; "__proto__";
   "toLocaleString"].

Definition ownKey (key : string) : Prop := key ∉ objectPrototypeNames.

(** [a ?? b] *)
Definition orElse (a b : cval) : cval :=
  match a with
  | CNull | CUndef => b
  | _ => a
  end.

(** The truth value of [v] in a condition. *)
Definition truthy (v : cval) : bool :=
  match v with
  | CBool b => b
  | CNum (Fin q) => negb (bool_decide (q = 0%Qc))
  | CNum NaN => false
  | CStr s => negb (String.eqb s "")
  | CNull | CUndef => false
  | CArr _ => true
  end.

(** [obj[key]] *)
Definition prop (obj : gmap string cval) (key : string) : cval :=
  default CUndef (obj !! key).

Definition table (l : list (string * cval)) : gmap string cval :=
  list_to_map l.

Definition cnum (z : Z) : cval := CNum (nz z).

(** [defaults]; [prefersDark] is what
    [window.matchMedia('(prefers-color-scheme: dark)').matches] gives. *)
Definition defaultsAllModes (prefersDark : bool) : gmap string cval :=
  table [("orbitMode", CBool false);
         ("darkMode", CBool prefersDark);
         ("x", cnum 0); ("y", cnum 0); ("z", cnum 0);
         ("rotationX", cnum 0); ("rotationY", cnum 0);
         ("orbitModeTargetDistance", cnum 10);
         ("mouseSensibility", cnum 2000);
         ("movementSpeed", CNum (Fin (Q2Qc (1 # 2))));
         ("scale", cnum 100);
         ("chunkDiameter", cnum 50);
         ("chunkLoadRange", cnum 2);
         ("shownFamilies", CNull);
         ("tissueX", CStr "Liver");
         ("tissueY", CStr "Heart");
         ("tissueZ", CStr "Lung");
         ("outlierDataPointDiameter", CNum (Fin (Q2Qc (1 # 4))))].

Definition defaultsLightMode : gmap string cval :=
  table [("selectedDataPointColor", CStr "#FFFF00FF");
         ("outlierDataPointColor", CStr "#0000FFFF");
         ("backgroundColor", CStr "#FFFFFFFF");
         ("xAxisColor", CStr "#FF0000FF");
         ("yAxisColor", CStr "#00FF00FF");
         ("zAxisColor", CStr "#0000FFFF")].

Definition defaultsDarkMode : gmap string cval :=
  table [("selectedDataPointColor", CStr "#FFFF00FF");
         ("outlierDataPointColor", CStr "#F15829FF");
         ("backgroundColor", CStr "#1B1A1FFF");
         ("xAxisColor", CStr "#DE0000FF");
         ("yAxisColor", CStr "#19CF00FF");
         ("zAxisColor", CStr "#0092FFFF")].

(** [values] *)
Record values : Type := Values {
  vAllModes : gmap string cval;
  vLightMode : gmap string cval;
  vDarkMode : gmap string cval
}.

Definition noValues : values := Values ∅ ∅ ∅.

(** *** Strings *)

Fixpoint startsWith (p l : list ascii) : bool :=
  match p, l with
  | [], _ => true
  | a :: p', b :: l' => Ascii.eqb a b && startsWith p' l'
  | _ :: _, [] => false
  end.

(** [s.endsWith(suffix)] *)
Definition endsWith (s suffix : string) : bool :=
  startsWith (rev (String.list_ascii_of_string suffix))
             (rev (String.list_ascii_of_string s)).

(** [s.includes(sub)], for a non-empty [sub] *)
Definition includes (s sub : string) : bool :=
  match String.index 0 sub s with
  | Some _ => true
  | None => false
  end.

(** *** [getValidator] *)

(** The five validator functions of [asArray]. *)
Inductive validator : Type :=
| Boolean
| Number
| Positive
| PositiveInteger
| Families.

Definition asArray : list (list string * validator) :=
  [(["orbitMode"; "darkMode"], Boolean);
   (["x"; "y"; "z"; "rotationX"; "rotationY"], Number);
   (["orbitModeTargetDistance"; "mouseSensibility"; "movementSpeed"; "scale"],
    Positive);
   (["chunkDiameter"; "chunkLoadRange"], PositiveInteger);
   (["shownFamilies"], Families)].

(** [for (const [keys, validator] of asArray) for (const key of keys)
    validators[key] = validator] *)
Definition validators : gmap string validator :=
  foldl (fun m entry =>
           foldl (fun m' key => <[key := snd entry]> m') m (fst entry))
        ∅ asArray.

Definition isBoolean (v : cval) : bool :=
  match v with CBool _ => true | _ => false end.

Definition isNumber (v : cval) : bool :=
  match v with CNum _ => true | _ => false end.

(** [Number.isInteger(v)] *)
Definition isInteger (v : cval) : bool :=
  match v with
  | CNum (Fin q) => Pos.eqb (Qden (this q)) 1
  | _ => false
  end.

(** [v <= 0], asked of numbers only *)
Definition notPositive (v : cval) : bool :=
  match v with
  | CNum n => Num.leb n (nz 0)
  | _ => false
  end.

Definition isNull (v : cval) : bool :=
  match v with CNull => true | _ => false end.

Definition isArray (v : cval) : bool :=
  match v with CArr _ => true | _ => false end.

(** Whether the validator function throws on [v]. *)
Definition throws (f : validator) (v : cval) : bool :=
  match f with
  | Boolean => negb (isBoolean v)
  | Number => negb (isNumber v)
  | Positive => negb (isNumber v) || notPositive v
  | PositiveInteger => negb (isInteger v) || notPositive v
  | Families => negb (isNull v) || negb (isArray v)
  end.

(** [validate(key, value)]: [true], or [undefined] (read here as
    [false]).  In the branch of the keys that end in "Diameter" the code
    reads a variable [v] that is bound nowhere: [typeof v] is "undefined",
    the test succeeds, and building the message for [console.error]
    evaluates [v], which throws a ReferenceError. *)
Definition validate (key : string) (value : cval) : outcome bool :=
  match validators !! key with
  | Some f => Done (negb (throws f value))
  | None =>
      if endsWith key "Diameter" then Raised
      else Done false
  end.

Definition triggersChunkReload : list string :=
  ["tissueX"; "tissueY"; "tissueZ"; "chunkDiameter"; "chunkLoadRange";
   "scale"; "darkMode"; "shownFamilies"].

Definition isUndefined (v : cval) : bool :=
  match v with CUndef => true | _ => false end.

Section Config.

Variable prefersDark : bool.

(** [config.get(key)] *)
Definition get (vs : values) (key : string) : cval :=
  let value := orElse (prop (vAllModes vs) key)
                      (prop (defaultsAllModes prefersDark) key) in
  if isUndefined value then
    if truthy (orElse (prop (vAllModes vs) "darkMode")
                      (prop (defaultsAllModes prefersDark) "darkMode"))
    then orElse (prop (vDarkMode vs) key) (prop defaultsDarkMode key)
    else orElse (prop (vLightMode vs) key) (prop defaultsLightMode key)
  else value.

(** The three assignments of [config.set]. *)
Definition assign (key : string) (value : cval) (vs : values) : values :=
  if negb (isUndefined (prop (defaultsAllModes prefersDark) key))
     || negb (endsWith key "Color")
  then Values (<[key := value]> (vAllModes vs)) (vLightMode vs) (vDarkMode vs)
  else if truthy (get vs "darkMode")
       then Values (vAllModes vs) (vLightMode vs)
                   (<[key := value]> (vDarkMode vs))
       else Values (vAllModes vs) (<[key := value]> (vLightMode vs))
                   (vDarkMode vs).

(** The world outside the configuration object, as the callbacks and
    the listeners of "chunkReload" see and change it, is left open. *)
Variable W : Type.

(** [callbacks], and [document.dispatchEvent] of a "chunkReload" event
    with the given [detail.setting]. *)
Variable callbacks : gmap string (cval -> values * W -> outcome (values * W)).
Variable dispatchChunkReload : string -> values * W -> outcome (values * W).

(** [config.set(key, value, runCallback)] *)
Definition set (key : string) (value : cval) (runCallback : bool)
    (s : values * W) : outcome (values * W) :=
  ok <?- validate key value;
  if ok then
    let s1 := (assign key value (fst s), snd s) in
    if runCallback then
      s2 <?- match callbacks !! key with
             | Some callback => callback value s1
             | None => Done s1
             end;
      if includes key "_" || bool_decide (key ∈ triggersChunkReload)
      then dispatchChunkReload key s2
      else Done s2
    else Done s1
  else Done s.

End Config.

End ConfigStore.

(** The validator of a key, read off [asArray]. *)
Definition validatorOf (key : string) : option ConfigStore.validator :=
  if bool_decide (key ∈ ["orbitMode"; "darkMode"])
  then Some ConfigStore.Boolean
  else if bool_decide (key ∈ ["x"; "y"; "z"; "rotationX"; "rotationY"])
  then Some ConfigStore.Number
  else if bool_decide (key ∈ ["orbitModeTargetDistance"; "mouseSensibility";
                              "movementSpeed"; "scale"])
  then Some ConfigStore.Positive
  else if bool_decide (key ∈ ["chunkDiameter"; "chunkLoadRange"])
  then Some ConfigStore.PositiveInteger
  else if bool_decide (key = "shownFamilies")
  then Some ConfigStore.Families
  else None.

(** [config.get] gives positive integers for the two parameters of the
    chunks. *)
Definition chunkParametersValid (prefersDark : bool) (vs : ConfigStore.values)
    : Prop :=
  exists z1 z2,
    0 < z1 /\ 0 < z2
    /\ ConfigStore.get prefersDark vs "chunkDiameter" = ConfigStore.cnum z1
    /\ ConfigStore.get prefersDark vs "chunkLoadRange" = ConfigStore.cnum z2.

(** A call of [config.set]: key, value and [runCallback]. *)
Definition setCall : Type := string * ConfigStore.cval * bool.

(** Three calls of [config.set] in a row, with no callback registered and no
    listener: a diameter of 25, a diameter of 0 and a load range that is not
    a number. *)
Definition sampleCalls : list setCall :=
  [("chunkDiameter", ConfigStore.cnum 25, true);
   ("chunkDiameter", ConfigStore.cnum 0, true);
   ("chunkLoadRange", ConfigStore.CNum NaN, false)].

Definition sampleSession : outcome (ConfigStore.values * unit) :=
  foldlM (fun st call =>
            ConfigStore.set true unit ∅ (fun _ s => Done s)
                            (fst (fst call)) (snd (fst call)) (snd call) st)
         (ConfigStore.noValues, tt) sampleCalls.

(** ** The reference grid: [create3DGrid] (plotData.js)

    The grid is read here through the lines it is made of, in the order of
    their creation, each with its start and its end point. *)

(** The three calls of [createLine] in the body of the inner loop. *)
Definition gridLines (halfSize a b : num) : list (vec3 * vec3) :=
  [((Num.sub (nz 0) halfSize, a, b), (halfSize, a, b));
   ((a, Num.sub (nz 0) halfSize, b), (a, halfSize, b));
   ((a, b, Num.sub (nz 0) halfSize), (a, b, halfSize))].

Definition create3DGrid (fuel : nat) (size step : num)
    : outcome (list (vec3 * vec3)) :=
  let halfSize := Num.div size (nz 2) in
  forLoop fuel (Num.sub (nz 0) halfSize) halfSize step
          (fun lines a =>
             forLoop fuel (Num.sub (nz 0) halfSize) halfSize step
                     (fun lines' b => Done (lines' ++ gridLines halfSize a b))
                     lines)
          [].

(** The values the loop variable takes: [-size/2 + i * step] for [i < n]. *)
Definition gridValues (size step : Qc) (n : nat) : list num :=
  map (fun i => Fin (0 - size / qz 2 + qz (Z.of_nat i) * step)%Qc) (seq 0 n).

(** * Properties *)

(** ** Grid indexer *)

Lemma div_finite (x y : Qc) : y <> 0%Qc -> Num.div (Fin x) (Fin y) = Fin (x / y)%Qc.
Proof. intros Hy. unfold Num.div. by destruct (decide (y = 0%Qc)). Qed.

Lemma qz_two_nonzero : qz 2 <> 0%Qc.
Proof. intros H. by apply (f_equal this) in H. Qed.

Lemma trim_finite (a d : Qc) :
  d <> 0%Qc -> trim (Fin d) (Fin a) = Fin (centroid_formula a d).
Proof.
  intros Hd. unfold trim, centroid_formula, nz.
  rewrite (div_finite d (qz 2)) by apply qz_two_nonzero.
  cbn [Num.add]. rewrite div_finite by done. reflexivity.
Qed.

Lemma num_eq_decide (a b : num) : bool_decide (a = b) = true -> a = b.
Proof. apply bool_decide_eq_true_1. Qed.



(** ** Colour derivation *)

Lemma toInt32_range (z : Z) : -2147483648 <= toInt32 z < 2147483648.
Proof.
  unfold toInt32, two32.
  pose proof (Z.mod_pos_bound z 4294967296 eq_refl).
  destruct (2147483648 <=? z mod 4294967296) eqn:E; lia.
Qed.

Lemma toInt32_small (z : Z) : -2147483648 <= z < 2147483648 -> toInt32 z = z.
Proof.
  intros Hz. unfold toInt32, two32.
  destruct (Z.neg_nonneg_cases z) as [Hneg | Hpos].
  - replace (z mod 4294967296) with (z + 4294967296).
    + destruct (2147483648 <=? z + 4294967296) eqn:E; lia.
    + apply (Z.mod_unique _ _ (-1)); lia.
  - rewrite Z.mod_small by lia.
    destruct (2147483648 <=? z) eqn:E; lia.
Qed.

Lemma mask_ones : 8 ^ 6 - 1 = Z.ones 18.
Proof. reflexivity. Qed.

Lemma and32_mask (z : Z) :
  -2147483648 <= z < 2147483648 -> and32 z (8 ^ 6 - 1) = Z.land z (2 ^ 18 - 1).
Proof.
  intros Hz. unfold and32.
  rewrite (toInt32_small z) by done.
  rewrite (toInt32_small (8 ^ 6 - 1)) by (cbv; split; congruence).
  change (2 ^ 18 - 1) with (Z.ones 18). rewrite mask_ones.
  rewrite Z.land_ones by lia.
  apply toInt32_small.
  pose proof (Z.mod_pos_bound z (2 ^ 18) eq_refl).
  change (2 ^ 18) with 262144 in *. lia.
Qed.

Lemma crc32_range (str : list Z) : -2147483648 <= crc32 str < 2147483648.
Proof. unfold crc32, xor32. apply toInt32_range. Qed.

Lemma colorValue_bounds (family : list Z) :
  colorValue family = Z.land (crc32 family) (2 ^ 18 - 1)
  /\ 0 <= colorValue family < 262144.
Proof.
  unfold colorValue. rewrite and32_mask by apply crc32_range. split; [done |].
  change (2 ^ 18 - 1) with (Z.ones 18). rewrite Z.land_ones by lia.
  apply (Z.mod_pos_bound _ (2 ^ 18)). reflexivity.
Qed.

(** *** The base-8 rendering of a value below [8^6] *)

Lemma digitsAux_fuel (radix : Z) (f : nat) :
  forall n acc f',
    1 < radix -> 0 <= n < radix ^ Z.of_nat (S f) -> (S f <= f')%nat ->
    digitsAux f' radix n acc = digitsAux (S f) radix n acc.
Proof.
  induction f as [| f IH]; intros n acc f' Hr Hn Hf;
    (destruct f' as [| f']; [lia |]); cbn [digitsAux].
  - replace (n / radix) with 0; [done |].
    symmetry. apply Z.div_small. change (Z.of_nat 1) with 1 in Hn. lia.
  - destruct (n / radix =? 0) eqn:E; [done |].
    apply IH; [done | | lia].
    rewrite Nat2Z.inj_succ, Z.pow_succ_r in Hn by lia.
    split; [apply Z.div_pos; lia |].
    apply Z.div_lt_upper_bound; lia.
Qed.

Lemma toStringRadix_octal (v : Z) :
  0 <= v < 262144 -> toStringRadix 8 v = digitsAux 6 8 v EmptyString.
Proof.
  intros Hv. unfold toStringRadix.
  destruct (v <? 0) eqn:E; [lia |].
  assert (Hlog : 0 <= Z.log2 v < 18).
  { split; [apply Z.log2_nonneg |].
    destruct (Z.eq_dec v 0) as [-> | Hne]; [cbn; lia |].
    apply Z.log2_lt_pow2; [lia |]. change (2 ^ 18) with 262144. lia. }
  rewrite <- (digitsAux_fuel 8 5 v EmptyString 18);
    [| lia | change (8 ^ Z.of_nat 6) with 262144; lia | lia].
  symmetry. apply digitsAux_fuel; [lia | | lia].
  rewrite Nat2Z.inj_succ, Z2Nat.id by lia.
  split; [lia |].
  destruct (Z.eq_dec v 0) as [-> | Hne]; [cbn; lia |].
  assert (v < 2 ^ Z.succ (Z.log2 v)) by (apply Z.log2_spec; lia).
  assert (2 ^ Z.succ (Z.log2 v) <= 8 ^ Z.succ (Z.log2 v))
    by (apply Z.pow_le_mono_l; lia).
  lia.
Qed.

Lemma octalDigit_zero (v : Z) (i : nat) :
  0 <= v -> v / 8 ^ Z.of_nat i = 0 -> forall j, (i <= j)%nat -> octalDigit v j = 0.
Proof.
  intros Hv Hz j Hj. unfold octalDigit.
  replace (v / 8 ^ Z.of_nat j) with 0; [done |].
  symmetry. apply Z.div_small. split; [done |].
  assert (v < 8 ^ Z.of_nat i).
  { apply Z.div_small_iff in Hz as [Hz | Hz]; lia. }
  assert (8 ^ Z.of_nat i <= 8 ^ Z.of_nat j) by (apply Z.pow_le_mono_r; lia).
  lia.
Qed.

Lemma octalDigit_succ (v : Z) (i : nat) :
  0 <= v -> v / 8 ^ Z.of_nat (S i) = v / 8 ^ Z.of_nat i / 8.
Proof.
  intros Hv. rewrite Nat2Z.inj_succ, Z.pow_succ_r by lia.
  rewrite Z.div_div by lia. f_equal. lia.
Qed.

Lemma padded_octal (v : Z) :
  0 <= v < 262144 -> padStart 6 "0" (toStringRadix 8 v) = octalString v.
Proof.
  intros Hv. rewrite toStringRadix_octal by done.
  assert (H0 : v mod 8 = octalDigit v 0)
    by (unfold octalDigit; cbn; by rewrite Z.div_1_r).
  assert (Hq : forall i, v / 8 ^ Z.of_nat (S i) = v / 8 ^ Z.of_nat i / 8)
    by (intros i; apply octalDigit_succ; lia).
  assert (Hq0 : v / 8 ^ Z.of_nat 0 = v) by (cbn; apply Z.div_1_r).
  pose proof (octalDigit_zero v) as Hzero.
  unfold octalString. cbn [digitsAux map String.string_of_list_ascii].
  rewrite H0.
  change ((v / 8) mod 8) with ((v / 8) mod 8).
  assert (E1 : v / 8 = v / 8 ^ Z.of_nat 1) by (rewrite Hq, Hq0; done).
  assert (E2 : v / 8 / 8 = v / 8 ^ Z.of_nat 2) by (rewrite (Hq 1%nat), <- E1; done).
  assert (E3 : v / 8 / 8 / 8 = v / 8 ^ Z.of_nat 3) by (rewrite (Hq 2%nat), <- E2; done).
  assert (E4 : v / 8 / 8 / 8 / 8 = v / 8 ^ Z.of_nat 4) by (rewrite (Hq 3%nat), <- E3; done).
  assert (E5 : v / 8 / 8 / 8 / 8 / 8 = v / 8 ^ Z.of_nat 5) by (rewrite (Hq 4%nat), <- E4; done).
  rewrite E5, E4, E3, E2, E1.
  fold (octalDigit v 1) (octalDigit v 2) (octalDigit v 3) (octalDigit v 4)
       (octalDigit v 5).
  destruct (v / 8 ^ Z.of_nat 1 =? 0) eqn:T1.
  { apply Z.eqb_eq in T1.
    rewrite (Hzero 1%nat (proj1 Hv) T1 1%nat), (Hzero 1%nat (proj1 Hv) T1 2%nat), (Hzero 1%nat (proj1 Hv) T1 3%nat), (Hzero 1%nat (proj1 Hv) T1 4%nat), (Hzero 1%nat (proj1 Hv) T1 5%nat) by lia. reflexivity. }
  destruct (v / 8 ^ Z.of_nat 2 =? 0) eqn:T2.
  { apply Z.eqb_eq in T2.
    rewrite (Hzero 2%nat (proj1 Hv) T2 2%nat), (Hzero 2%nat (proj1 Hv) T2 3%nat), (Hzero 2%nat (proj1 Hv) T2 4%nat), (Hzero 2%nat (proj1 Hv) T2 5%nat) by lia. reflexivity. }
  destruct (v / 8 ^ Z.of_nat 3 =? 0) eqn:T3.
  { apply Z.eqb_eq in T3.
    rewrite (Hzero 3%nat (proj1 Hv) T3 3%nat), (Hzero 3%nat (proj1 Hv) T3 4%nat), (Hzero 3%nat (proj1 Hv) T3 5%nat) by lia. reflexivity. }
  destruct (v / 8 ^ Z.of_nat 4 =? 0) eqn:T4.
  { apply Z.eqb_eq in T4.
    rewrite (Hzero 4%nat (proj1 Hv) T4 4%nat), (Hzero 4%nat (proj1 Hv) T4 5%nat) by lia. reflexivity. }
  destruct (v / 8 ^ Z.of_nat 5 =? 0) eqn:T5.
  { apply Z.eqb_eq in T5.
    rewrite (Hzero 5%nat (proj1 Hv) T5 5%nat) by lia. reflexivity. }
  destruct (v / 8 ^ Z.of_nat 5 / 8 =? 0); reflexivity.
Qed.

Lemma octalDigit_range (v : Z) (i : nat) : 0 <= octalDigit v i < 8.
Proof. unfold octalDigit. apply Z.mod_pos_bound. lia. Qed.

(** *** One digit through the replacement and the upper-casing *)

Lemma digit_cases (d : Z) :
  0 <= d < 8 -> d = 0 \/ d = 1 \/ d = 2 \/ d = 3 \/ d = 4 \/ d = 5 \/ d = 6 \/ d = 7.
Proof. lia. Qed.

Lemma replace_digit (shift d : Z) (s : string) :
  shift = 3 \/ shift = 7 -> 0 <= d < 8 ->
  toUpperCase (replaceOctal (shiftDigit shift) (String (digitChar d) s))
  = String (hexDigit (d + shift)) (toUpperCase (replaceOctal (shiftDigit shift) s))
  /\ isHexDigit (hexDigit (d + shift)) = true.
Proof.
  intros Hs Hd. apply digit_cases in Hd.
  destruct Hs as [-> | ->];
    repeat (destruct Hd as [-> | Hd]); try subst d; split; reflexivity.
Qed.

Lemma renderColor_spec (shift v : Z) :
  (shift = 3 \/ shift = 7) -> 0 <= v < 262144 ->
  renderColor shift v = specColor shift v /\ sixHex (renderColor shift v) = true.
Proof.
  intros Hs Hv. unfold renderColor, specColor.
  rewrite padded_octal by done. unfold octalString.
  cbn [map String.string_of_list_ascii].
  destruct (replace_digit shift (octalDigit v 5)
              (String.string_of_list_ascii
                 (map (fun i => digitChar (octalDigit v i)) [4; 3; 2; 1; 0]%nat))
              Hs (octalDigit_range v 5)) as [R5 X5].
  cbn [map String.string_of_list_ascii] in R5. rewrite R5. clear R5.
  destruct (replace_digit shift (octalDigit v 4)
              (String.string_of_list_ascii
                 (map (fun i => digitChar (octalDigit v i)) [3; 2; 1; 0]%nat))
              Hs (octalDigit_range v 4)) as [R4 X4].
  cbn [map String.string_of_list_ascii] in R4. rewrite R4. clear R4.
  destruct (replace_digit shift (octalDigit v 3)
              (String.string_of_list_ascii
                 (map (fun i => digitChar (octalDigit v i)) [2; 1; 0]%nat))
              Hs (octalDigit_range v 3)) as [R3 X3].
  cbn [map String.string_of_list_ascii] in R3. rewrite R3. clear R3.
  destruct (replace_digit shift (octalDigit v 2)
              (String.string_of_list_ascii
                 (map (fun i => digitChar (octalDigit v i)) [1; 0]%nat))
              Hs (octalDigit_range v 2)) as [R2 X2].
  cbn [map String.string_of_list_ascii] in R2. rewrite R2. clear R2.
  destruct (replace_digit shift (octalDigit v 1)
              (String (digitChar (octalDigit v 0)) EmptyString)
              Hs (octalDigit_range v 1)) as [R1 X1].
  rewrite R1. clear R1.
  destruct (replace_digit shift (octalDigit v 0) EmptyString
              Hs (octalDigit_range v 0)) as [R0 X0].
  rewrite R0. clear R0.
  split; [reflexivity |].
  cbn [sixHex replaceOctal toUpperCase].
  rewrite X5, X4, X3, X2, X1, X0. reflexivity.
Qed.


(** ** Chunk builder *)

Lemma foldl_flat_map {A B C : Type} (f : A -> C -> A) (g : B -> list C)
    (l : list B) :
  forall a, foldl f a (flat_map g l) = foldl (fun a' b => foldl f a' (g b)) a l.
Proof.
  induction l as [| b l IH]; intros a; [done |].
  cbn [flat_map]. rewrite foldl_app. apply IH.
Qed.

Lemma foldl_map_arg {A B C : Type} (f : A -> C -> A) (g : B -> C) (l : list B) :
  forall a, foldl f a (map g l) = foldl (fun a' b => f a' (g b)) a l.
Proof. induction l as [| b l IH]; intros a; [done | apply IH]. Qed.

Lemma foldl_pointwise {A B : Type} (f g : A -> B -> A) (l : list B) :
  (forall a b, f a b = g a b) -> forall a, foldl f a l = foldl g a l.
Proof.
  intros Hfg. induction l as [| b l IH]; intros a; [done |].
  cbn [foldl]. rewrite Hfg. apply IH.
Qed.

Lemma calculateChunks_stream (cfg : config) (data : dataset) (pos : vec3)
    (d r : num) :
  calculateChunks cfg data pos d r
  = foldl (streamStep cfg pos d (sightDistance d r)) (∅, [])
          (pointStream cfg data).
Proof.
  unfold calculateChunks, pointStream. rewrite foldl_flat_map.
  apply foldl_pointwise. intros st family. unfold buildFamily.
  by rewrite foldl_map_arg.
Qed.

Section Builder.

Variables (cfg : config) (pos : vec3) (d sight : num).

Local Abbreviation step := (streamStep cfg pos d sight).
Local Abbreviation keyp := (fun fp : string * rawPoint => keyOf cfg d (snd fp)).

Lemma streamAt_snoc (k : vec3) (l : list (string * rawPoint)) fp :
  streamAt cfg d k (l ++ [fp])
  = streamAt cfg d k l ++ (if decide (keyp fp = k) then [fp] else []).
Proof.
  unfold streamAt. by rewrite filter_app.
Qed.

Lemma chunkOfPoints_snoc (ps : list (string * rawPoint)) fp :
  chunkOfPoints cfg (ps ++ [fp])
  = addPoint (fst fp) (storedPoint cfg fp) (chunkOfPoints cfg ps).
Proof.
  unfold chunkOfPoints, addPoint. cbn [points memberCounts outlierCount
    sphereMesh octMesh].
  rewrite map_app, foldl_app, filter_app, length_app. cbn [map foldl].
  f_equal. f_equal. rewrite filter_cons, filter_nil.
  unfold storedPoint, isOutlier, scalePoint.
  destruct (rawCoordinates (snd fp)) as [[x y] z]. cbn [meta].
  destruct (is_outlier (rawMeta (snd fp))); by destruct (decide _).
Qed.

Lemma buildStep_lookup (st : buildState) fp (k : vec3) :
  fst (step st fp) !! k
  = if decide (keyp fp = k)
    then Some (addPoint (fst fp) (storedPoint cfg fp)
                        (default emptyChunk (fst st !! k)))
    else fst st !! k.
Proof.
  destruct st as [m act]. unfold streamStep, buildStep.
  change (getChunkCentroid (coordinates (scalePoint (scale cfg) (snd fp))) d)
    with (keyp fp).
  change (scalePoint (scale cfg) (snd fp)) with (storedPoint cfg fp).
  destruct (decide (keyp fp = k)) as [<- | Hne];
    destruct (m !! keyp fp) as [c |] eqn:E; cbn [fst].
  - by rewrite lookup_alter_eq, E.
  - by rewrite lookup_alter_eq, lookup_insert_eq, E.
  - by rewrite lookup_alter_ne.
  - by rewrite lookup_alter_ne, lookup_insert_ne.
Qed.

Lemma buildStep_active (st : buildState) fp :
  snd (step st fp)
  = if decide (is_Some (fst st !! keyp fp)) then snd st
    else if inSight sight pos (keyp fp) then snd st ++ [keyp fp] else snd st.
Proof.
  destruct st as [m act]. unfold streamStep, buildStep.
  change (getChunkCentroid (coordinates (scalePoint (scale cfg) (snd fp))) d)
    with (keyp fp).
  cbn [fst snd].
  destruct (m !! keyp fp) as [c |] eqn:E; cbn [fst snd].
  - rewrite decide_True; [done | by eexists].
  - rewrite decide_False; [done |]. by intros [? ?].
Qed.

(** The map after a stream: each chunk is the record of the entries that
    fall into it. *)
Lemma build_lookup (l : list (string * rawPoint)) (k : vec3) :
  fst (foldl step (∅, []) l) !! k = chunkOfStream cfg d k l.
Proof.
  induction l as [| fp l IH] using rev_ind.
  - cbn. apply lookup_empty.
  - rewrite foldl_app. cbn [foldl]. rewrite buildStep_lookup, IH.
    unfold chunkOfStream. rewrite streamAt_snoc.
    destruct (decide (keyp fp = k)) as [Hk | Hk].
    + destruct (streamAt cfg d k l) as [| q ps] eqn:E.
      * cbn. f_equal. symmetry. apply (chunkOfPoints_snoc []).
      * cbn [default]. unfold id. rewrite <- chunkOfPoints_snoc.
        reflexivity.
    + by rewrite app_nil_r.
Qed.

Lemma chunkOfStream_is_Some (l : list (string * rawPoint)) (k : vec3) :
  is_Some (chunkOfStream cfg d k l) <-> exists fp, fp ∈ l /\ keyp fp = k.
Proof.
  unfold chunkOfStream.
  destruct (streamAt cfg d k l) as [| q ps] eqn:E.
  - split; [by intros [? ?] |]. intros (fp & Hin & Hk).
    assert (H : fp ∈ streamAt cfg d k l) by (apply list_elem_of_filter; done).
    rewrite E in H. by apply elem_of_nil in H.
  - split; [| by eexists]. intros _.
    assert (H : q ∈ streamAt cfg d k l) by (rewrite E; left).
    apply list_elem_of_filter in H as [Hk Hin]. by exists q.
Qed.

(** The active list after a stream. *)
Lemma build_active (l : list (string * rawPoint)) :
  NoDup (snd (foldl step (∅, []) l))
  /\ forall k, k ∈ snd (foldl step (∅, []) l)
               <-> (exists fp, fp ∈ l /\ keyp fp = k)
                   /\ inSight sight pos k = true.
Proof.
  induction l as [| fp l [IHnd IH]] using rev_ind.
  - cbn. split; [constructor |]. intros k. split.
    + intros H. by apply elem_of_nil in H.
    + intros [(fp & H & _) _]. by apply elem_of_nil in H.
  - rewrite foldl_app. cbn [foldl]. rewrite buildStep_active, build_lookup.
    set (act := snd (foldl step (∅, []) l)) in *.
    destruct (decide (is_Some (chunkOfStream cfg d (keyp fp) l))) as [Hs | Hs].
    + split; [done |]. intros k. rewrite IH. split.
      * intros [(q & Hq & Hk) Hin]. split; [| done].
        exists q. split; [| done]. apply elem_of_app. by left.
      * intros [(q & Hq & Hk) Hin]. split; [| done].
        apply elem_of_app in Hq as [Hq | Hq]; [by exists q |].
        apply list_elem_of_singleton in Hq as ->.
        apply chunkOfStream_is_Some. by rewrite <- Hk.
    + assert (Hnew : forall q, q ∈ l -> keyp q <> keyp fp).
      { intros q Hq Hk. apply Hs, chunkOfStream_is_Some. by exists q. }
      destruct (inSight sight pos (keyp fp)) eqn:Hin.
      * split.
        { apply NoDup_app. split; [done |]. split; [| apply NoDup_singleton].
          intros k Hk Hk'. apply list_elem_of_singleton in Hk' as ->.
          apply IH in Hk as [(q & Hq & Hqk) _]. by apply (Hnew q). }
        intros k. rewrite elem_of_app, IH, list_elem_of_singleton. split.
        -- intros [[(q & Hq & Hk) Hi] | ->].
           ++ split; [| done]. exists q. split; [| done].
              apply elem_of_app. by left.
           ++ split; [| done]. exists fp. split; [| done].
              apply elem_of_app. right. by apply list_elem_of_singleton.
        -- intros [(q & Hq & Hk) Hi].
           apply elem_of_app in Hq as [Hq | Hq].
           ++ left. split; [by exists q | done].
           ++ apply list_elem_of_singleton in Hq as ->. by right.
      * split; [done |]. intros k. rewrite IH. split.
        -- intros [(q & Hq & Hk) Hi]. split; [| done].
           exists q. split; [| done]. apply elem_of_app. by left.
        -- intros [(q & Hq & Hk) Hi]. split; [| done].
           apply elem_of_app in Hq as [Hq | Hq]; [by exists q |].
           apply list_elem_of_singleton in Hq as ->.
           rewrite Hk in Hin. congruence.
Qed.

End Builder.

(** *** Member counts *)


Lemma totalCount_incrCount (g : string) (counts : list (string * nat)) :
  totalCount (incrCount g counts) = S (totalCount counts).
Proof.
  induction counts as [| [h n] counts IH]; cbn [incrCount totalCount foldr snd].
  - done.
  - destruct (decide (g = h)); cbn [totalCount foldr snd]; [done |].
    fold (totalCount (incrCount g counts)). rewrite IH.
    fold (totalCount counts). lia.
Qed.


Lemma totalCount_families (ps : list (string * rawPoint)) :
  totalCount (foldl (fun counts fp => incrCount (fst fp) counts) [] ps)
  = length ps.
Proof.
  induction ps as [| fp ps IH] using rev_ind; [done |].
  rewrite foldl_app, length_app. cbn [foldl].
  rewrite totalCount_incrCount, IH. cbn. lia.
Qed.

Lemma outliers_stored (cfg : config) (ps : list (string * rawPoint)) :
  outliersOf (map (storedPoint cfg) ps)
  = map (storedPoint cfg) (filter (fun fp => isOutlier fp = true) ps).
Proof.
  unfold outliersOf. induction ps as [| fp ps IH]; [done |].
  cbn [map]. rewrite !filter_cons, IH.
  assert (E : is_outlier (meta (storedPoint cfg fp)) = isOutlier fp).
  { unfold storedPoint, scalePoint, isOutlier.
    by destruct (rawCoordinates (snd fp)) as [[x y] z]. }
  rewrite E. by destruct (decide (isOutlier fp = true)).
Qed.

Lemma chunkOfPoints_wf (cfg : config) (ps : list (string * rawPoint)) :
  chunkWf (chunkOfPoints cfg ps).
Proof.
  unfold chunkWf, chunkOfPoints.
  cbn [points memberCounts outlierCount]. split.
  - by rewrite totalCount_families, length_map.
  - by rewrite outliers_stored, length_map.
Qed.

(** *** The chunks partition the stream *)

Section Partition.

Variables (cfg : config) (d : num).

Local Abbreviation keyp := (fun fp : string * rawPoint => keyOf cfg d (snd fp)).



End Partition.

(** *** The result of [calculateChunks] *)

Lemma calculateChunks_lookup (cfg : config) (data : dataset) (pos : vec3)
    (d r : num) (k : vec3) :
  fst (calculateChunks cfg data pos d r) !! k
  = chunkOfStream cfg d k (pointStream cfg data).
Proof. rewrite calculateChunks_stream. apply build_lookup. Qed.

Lemma calculateChunks_shape (cfg : config) (data : dataset) (pos : vec3)
    (d r : num) (k : vec3) (c : chunk) :
  fst (calculateChunks cfg data pos d r) !! k = Some c ->
  c = chunkOfPoints cfg (streamAt cfg d k (pointStream cfg data)).
Proof.
  rewrite calculateChunks_lookup. unfold chunkOfStream.
  destruct (streamAt cfg d k (pointStream cfg data)); congruence.
Qed.


Lemma calculateChunks_wf (cfg : config) (data : dataset) (pos : vec3)
    (d r : num) (k : vec3) (c : chunk) :
  fst (calculateChunks cfg data pos d r) !! k = Some c ->
  chunkWf c /\ sphereMesh c = None /\ octMesh c = None.
Proof.
  intros Hc. rewrite (calculateChunks_shape _ _ _ _ _ _ _ Hc).
  split; [apply chunkOfPoints_wf | done].
Qed.

Lemma calculateChunks_inSight (cfg : config) (data : dataset) (pos : vec3)
    (d r : num) :
  NoDup (snd (calculateChunks cfg data pos d r))
  /\ forall key,
      key ∈ snd (calculateChunks cfg data pos d r)
      <-> is_Some (fst (calculateChunks cfg data pos d r) !! key)
          /\ inSight (sightDistance d r) pos key = true.
Proof.
  rewrite calculateChunks_stream.
  destruct (build_active cfg pos d (sightDistance d r) (pointStream cfg data))
    as [Hnd Hact].
  split; [exact Hnd |].
  intros key. by rewrite Hact, build_lookup, chunkOfStream_is_Some.
Qed.



(** ** Points whose coordinates do not resolve *)

Lemma trim_NaN (d : num) : trim d NaN = NaN.
Proof. reflexivity. Qed.






(** ** Geometry loader *)

(** *** Writing one instance *)

Lemma zeros_succ (k n : nat) : zeros (k * S n) = zeros k ++ zeros (k * n).
Proof.
  unfold zeros. rewrite <- replicate_add. f_equal. lia.
Qed.

Lemma fill_slot (dpre dpost cpre cpost : list num) (dIndex cIndex : nat)
    (diameter : num) (xyz : vec3) (color : color4) :
  dIndex = length dpre -> cIndex = length cpre ->
  fillThinInstanceBuffers (dpre ++ zeros 16 ++ dpost) dIndex
                          (cpre ++ zeros 4 ++ cpost) cIndex diameter xyz color
  = (dpre ++ transformSlot diameter xyz ++ dpost,
     cpre ++ colorSlot color ++ cpost).
Proof.
  intros -> ->. unfold fillThinInstanceBuffers. destruct xyz as [[x y] z].
  f_equal.
  - rewrite !insert_app_r_alt by lia.
    replace (length dpre - length dpre)%nat with 0%nat by lia.
    replace (length dpre + 5 - length dpre)%nat with 5%nat by lia.
    replace (length dpre + 10 - length dpre)%nat with 10%nat by lia.
    replace (length dpre + 12 - length dpre)%nat with 12%nat by lia.
    replace (length dpre + 13 - length dpre)%nat with 13%nat by lia.
    replace (length dpre + 14 - length dpre)%nat with 14%nat by lia.
    replace (length dpre + 15 - length dpre)%nat with 15%nat by lia.
    reflexivity.
  - rewrite !insert_app_r_alt by lia.
    replace (length cpre - length cpre)%nat with 0%nat by lia.
    replace (length cpre + 1 - length cpre)%nat with 1%nat by lia.
    replace (length cpre + 2 - length cpre)%nat with 2%nat by lia.
    replace (length cpre + 3 - length cpre)%nat with 3%nat by lia.
    reflexivity.
Qed.

(** *** Sizes *)

Lemma length_transformSlot (diameter : num) (xyz : vec3) :
  length (transformSlot diameter xyz) = 16%nat.
Proof. by destruct xyz as [[x y] z]. Qed.

Lemma length_concat_blocks {A B : Type} (f : A -> list B) (k : nat) (l : list A) :
  (forall a, length (f a) = k) -> length (concat (map f l)) = (k * length l)%nat.
Proof.
  intros Hf. induction l as [| a l IH]; cbn [map concat length]; [lia |].
  rewrite length_app, Hf, IH. lia.
Qed.

Lemma length_sphereMatrix (cfg : config) (l : list (string * point)) :
  length (sphereMatrix cfg l) = (16 * length (normalTagged l))%nat.
Proof.
  unfold sphereMatrix. apply length_concat_blocks.
  intros tp. apply length_transformSlot.
Qed.

Lemma length_octMatrix (cfg : config) (l : list (string * point)) :
  length (octMatrix cfg l) = (16 * length (outlierTagged l))%nat.
Proof.
  unfold octMatrix. apply length_concat_blocks.
  intros tp. apply length_transformSlot.
Qed.

Lemma tagged_split (l : list (string * point)) :
  (length (normalTagged l) + length (outlierTagged l))%nat = length l.
Proof.
  unfold normalTagged, outlierTagged.
  induction l as [| tp l IH]; [done |].
  rewrite !filter_cons.
  destruct (is_outlier (meta (snd tp))) eqn:E.
  - rewrite decide_False by done. rewrite decide_True by done.
    cbn [length]. lia.
  - rewrite decide_True by done. rewrite decide_False by done.
    cbn [length]. lia.
Qed.

Lemma normalTagged_snoc (l : list (string * point)) (tp : string * point) :
  normalTagged (l ++ [tp])
  = normalTagged l ++ (if is_outlier (meta (snd tp)) then [] else [tp]).
Proof.
  unfold normalTagged. rewrite filter_app, filter_cons, filter_nil.
  by destruct (is_outlier (meta (snd tp))).
Qed.

Lemma outlierTagged_snoc (l : list (string * point)) (tp : string * point) :
  outlierTagged (l ++ [tp])
  = outlierTagged l ++ (if is_outlier (meta (snd tp)) then [tp] else []).
Proof.
  unfold outlierTagged. rewrite filter_app, filter_cons, filter_nil.
  by destruct (is_outlier (meta (snd tp))).
Qed.

Lemma normalTagged_app_le (l1 l2 : list (string * point)) :
  (length (normalTagged l1) <= length (normalTagged (l1 ++ l2)))%nat.
Proof. unfold normalTagged. rewrite filter_app, length_app. lia. Qed.

Lemma outlierTagged_app_le (l1 l2 : list (string * point)) :
  (length (outlierTagged l1) <= length (outlierTagged (l1 ++ l2)))%nat.
Proof. unfold outlierTagged. rewrite filter_app, length_app. lia. Qed.

(** *** Loops and zips *)

Lemma foldlM_map {S A B : Type} (f : S -> B -> outcome S) (g : A -> B)
    (l : list A) :
  forall s, foldlM f s (map g l) = foldlM (fun s' a => f s' (g a)) s l.
Proof.
  induction l as [| a l IH]; intros s; [done |].
  cbn [map foldlM]. destruct (f s (g a)); cbn [obind]; [apply IH | done | done].
Qed.

Lemma foldlM_seq_shift {S : Type} (f : S -> nat -> outcome S) (a cnt : nat) (s : S) :
  foldlM (fun s' i => f s' (a + i)%nat) s (seq 0 cnt) = foldlM f s (seq a cnt).
Proof.
  rewrite <- (foldlM_map f (Nat.add a)).
  rewrite (fmap_add_seq a 0 cnt : map (Nat.add a) (seq 0 cnt) = _).
  by rewrite Nat.add_0_r.
Qed.

Lemma zip_replicate {A B : Type} (a : A) (l : list B) :
  zip (replicate (length l) a) l = map (pair a) l.
Proof. induction l as [| b l IH]; [done |]. cbn. by rewrite IH. Qed.

Lemma zip_replicate_app {A B : Type} (a : A) (cnt : nat) (l1 : list A)
    (l : list B) :
  (cnt <= length l)%nat ->
  zip (replicate cnt a ++ l1) l
  = map (pair a) (take cnt l) ++ zip l1 (drop cnt l).
Proof.
  intros Hle. rewrite <- (take_drop cnt l) at 1.
  rewrite zip_with_app by (rewrite length_replicate, length_take; lia).
  f_equal. rewrite <- (zip_replicate a (take cnt l)).
  rewrite length_take. do 2 f_equal. lia.
Qed.

(** *** The fill loops *)

Section Fill.

Variable FromHexString : string -> color4.
Variables (cfg : config) (n m : nat).

Local Abbreviation after := (fillAfter FromHexString cfg n m).

Lemma length_sphereColors (l : list (string * point)) :
  length (sphereColors FromHexString cfg l) = (4 * length (normalTagged l))%nat.
Proof. unfold sphereColors. by apply length_concat_blocks. Qed.

Lemma length_octColors (l : list (string * point)) :
  length (octColors FromHexString cfg l) = (4 * length (outlierTagged l))%nat.
Proof. unfold octColors. by apply length_concat_blocks. Qed.

Lemma sphereMatrix_snoc (l : list (string * point)) (tp : string * point) :
  sphereMatrix cfg (l ++ [tp])
  = sphereMatrix cfg l
    ++ (if is_outlier (meta (snd tp)) then []
        else transformSlot (normalDiameter cfg (fst tp)) (coordinates (snd tp))).
Proof.
  unfold sphereMatrix. rewrite normalTagged_snoc, map_app, concat_app.
  destruct (is_outlier (meta (snd tp))); cbn [map concat]; by rewrite ?app_nil_r.
Qed.

Lemma sphereColors_snoc (l : list (string * point)) (tp : string * point) :
  sphereColors FromHexString cfg (l ++ [tp])
  = sphereColors FromHexString cfg l
    ++ (if is_outlier (meta (snd tp)) then []
        else colorSlot (familyColorOf FromHexString cfg (fst tp))).
Proof.
  unfold sphereColors. rewrite normalTagged_snoc, map_app, concat_app.
  destruct (is_outlier (meta (snd tp))); cbn [map concat]; by rewrite ?app_nil_r.
Qed.

Lemma octMatrix_snoc (l : list (string * point)) (tp : string * point) :
  octMatrix cfg (l ++ [tp])
  = octMatrix cfg l
    ++ (if is_outlier (meta (snd tp))
        then transformSlot (outlierDiameter cfg (fst tp)) (coordinates (snd tp))
        else []).
Proof.
  unfold octMatrix. rewrite outlierTagged_snoc, map_app, concat_app.
  destruct (is_outlier (meta (snd tp))); cbn [map concat]; by rewrite ?app_nil_r.
Qed.

Lemma octColors_snoc (l : list (string * point)) (tp : string * point) :
  octColors FromHexString cfg (l ++ [tp])
  = octColors FromHexString cfg l
    ++ (if is_outlier (meta (snd tp))
        then colorSlot (outlierColorOf FromHexString cfg (fst tp))
        else []).
Proof.
  unfold octColors. rewrite outlierTagged_snoc, map_app, concat_app.
  destruct (is_outlier (meta (snd tp))); cbn [map concat]; by rewrite ?app_nil_r.
Qed.

(** One turn of the loop over [i] takes the state after [done] to the
    state after [done] and the point at [index]. *)
Lemma fillPoint_next (pts : list point) (done : list (string * point))
    (family : string) (p : point) (index : nat) :
  pts !! index = Some p ->
  index = length done ->
  (length (normalTagged (done ++ [(family, p)])) <= n)%nat ->
  (length (outlierTagged (done ++ [(family, p)])) <= m)%nat ->
  fillPoint FromHexString cfg family pts (after done) index
  = Done (after (done ++ [(family, p)])).
Proof.
  intros Hp -> Hn Hm. unfold fillPoint. rewrite Hp.
  unfold fillAfter.
  cbn [sphereDimensionsBuffer sphereColorBuffer octDimensionsBuffer
       octColorBuffer outlierIndex].
  rewrite sphereMatrix_snoc, sphereColors_snoc, octMatrix_snoc, octColors_snoc.
  rewrite normalTagged_snoc, length_app in Hn.
  rewrite outlierTagged_snoc, length_app in Hm.
  rewrite normalTagged_snoc, outlierTagged_snoc, !length_app. cbn [snd fst] in *.
  pose proof (tagged_split done) as Hsplit.
  fold (normalDiameter cfg family) (outlierDiameter cfg family).
  destruct (is_outlier (meta p)) eqn:E; cbn [length] in Hn, Hm |- *.
  - rewrite !app_nil_r, !Nat.add_0_r.
    replace (m - length (outlierTagged done))%nat
      with (S (m - (length (outlierTagged done) + 1)))%nat by lia.
    rewrite !zeros_succ.
    rewrite fill_slot;
      [| rewrite length_octMatrix; lia | rewrite length_octColors; lia].
    rewrite <- !app_assoc. do 2 f_equal. lia.
  - rewrite !app_nil_r, !Nat.add_0_r.
    replace (n - length (normalTagged done))%nat
      with (S (n - (length (normalTagged done) + 1)))%nat by lia.
    rewrite !zeros_succ.
    rewrite fill_slot;
      [| rewrite length_sphereMatrix; lia | rewrite length_sphereColors; lia].
    rewrite <- !app_assoc. reflexivity.
Qed.

Lemma fill_inner (pts : list point) (family : string) (cnt : nat) :
  forall (a : nat) (done : list (string * point)),
    a = length done ->
    (a + cnt <= length pts)%nat ->
    (length (normalTagged
               (done ++ map (pair family) (take cnt (drop a pts)))) <= n)%nat ->
    (length (outlierTagged
               (done ++ map (pair family) (take cnt (drop a pts)))) <= m)%nat ->
    foldlM (fillPoint FromHexString cfg family pts) (after done) (seq a cnt)
    = Done (after (done ++ map (pair family) (take cnt (drop a pts)))).
Proof.
  induction cnt as [| cnt IH]; intros a done Ha Hlen Hn Hm.
  - cbn. by rewrite app_nil_r.
  - destruct (lookup_lt_is_Some_2 pts a) as [p Hp]; [lia |].
    rewrite (drop_S _ _ _ Hp) in Hn, Hm |- *.
    cbn [take map seq foldlM] in Hn, Hm |- *.
    rewrite (cons_middle (family, p)), app_assoc in Hn, Hm |- *.
    rewrite (fillPoint_next pts done family p a Hp Ha).
    + cbn [obind]. apply IH; [| lia | done | done].
      rewrite length_app. cbn. lia.
    + etrans; [apply normalTagged_app_le | exact Hn].
    + etrans; [apply outlierTagged_app_le | exact Hm].
Qed.

Lemma fill_outer (pts : list point) (entries : list (string * nat)) :
  forall (fi : nat) (done : list (string * point)),
    fi = length done ->
    (fi + totalCount entries <= length pts)%nat ->
    (length (normalTagged
               (done ++ zip (expandCounts entries) (drop fi pts))) <= n)%nat ->
    (length (outlierTagged
               (done ++ zip (expandCounts entries) (drop fi pts))) <= m)%nat ->
    foldlM (fillFamily FromHexString cfg pts) (after done, fi) entries
    = Done (after (done ++ zip (expandCounts entries) (drop fi pts)),
            (fi + totalCount entries)%nat).
Proof.
  induction entries as [| [family cnt] entries IH]; intros fi done Hfi Hlen Hn Hm.
  - cbn. by rewrite app_nil_r, Nat.add_0_r.
  - cbn [totalCount foldr snd] in Hlen. fold (totalCount entries) in Hlen.
    assert (Hzip : zip (expandCounts ((family, cnt) :: entries)) (drop fi pts)
                   = map (pair family) (take cnt (drop fi pts))
                     ++ zip (expandCounts entries) (drop (fi + cnt) pts)).
    { cbn [expandCounts flat_map fst snd]. fold (expandCounts entries).
      rewrite zip_replicate_app by (rewrite length_drop; lia).
      by rewrite drop_drop. }
    rewrite Hzip, app_assoc in Hn, Hm |- *.
    cbn [foldlM fillFamily].
    rewrite foldlM_seq_shift.
    rewrite (fill_inner pts family cnt fi done Hfi); [| lia | |].
    + cbn [obind].
      rewrite (IH (fi + cnt)%nat); [| | lia | done | done].
      * cbn [totalCount foldr snd]. fold (totalCount entries).
        do 2 f_equal. lia.
      * rewrite length_app, length_map, length_take, length_drop. lia.
    + etrans; [apply normalTagged_app_le | exact Hn].
    + etrans; [apply outlierTagged_app_le | exact Hm].
Qed.

End Fill.

(** *** Tagged points of a well-formed chunk *)

Lemma length_expandCounts (counts : list (string * nat)) :
  length (expandCounts counts) = totalCount counts.
Proof.
  induction counts as [| [f k] counts IH]; [done |].
  cbn [expandCounts flat_map totalCount foldr fst snd].
  rewrite length_app, length_replicate. fold (expandCounts counts).
  fold (totalCount counts). by rewrite IH.
Qed.

Lemma length_taggedPoints (c : chunk) :
  chunkWf c -> length (taggedPoints c) = length (points c).
Proof.
  intros [Htotal _]. unfold taggedPoints.
  rewrite length_zip_with, length_expandCounts, Htotal. lia.
Qed.

Lemma snd_taggedPoints (c : chunk) :
  chunkWf c -> map snd (taggedPoints c) = points c.
Proof.
  intros [Htotal _]. unfold taggedPoints. apply snd_zip.
  rewrite length_expandCounts, Htotal. lia.
Qed.

Lemma outlierTagged_snd (l : list (string * point)) :
  map snd (outlierTagged l) = outliersOf (map snd l).
Proof.
  unfold outlierTagged, outliersOf. induction l as [| tp l IH]; [done |].
  cbn [map]. rewrite !filter_cons.
  destruct (decide (is_outlier (meta (snd tp)) = true)); cbn [map]; by rewrite IH.
Qed.

Lemma outlierTagged_count (c : chunk) :
  chunkWf c -> length (outlierTagged (taggedPoints c)) = outlierCount c.
Proof.
  intros Hwf. rewrite <- (length_map snd), outlierTagged_snd.
  rewrite snd_taggedPoints by done. symmetry. apply Hwf.
Qed.

Lemma normalTagged_count (c : chunk) :
  chunkWf c ->
  length (normalTagged (taggedPoints c))
  = (length (points c) - outlierCount c)%nat.
Proof.
  intros Hwf. pose proof (tagged_split (taggedPoints c)) as Hs.
  rewrite outlierTagged_count, length_taggedPoints in Hs by done. lia.
Qed.

(** *** Activation *)

Lemma length_zeros (k : nat) : length (zeros k) = k.
Proof. apply length_replicate. Qed.

Section Activate.

Variable FromHexString : string -> color4.
Variable cfg : config.

Lemma fill_chunk (c : chunk) :
  chunkWf c ->
  let tagged := taggedPoints c in
  let n := length (normalTagged tagged) in
  let m := length (outlierTagged tagged) in
  foldlM (fillFamily FromHexString cfg (points c))
         (FillState (zeros (16 * n)) (zeros (4 * n))
                    (zeros (16 * m)) (zeros (4 * m)) 0, 0%nat)
         (memberCounts c)
  = Done (FillState (sphereMatrix cfg tagged)
                    (sphereColors FromHexString cfg tagged)
                    (octMatrix cfg tagged)
                    (octColors FromHexString cfg tagged) m,
          length (points c)).
Proof.
  intros Hwf tagged n m.
  pose proof (fill_outer FromHexString cfg n m (points c) (memberCounts c)
                         0%nat [] eq_refl) as H.
  rewrite drop_0, app_nil_l in H. fold (taggedPoints c) in H. fold tagged in H.
  unfold fillAfter in H. cbn [normalTagged outlierTagged sphereMatrix
    sphereColors octMatrix octColors filter list_filter map concat length
    app] in H.
  rewrite !Nat.sub_0_r, !Nat.sub_diag, !Nat.mul_0_r in H.
  cbn [zeros replicate] in H. rewrite !app_nil_r in H.
  destruct Hwf as [Htotal _]. rewrite Htotal in H.
  apply H; lia.
Qed.

Lemma activate_installed (sc : scene) (c : chunk) :
  chunkWf c ->
  activate FromHexString cfg sc c = Done (installed FromHexString cfg sc c).
Proof.
  intros Hwf. unfold activate, installed.
  pose proof (normalTagged_count c Hwf) as Hn.
  pose proof (outlierTagged_count c Hwf) as Hm.
  pose proof (tagged_split (taggedPoints c)) as Hs.
  rewrite length_taggedPoints in Hs by done.
  destruct (length (points c) <? outlierCount c)%nat eqn:E.
  { apply Nat.ltb_lt in E. lia. }
  rewrite <- Hn, <- Hm. unfold createMesh.
  rewrite length_zeros.
  replace (0 <? 4 * length (normalTagged (taggedPoints c)))%nat
    with (0 <? length (normalTagged (taggedPoints c)))%nat
    by (destruct (length (normalTagged (taggedPoints c))); done).
  destruct (0 <? length (normalTagged (taggedPoints c)))%nat;
    destruct (0 <? length (outlierTagged (taggedPoints c)))%nat;
    rewrite (fill_chunk c Hwf); reflexivity.
Qed.

End Activate.

(** *** The mesh store *)

Lemma dispose_length (h : option handle) (sc : scene) :
  length (dispose h sc) = length sc.
Proof. destruct h; [apply length_alter | done]. Qed.

Lemma setBuffers_length (h : option handle) (mb cb : list num) (sc : scene) :
  length (setBuffers h mb cb sc) = length sc.
Proof. destruct h; unfold setBuffers; [by rewrite !length_alter | done]. Qed.

Lemma dispose_lookup (h : option handle) (sc : scene) (i : nat) :
  dispose h sc !! i
  = (if decide (h = Some i) then disposeMesh else id) <$> sc !! i.
Proof.
  destruct h as [j |]; unfold dispose.
  - destruct (decide (Some j = Some i)) as [[= ->] | Hne].
    + apply list_lookup_alter_eq.
    + rewrite list_lookup_alter_ne by congruence. by destruct (sc !! i).
  - rewrite decide_False by done. by destruct (sc !! i).
Qed.

Lemma setBuffers_lookup (h : option handle) (mb cb : list num) (sc : scene)
    (i : nat) :
  setBuffers h mb cb sc !! i
  = (if decide (h = Some i) then fun x => setColor cb (setMatrix mb x) else id)
      <$> sc !! i.
Proof.
  destruct h as [j |]; unfold setBuffers.
  - destruct (decide (Some j = Some i)) as [[= ->] | Hne].
    + rewrite !list_lookup_alter_eq. by destruct (sc !! i).
    + rewrite !list_lookup_alter_ne by congruence. by destruct (sc !! i).
  - rewrite decide_False by done. by destruct (sc !! i).
Qed.

Lemma dispose_None (sc : scene) : dispose None sc = sc.
Proof. reflexivity. Qed.

(** *** What [loadChunk] leaves alone *)

Section Frame.

Variable FromHexString : string -> color4.
Variable cfg : config.

Lemma activate_cells (sc sc' : scene) (c c' : chunk) :
  activate FromHexString cfg sc c = Done (sc', c') ->
  points c' = points c /\ memberCounts c' = memberCounts c
  /\ outlierCount c' = outlierCount c.
Proof.
  unfold activate.
  destruct (length (points c) <? outlierCount c)%nat; [discriminate |].
  unfold createMesh.
  destruct (0 <? _)%nat; destruct (0 <? _)%nat;
    destruct (foldlM _ _ _) as [filled | |]; cbn [obind];
    intros [= <- <-]; done.
Qed.

Lemma deactivate_cells (sc : scene) (c : chunk) :
  points (snd (deactivate sc c)) = points c
  /\ memberCounts (snd (deactivate sc c)) = memberCounts c
  /\ outlierCount (snd (deactivate sc c)) = outlierCount c
  /\ sphereMesh (snd (deactivate sc c)) = None
  /\ octMesh (snd (deactivate sc c)) = None.
Proof. done. Qed.

Lemma loadChunk_cells (sc sc' : scene) (c c' : chunk) (state : bool) :
  loadChunk FromHexString cfg sc c state = Done (sc', c') ->
  points c' = points c /\ memberCounts c' = memberCounts c
  /\ outlierCount c' = outlierCount c.
Proof.
  destruct state; cbn [loadChunk].
  - apply activate_cells.
  - intros [= <- <-]. pose proof (deactivate_cells sc c). tauto.
Qed.

Lemma loadChunk_wf (sc sc' : scene) (c c' : chunk) (state : bool) :
  loadChunk FromHexString cfg sc c state = Done (sc', c') ->
  chunkWf c -> chunkWf c'.
Proof.
  intros H [Ht Ho]. apply loadChunk_cells in H as (Hp & Hm & Hc).
  unfold chunkWf. by rewrite Hp, Hm, Hc.
Qed.

(** C10: whichever way the state flag points, a call of [loadChunk] that
    returns leaves the point sequence, the member counts and the outlier
    count of the chunk record as they were; only the two mesh cells can
    differ. *)
Theorem loadChunk_frame :
  forall (sc sc' : scene) (c c' : chunk) (state : bool),
    loadChunk FromHexString cfg sc c state = Done (sc', c') ->
    points c' = points c
    /\ memberCounts c' = memberCounts c
    /\ outlierCount c' = outlierCount c
    /\ c' = Chunk (points c) (memberCounts c) (outlierCount c)
                  (sphereMesh c') (octMesh c').
Proof.
  intros sc sc' c c' state H.
  destruct (loadChunk_cells sc sc' c c' state H) as (Hp & Hm & Ho).
  repeat split; try done.
  rewrite <- Hp, <- Hm, <- Ho. by destruct c'.
Qed.

End Frame.

(** *** The scene after an activation *)

Section Installed.

Variable FromHexString : string -> color4.
Variable cfg : config.

Local Abbreviation inst := (installed FromHexString cfg).
Local Abbreviation normals c := (length (normalTagged (taggedPoints c))).
Local Abbreviation outliers c := (length (outlierTagged (taggedPoints c))).

Lemma installed_cells (sc : scene) (c : chunk) :
  points (snd (inst sc c)) = points c
  /\ memberCounts (snd (inst sc c)) = memberCounts c
  /\ outlierCount (snd (inst sc c)) = outlierCount c.
Proof.
  unfold installed.
  destruct (0 <? normals c)%nat; destruct (0 <? outliers c)%nat; done.
Qed.

Lemma installed_tagged (sc : scene) (c : chunk) :
  taggedPoints (snd (inst sc c)) = taggedPoints c.
Proof.
  destruct (installed_cells sc c) as (Hp & Hm & _).
  unfold taggedPoints. by rewrite Hp, Hm.
Qed.

Lemma installed_length (sc : scene) (c : chunk) :
  length (fst (inst sc c))
  = (length sc + (if (0 <? normals c)%nat then 1 else 0)
     + (if (0 <? outliers c)%nat then 1 else 0))%nat.
Proof.
  unfold installed.
  destruct (0 <? normals c)%nat; destruct (0 <? outliers c)%nat; cbn [fst];
    rewrite ?setBuffers_length, ?length_app, ?dispose_length; cbn [length]; lia.
Qed.

Lemma installed_sphere_kept (sc : scene) (c : chunk) :
  normals c = 0%nat -> sphereMesh (snd (inst sc c)) = sphereMesh c.
Proof.
  intros Hn. unfold installed. rewrite Hn.
  destruct (0 <? outliers c)%nat; reflexivity.
Qed.

Lemma installed_oct_kept (sc : scene) (c : chunk) :
  outliers c = 0%nat -> octMesh (snd (inst sc c)) = octMesh c.
Proof.
  intros Hm. unfold installed. rewrite Hm.
  destruct (0 <? normals c)%nat; reflexivity.
Qed.

Lemma installed_sphere (sc : scene) (c : chunk) :
  handlesValid sc c -> (0 < normals c)%nat ->
  sphereMesh (snd (inst sc c)) = Some (length sc)
  /\ fst (inst sc c) !! length sc = Some (newSphere FromHexString cfg c).
Proof.
  intros [_ Hoct] Hn. apply Nat.ltb_lt in Hn. unfold installed. rewrite Hn.
  destruct (0 <? outliers c)%nat eqn:Em; cbn [fst snd sphereMesh];
    rewrite ?dispose_length; (split; [done |]);
    rewrite !setBuffers_lookup.
  - rewrite decide_False
      by (rewrite length_app, ?dispose_length; cbn [length]; intros [=]; lia).
    rewrite decide_True by done.
    rewrite <- app_assoc, lookup_app_r by (rewrite ?dispose_length; lia).
    rewrite ?dispose_length, Nat.sub_diag. reflexivity.
  - rewrite decide_False
      by (intros Hh; specialize (Hoct _ Hh); lia).
    rewrite decide_True by done.
    rewrite lookup_app_r by (rewrite ?dispose_length; lia).
    rewrite ?dispose_length, Nat.sub_diag. reflexivity.
Qed.

Lemma installed_oct (sc : scene) (c : chunk) :
  handlesValid sc c -> (0 < outliers c)%nat ->
  let h := (length sc + (if (0 <? normals c)%nat then 1 else 0))%nat in
  octMesh (snd (inst sc c)) = Some h
  /\ fst (inst sc c) !! h = Some (newOct FromHexString cfg c).
Proof.
  intros [Hsph _] Hm. apply Nat.ltb_lt in Hm. unfold installed. rewrite Hm.
  destruct (0 <? normals c)%nat eqn:En; cbn [fst snd octMesh];
    rewrite ?length_app, ?dispose_length; cbn [length];
    (split; [f_equal; lia |]); rewrite !setBuffers_lookup.
  - rewrite decide_True by (f_equal; rewrite length_app, ?dispose_length; cbn; lia).
    rewrite decide_False by (rewrite ?dispose_length; intros [=]; lia).
    rewrite <- app_assoc, lookup_app_r by (rewrite ?dispose_length; lia).
    rewrite ?dispose_length.
    replace (length sc + 1 - length sc)%nat with 1%nat by lia. reflexivity.
  - rewrite decide_True by (f_equal; rewrite ?dispose_length; lia).
    rewrite decide_False
      by (intros Hh; specialize (Hsph _ Hh); lia).
    rewrite lookup_app_r by (rewrite ?dispose_length; lia).
    rewrite ?dispose_length.
    replace (length sc + 0 - length sc)%nat with 0%nat by lia. reflexivity.
Qed.

(** A mesh that was in the scene before: disposed if the chunk held it,
    and given the buffers of a category that is empty and whose cell held
    it. *)
Lemma installed_old (sc : scene) (c : chunk) (h : nat) :
  (h < length sc)%nat ->
  fst (inst sc c) !! h
  = (fun x =>
       (if decide (octMesh (snd (inst sc c)) = Some h)
        then fun y => setColor (octColors FromHexString cfg (taggedPoints c))
                               (setMatrix (octMatrix cfg (taggedPoints c)) y)
        else id)
         ((if decide (sphereMesh (snd (inst sc c)) = Some h)
           then fun y => setColor (sphereColors FromHexString cfg (taggedPoints c))
                                  (setMatrix (sphereMatrix cfg (taggedPoints c)) y)
           else id)
            ((if decide (octMesh c = Some h) then disposeMesh else id)
               ((if decide (sphereMesh c = Some h) then disposeMesh else id) x))))
      <$> sc !! h.
Proof.
  intros Hh. unfold installed.
  destruct (0 <? normals c)%nat; destruct (0 <? outliers c)%nat;
    cbn [fst snd sphereMesh octMesh];
    rewrite !setBuffers_lookup, <- ?app_assoc,
      ?lookup_app_l, !dispose_lookup by (rewrite ?dispose_length; lia);
    destruct (sc !! h); reflexivity.
Qed.

End Installed.

(** *** Buffers of an activated chunk *)


Section LoadChunk.

Variable FromHexString : string -> color4.
Variable cfg : config.

Lemma loadChunk_installed (sc : scene) (c : chunk) :
  chunkWf c ->
  loadChunk FromHexString cfg sc c true
  = Done (installed FromHexString cfg sc c).
Proof. intros Hwf. cbn [loadChunk]. by apply activate_installed. Qed.

Lemma installed_valid (sc : scene) (c : chunk) :
  handlesValid sc c ->
  handlesValid (fst (installed FromHexString cfg sc c))
               (snd (installed FromHexString cfg sc c)).
Proof.
  intros Hv. pose proof (installed_length FromHexString cfg sc c) as Hlen.
  split; intros h Hh.
  - destruct (Nat.eq_dec (length (normalTagged (taggedPoints c))) 0%nat) as [E | E].
    + rewrite installed_sphere_kept in Hh by done.
      apply Hv in Hh. lia.
    + destruct (installed_sphere FromHexString cfg sc c Hv) as [Hs _]; [lia |].
      rewrite Hs in Hh. injection Hh as <-.
      destruct (length (normalTagged (taggedPoints c))); [done |].
      destruct (0 <? length (outlierTagged (taggedPoints c)))%nat;
        cbn in Hlen; lia.
  - destruct (Nat.eq_dec (length (outlierTagged (taggedPoints c))) 0%nat) as [E | E].
    + rewrite installed_oct_kept in Hh by done.
      apply Hv in Hh. lia.
    + destruct (installed_oct FromHexString cfg sc c Hv) as [Hs _]; [lia |].
      rewrite Hs in Hh. injection Hh as <-.
      destruct (length (outlierTagged (taggedPoints c))); [done |].
      destruct (0 <? length (normalTagged (taggedPoints c)))%nat;
        cbn in Hlen; lia.
Qed.


End LoadChunk.

(** *** Activating and deactivating twice *)

Section Idempotence.

Variable FromHexString : string -> color4.
Variable cfg : config.

Local Abbreviation inst := (installed FromHexString cfg).

(** The handles of the chunk after one and after two activations. *)
Lemma installed_handles (sc : scene) (c : chunk) :
  handlesValid sc c ->
  let n := length (normalTagged (taggedPoints c)) in
  let m := length (outlierTagged (taggedPoints c)) in
  sphereMesh (snd (inst sc c))
  = (if (0 <? n)%nat then Some (length sc) else sphereMesh c)
  /\ octMesh (snd (inst sc c))
     = (if (0 <? m)%nat
        then Some (length sc + (if (0 <? n)%nat then 1 else 0))%nat
        else octMesh c).
Proof.
  intros Hv n m. split.
  - destruct (0 <? n)%nat eqn:E.
    + apply Nat.ltb_lt in E. by apply installed_sphere.
    + apply Nat.ltb_ge in E. apply installed_sphere_kept. unfold n in E. lia.
  - destruct (0 <? m)%nat eqn:E.
    + apply Nat.ltb_lt in E.
      by destruct (installed_oct FromHexString cfg sc c Hv E).
    + apply Nat.ltb_ge in E. apply installed_oct_kept. unfold m in E. lia.
Qed.

(** A mesh the chunk still holds after an activation is not changed by a
    second one. *)
Lemma reinstalled_old (sc : scene) (c : chunk) (h : nat) :
  handlesValid sc c ->
  (h < length sc)%nat ->
  sphereMesh (snd (inst sc c)) = Some h \/ octMesh (snd (inst sc c)) = Some h ->
  fst (inst (fst (inst sc c)) (snd (inst sc c))) !! h = fst (inst sc c) !! h.
Proof.
  intros Hv Hh Hheld.
  pose proof (installed_valid FromHexString cfg sc c Hv) as Hv1.
  pose proof (installed_length FromHexString cfg sc c) as Hlen.
  destruct (installed_handles sc c Hv) as [Hs1 Ho1].
  destruct (installed_handles _ _ Hv1) as [Hs2 Ho2].
  rewrite installed_tagged in Hs2, Ho2.
  rewrite (installed_old FromHexString cfg (fst (inst sc c))) by lia.
  rewrite installed_tagged.
  rewrite (installed_old FromHexString cfg sc c h Hh).
  rewrite Hs2, Ho2. rewrite Hs1, Ho1 in Hheld |- *.
  destruct (0 <? length (normalTagged (taggedPoints c)))%nat;
    destruct (0 <? length (outlierTagged (taggedPoints c)))%nat;
    repeat case_decide; simplify_eq; try lia;
    try (destruct Hheld; simplify_eq; lia);
    destruct (sc !! h) as [[] |]; try reflexivity;
    destruct Hheld; congruence.
Qed.

Lemma reinstalled_view (sc : scene) (c : chunk) :
  handlesValid sc c ->
  chunkView (fst (inst (fst (inst sc c)) (snd (inst sc c))))
            (snd (inst (fst (inst sc c)) (snd (inst sc c))))
  = chunkView (fst (inst sc c)) (snd (inst sc c)).
Proof.
  intros Hv.
  pose proof (installed_valid FromHexString cfg sc c Hv) as Hv1.
  destruct (installed_cells FromHexString cfg (fst (inst sc c)) (snd (inst sc c)))
    as (Hp & Hm & Ho).
  unfold chunkView. rewrite Hp, Hm, Ho.
  assert (Hsphere :
            meshOf (fst (inst (fst (inst sc c)) (snd (inst sc c))))
                   (sphereMesh (snd (inst (fst (inst sc c)) (snd (inst sc c)))))
            = meshOf (fst (inst sc c)) (sphereMesh (snd (inst sc c)))).
  { destruct (Nat.eq_dec (length (normalTagged (taggedPoints c))) 0%nat)
      as [E | E].
    - rewrite installed_sphere_kept by (by rewrite installed_tagged).
      destruct (sphereMesh (snd (inst sc c))) as [h |] eqn:Eh; [| done].
      cbn [meshOf]. apply reinstalled_old; [done | | by left].
      rewrite installed_sphere_kept in Eh by done. by apply (proj1 Hv).
    - destruct (installed_sphere FromHexString cfg sc c Hv) as [H1 H2]; [lia |].
      destruct (installed_sphere FromHexString cfg _ _ Hv1) as [H3 H4];
        [rewrite installed_tagged; lia |].
      rewrite H1, H3. cbn [meshOf]. rewrite H2, H4.
      unfold newSphere. by rewrite installed_tagged. }
  assert (Hoct :
            meshOf (fst (inst (fst (inst sc c)) (snd (inst sc c))))
                   (octMesh (snd (inst (fst (inst sc c)) (snd (inst sc c)))))
            = meshOf (fst (inst sc c)) (octMesh (snd (inst sc c)))).
  { destruct (Nat.eq_dec (length (outlierTagged (taggedPoints c))) 0%nat)
      as [E | E].
    - rewrite installed_oct_kept by (by rewrite installed_tagged).
      destruct (octMesh (snd (inst sc c))) as [h |] eqn:Eh; [| done].
      cbn [meshOf]. apply reinstalled_old; [done | | by right].
      rewrite installed_oct_kept in Eh by done. by apply (proj2 Hv).
    - destruct (installed_oct FromHexString cfg sc c Hv) as [H1 H2]; [lia |].
      destruct (installed_oct FromHexString cfg _ _ Hv1) as [H3 H4];
        [rewrite installed_tagged; lia |].
      rewrite installed_tagged in H3, H4.
      rewrite H1, H3. cbn [meshOf]. rewrite H2, H4.
      unfold newOct. by rewrite installed_tagged. }
  by rewrite Hsphere, Hoct.
Qed.

(** C7: activating a chunk twice in a row succeeds both times and leaves
    the chunk looking as after the first activation: the same points and
    counts, and behind its two cells meshes with the same shape, state and
    buffers.  Deactivating leaves both cells null; a second deactivation
    finds both cells null and changes neither the chunk nor the scene.
    Disposing a null handle does nothing. *)
Theorem loadChunk_idempotent :
  forall (sc : scene) (c : chunk),
    chunkWf c -> handlesValid sc c ->
    (exists sc1 c1 sc2 c2,
        loadChunk FromHexString cfg sc c true = Done (sc1, c1)
        /\ loadChunk FromHexString cfg sc1 c1 true = Done (sc2, c2)
        /\ chunkView sc2 c2 = chunkView sc1 c1)
    /\ (exists sd1 d1,
           loadChunk FromHexString cfg sc c false = Done (sd1, d1)
           /\ sphereMesh d1 = None /\ octMesh d1 = None
           /\ loadChunk FromHexString cfg sd1 d1 false = Done (sd1, d1))
    /\ dispose None sc = sc.
Proof.
  intros sc c Hwf Hv. split; [| split; [| reflexivity]].
  - exists (fst (inst sc c)), (snd (inst sc c)),
           (fst (inst (fst (inst sc c)) (snd (inst sc c)))),
           (snd (inst (fst (inst sc c)) (snd (inst sc c)))).
    rewrite <- !surjective_pairing.
    split; [by apply loadChunk_installed |].
    split; [| by apply reinstalled_view].
    apply loadChunk_installed.
    destruct (installed_cells FromHexString cfg sc c) as (Hp & Hm & Ho).
    destruct Hwf as [Ht Hout]. unfold chunkWf. by rewrite Hp, Hm, Ho.
  - exists (fst (deactivate sc c)), (snd (deactivate sc c)).
    rewrite <- surjective_pairing. repeat split; reflexivity.
Qed.

End Idempotence.

(** *** The sample chunk *)

Lemma sampleChunk_wf : chunkWf sampleChunk.
Proof. split; reflexivity. Defined.

Lemma sampleChunk_valid : handlesValid [] sampleChunk.
Proof. split; intros h H; discriminate H. Defined.


Lemma loadChunk_idempotent_witness :
  chunkWf sampleChunk /\ handlesValid [] sampleChunk
  /\ exists sc1 c1 sc2 c2,
      loadChunk whiteHex (plainConfig 10 1) [] sampleChunk true = Done (sc1, c1)
      /\ loadChunk whiteHex (plainConfig 10 1) sc1 c1 true = Done (sc2, c2)
      /\ chunkView sc2 c2 = chunkView sc1 c1.
Proof.
  split; [exact sampleChunk_wf |]. split; [exact sampleChunk_valid |].
  exact (proj1 (loadChunk_idempotent whiteHex (plainConfig 10 1) [] sampleChunk
                                     sampleChunk_wf sampleChunk_valid)).
Defined.

Lemma loadChunk_frame_witness :
  loadChunk whiteHex (plainConfig 10 1) [] sampleChunk false
  = Done ([], sampleChunk)
  /\ points sampleChunk = samplePoints.
Proof.
  assert (H : loadChunk whiteHex (plainConfig 10 1) [] sampleChunk false
              = Done ([], sampleChunk)) by reflexivity.
  split; [exact H |].
  exact (eq_sym (proj1 (loadChunk_frame whiteHex (plainConfig 10 1)
                                        [] [] sampleChunk sampleChunk false H))).
Defined.

(** ** Streaming controller *)

(** *** The sweep loops *)

Lemma obind_ext {A B : Type} (m : outcome A) (f g : A -> outcome B) :
  (forall a, f a = g a) -> obind m f = obind m g.
Proof. intros H. destruct m; cbn; [apply H | done | done]. Qed.

Lemma foldlM_app {S A : Type} (f : S -> A -> outcome S) (l1 l2 : list A) :
  forall s, foldlM f s (l1 ++ l2) = obind (foldlM f s l1) (fun s' => foldlM f s' l2).
Proof.
  induction l1 as [| a l1 IH]; intros s; [done |].
  cbn [app foldlM]. destruct (f s a); cbn [obind]; [apply IH | done | done].
Qed.

Lemma offsetAt_next (R : nat) (d : Qc) (t : nat) :
  Num.add (offsetAt R d t) (Fin d) = offsetAt R d (S t).
Proof.
  unfold offsetAt. cbn [Num.add]. f_equal.
  rewrite Nat2Z.inj_succ.
  replace (Z.succ (Z.of_nat t) - Z.of_nat R) with (Z.of_nat t - Z.of_nat R + 1) by lia.
  unfold qz. rewrite Z2Qc_inj_add, Z2Qc_inj_1. ring.
Qed.

Lemma offsetAt_leb (R : nat) (d : Qc) (t : nat) :
  (0 < d)%Qc ->
  Num.leb (offsetAt R d t) (Fin (qz (Z.of_nat R) * d)%Qc)
  = bool_decide (t <= 2 * R)%nat.
Proof.
  intros Hd. unfold offsetAt. cbn [Num.leb].
  apply bool_decide_ext. rewrite <- Qcmult_le_mono_pos_r by done.
  unfold qz. rewrite <- Z2Qc_inj_le. lia.
Qed.

Lemma offsetAt_first (R : nat) (d : Qc) :
  Num.sub (nz 0) (Fin (qz (Z.of_nat R) * d)%Qc) = offsetAt R d 0.
Proof.
  unfold offsetAt, nz. cbn [Num.sub]. f_equal.
  change (Z.of_nat 0) with 0. unfold qz.
  rewrite Z2Qc_inj_sub, Z2Qc_inj_0. ring.
Qed.

Lemma forLoop_from {S : Type} (R : nat) (d : Qc) (body : S -> num -> outcome S) :
  (0 < d)%Qc ->
  forall (rem t fuel : nat) (s : S),
    (t + rem = 2 * R + 1)%nat -> (rem < fuel)%nat ->
    forLoop fuel (offsetAt R d t) (Fin (qz (Z.of_nat R) * d)%Qc) (Fin d) body s
    = foldlM body s (map (offsetAt R d) (seq t rem)).
Proof.
  intros Hd. induction rem as [| rem IH]; intros t fuel s Ht Hfuel;
    (destruct fuel as [| fuel]; [lia |]); cbn [forLoop];
    rewrite offsetAt_leb by done.
  - rewrite bool_decide_eq_false_2 by lia. reflexivity.
  - rewrite bool_decide_eq_true_2 by lia. cbn [seq map foldlM].
    apply obind_ext. intros s'. rewrite offsetAt_next. apply IH; lia.
Qed.

(** With a positive diameter and a load range of [R] chunks a sweep loop
    visits the offsets [-R*d .. R*d] and ends within [2*R + 2] turns. *)
Lemma forLoop_offsets {S : Type} (R : nat) (d : Qc) (body : S -> num -> outcome S)
    (fuel : nat) (s : S) :
  (0 < d)%Qc -> (2 * R + 1 < fuel)%nat ->
  forLoop fuel (Num.sub (nz 0) (Fin (qz (Z.of_nat R) * d)%Qc))
          (Fin (qz (Z.of_nat R) * d)%Qc) (Fin d) body s
  = foldlM body s (offsets R d).
Proof.
  intros Hd Hfuel. rewrite offsetAt_first. by apply forLoop_from.
Qed.

(** *** One cell of a sweep *)

Lemma vset_overwrite (i : nat) (t cc : vec3) (A B C : num) :
  (i < 3)%nat ->
  vget t ((i + 1) mod 3) = A ->
  vset (vset t ((i + 2) mod 3) B) i C
  = vset (vset (vset cc ((i + 1) mod 3) A) ((i + 2) mod 3) B) i C.
Proof.
  intros Hi Ht. destruct t as [[t0 t1] t2], cc as [[c0 c1] c2].
  destruct i as [| [| [| i]]]; [| | | lia]; cbn in Ht |- *; by subst.
Qed.

Lemma vset_vset (i : nat) (t : vec3) (A B : num) :
  vset (vset t i A) i B = vset t i B.
Proof. destruct t as [[t0 t1] t2]. by destruct i as [| [| i]]. Qed.

Lemma vget_vset_other (i : nat) (t : vec3) (A : num) :
  (i < 3)%nat -> vget (vset t i A) ((i + 1) mod 3) = vget t ((i + 1) mod 3).
Proof.
  intros Hi. destruct t as [[t0 t1] t2].
  destruct i as [| [| [| i]]]; [done | done | done | lia].
Qed.

Lemma vget_vset_other2 (i : nat) (t : vec3) (A : num) :
  (i < 3)%nat ->
  vget (vset t ((i + 2) mod 3) A) ((i + 1) mod 3) = vget t ((i + 1) mod 3).
Proof.
  intros Hi. destruct t as [[t0 t1] t2].
  destruct i as [| [| [| i]]]; [done | done | done | lia].
Qed.

Lemma vget_vset_same (i : nat) (t : vec3) (A : num) :
  (i < 3)%nat -> vget (vset t i A) i = A.
Proof.
  intros Hi. destruct t as [[t0 t1] t2].
  destruct i as [| [| [| i]]]; [done | done | done | lia].
Qed.

Lemma cellKey_along (i : nat) (X Y a b : num) (cc : vec3) :
  vset (cellKey i X a b cc) i Y = cellKey i Y a b cc.
Proof. unfold cellKey. apply vset_vset. Qed.

Section Cells.

Variable FromHexString : string -> color4.
Variable cfg : config.

Local Abbreviation cell := (cellStep FromHexString cfg).

Lemma sweepCell_cell (c0 c : controller) (w w' : world) (i : nat)
    (currentAxis axis direction a b : num) :
  (i < 3)%nat ->
  agree c0 c w ->
  vget (triggeredChunkCentroid c) ((i + 1) mod 3)
  = Num.add (vget (chunkCentroid c0) ((i + 1) mod 3)) a ->
  cell w (cellKey i (Num.add currentAxis (Num.mul direction (lastChunkDist c0)))
                  a b (chunkCentroid c0),
          cellKey i (Num.sub axis (Num.mul direction (lastChunkDist c0)))
                  a b (chunkCentroid c0))
  = Done w' ->
  exists c',
    sweepCell FromHexString cfg i currentAxis axis direction c b = Done c'
    /\ agree c0 c' w'
    /\ vget (triggeredChunkCentroid c') ((i + 1) mod 3)
       = Num.add (vget (chunkCentroid c0) ((i + 1) mod 3)) a.
Proof.
  intros Hi (Hw & Hd & Hr & Hl & Hcc) Htrig Hcell.
  unfold sweepCell. rewrite Hl, Hcc.
  rewrite (vset_overwrite i (triggeredChunkCentroid c) (chunkCentroid c0)
             _ _ _ Hi Htrig).
  fold (cellKey i (Num.add currentAxis (Num.mul direction (lastChunkDist c0)))
                a b (chunkCentroid c0)).
  rewrite !cellKey_along.
  unfold cellStep in Hcell. subst w. unfold worldOf in Hcell.
  cbn [fst snd] in Hcell.
  destruct (loadChunkAt FromHexString cfg (theScene c) (chunks c) _ true)
    as [r1 | |]; cbn [obind] in Hcell |- *; [| done | done].
  destruct (loadChunkAt FromHexString cfg (fst r1) (snd r1) _ false)
    as [r2 | |]; cbn [obind] in Hcell |- *; [| done | done].
  injection Hcell as <-. eexists. split; [reflexivity |].
  split.
  - unfold agree, worldOf, setTriggered, setWorld. cbn. by rewrite Hcc.
  - unfold setTriggered. cbn [triggeredChunkCentroid].
    unfold cellKey. rewrite vget_vset_other, vget_vset_other2 by done.
    apply vget_vset_same, Nat.mod_upper_bound. lia.
Qed.

Lemma sweepCells_cells (c0 : controller) (i : nat)
    (currentAxis axis direction a : num) (bs : list num) :
  (i < 3)%nat ->
  forall (c : controller) (w w' : world),
    agree c0 c w ->
    vget (triggeredChunkCentroid c) ((i + 1) mod 3)
    = Num.add (vget (chunkCentroid c0) ((i + 1) mod 3)) a ->
    foldlM cell w
           (map (fun b =>
                   (cellKey i (Num.add currentAxis
                                       (Num.mul direction (lastChunkDist c0)))
                            a b (chunkCentroid c0),
                    cellKey i (Num.sub axis
                                       (Num.mul direction (lastChunkDist c0)))
                            a b (chunkCentroid c0)))
                bs)
    = Done w' ->
    exists c',
      foldlM (sweepCell FromHexString cfg i currentAxis axis direction) c bs
      = Done c'
      /\ agree c0 c' w'.
Proof.
  intros Hi. induction bs as [| b bs IH]; intros c w w' Hag Htrig Hrun.
  - cbn in Hrun. injection Hrun as <-. by exists c.
  - cbn [map foldlM] in Hrun |- *.
    destruct (cell w _) as [w1 | |] eqn:E; cbn [obind] in Hrun; [| done | done].
    destruct (sweepCell_cell c0 c w w1 i currentAxis axis direction a b
                             Hi Hag Htrig E) as (c1 & Hc1 & Hag1 & Htrig1).
    rewrite Hc1. cbn [obind]. by apply (IH c1 w1 w').
Qed.

Lemma sweepRows_cells (c0 : controller) (R : nat) (d : Qc) (fuel i : nat)
    (currentAxis axis direction : num) (rows : list num) :
  (i < 3)%nat -> (0 < d)%Qc -> (2 * R + 1 < fuel)%nat ->
  chunkDiameter c0 = Fin d ->
  lastChunkDist c0 = Fin (qz (Z.of_nat R) * d)%Qc ->
  forall (c : controller) (w w' : world),
    agree c0 c w ->
    foldlM cell w
           (flat_map
              (fun a =>
                 map (fun b =>
                        (cellKey i (Num.add currentAxis
                                            (Num.mul direction (lastChunkDist c0)))
                                 a b (chunkCentroid c0),
                         cellKey i (Num.sub axis
                                            (Num.mul direction (lastChunkDist c0)))
                                 a b (chunkCentroid c0)))
                     (offsets R d))
              rows)
    = Done w' ->
    exists c',
      foldlM (sweepRow FromHexString fuel cfg i currentAxis axis direction) c rows
      = Done c'
      /\ agree c0 c' w'.
Proof.
  intros Hi Hd Hfuel Hdiam Hlast.
  induction rows as [| a rows IH]; intros c w w' Hag Hrun.
  - cbn in Hrun. injection Hrun as <-. by exists c.
  - cbn [flat_map] in Hrun. rewrite foldlM_app in Hrun.
    destruct (foldlM cell w _) as [w1 | |] eqn:E; cbn [obind] in Hrun;
      [| done | done].
    cbn [foldlM]. unfold sweepRow at 1.
    destruct Hag as (Hw & Hd' & Hr' & Hl' & Hcc').
    set (c1 := setTriggered
                 (vset (triggeredChunkCentroid c) ((i + 1) mod 3)
                       (Num.add (vget (chunkCentroid c) ((i + 1) mod 3)) a))
                 c).
    assert (Hag1 : agree c0 c1 w) by done.
    change (lastChunkDist c1) with (lastChunkDist c).
    change (chunkDiameter c1) with (chunkDiameter c).
    rewrite Hl', Hlast, Hd', Hdiam, forLoop_offsets by done.
    rewrite Hlast in E.
    destruct (sweepCells_cells c0 i currentAxis axis direction a (offsets R d)
                               Hi c1 w w1 Hag1) as (c2 & Hc2 & Hagc2).
    + unfold c1, setTriggered. cbn [triggeredChunkCentroid].
      rewrite Hcc'. apply vget_vset_same, Nat.mod_upper_bound. lia.
    + by rewrite Hlast.
    + rewrite Hc2. cbn [obind]. apply (IH c2 w1 w' Hagc2 Hrun).
Qed.

(** A sweep on axis [i] does to the world what [cellStep] does along the
    cells of the shell. *)
Lemma sweepAxis_cells (c : controller) (R : nat) (d : Qc) (fuel i : nat)
    (currentChunkCentroid : vec3) (w' : world) :
  (i < 3)%nat -> (0 < d)%Qc -> (2 * R + 1 < fuel)%nat ->
  chunkDiameter c = Fin d ->
  lastChunkDist c = Fin (qz (Z.of_nat R) * d)%Qc ->
  Num.neb (vget currentChunkCentroid i) (vget (chunkCentroid c) i) = true ->
  let direction :=
    if Num.gtb (vget currentChunkCentroid i) (vget (chunkCentroid c) i)
    then nz 1 else nz (-1) in
  foldlM cell (worldOf c)
         (shellCells R d i (chunkCentroid c)
            (Num.add (vget currentChunkCentroid i)
                     (Num.mul direction (lastChunkDist c)))
            (Num.sub (vget (chunkCentroid c) i)
                     (Num.mul direction (lastChunkDist c))))
  = Done w' ->
  exists c',
    sweepAxis FromHexString fuel cfg currentChunkCentroid c i = Done c'
    /\ agree c c' w'.
Proof.
  intros Hi Hd Hfuel Hdiam Hlast Hne direction Hrun.
  unfold sweepAxis. rewrite Hne. fold direction.
  rewrite Hlast, Hdiam, forLoop_offsets by done.
  unfold shellCells in Hrun.
  apply (sweepRows_cells c R d fuel i _ _ direction (offsets R d)
                         Hi Hd Hfuel Hdiam Hlast c (worldOf c) w');
    [by unfold agree | exact Hrun].
Qed.

End Cells.

(** *** The world along the cells of a sweep *)

Lemma removeFirst_app_notin (k : vec3) (l1 l2 : list vec3) :
  k ∉ l2 -> removeFirst k (l1 ++ l2) = removeFirst k l1 ++ l2.
Proof.
  intros Hk. induction l1 as [| x l1 IH]; cbn [app removeFirst].
  - induction l2 as [| y l2 IH2]; [done |].
    cbn [removeFirst]. apply not_elem_of_cons in Hk as [Hne Hk].
    rewrite decide_False by done. by rewrite IH2.
  - destruct (decide (x = k)); [done |]. by rewrite IH.
Qed.

Lemma activeAfter_split (cells : list (vec3 * vec3)) :
  (forall k, k ∈ map snd cells -> k ∉ map fst cells) ->
  forall act pushed,
    (forall k, k ∈ map snd cells -> k ∉ pushed) ->
    activeAfter (act ++ pushed) cells
    = removeAll (map snd cells) act ++ pushed ++ map fst cells.
Proof.
  induction cells as [| [kA kD] cells IH]; intros Hdis act pushed Hp.
  - cbn. by rewrite app_nil_r.
  - cbn [activeAfter removeAll foldl map fst snd] in *.
    fold (activeAfter (removeFirst kD ((act ++ pushed) ++ [kA])) cells).
    fold (removeAll (map snd cells) (removeFirst kD act)).
    rewrite <- app_assoc.
    rewrite removeFirst_app_notin.
    + rewrite IH.
      * by rewrite <- app_assoc.
      * intros k Hk Hk'. apply (Hdis k); [by right | by right].
      * intros k Hk Hk'. apply elem_of_app in Hk' as [Hk' | Hk'].
        -- apply (Hp k); [by right | done].
        -- apply list_elem_of_singleton in Hk' as ->.
           apply (Hdis kA); [by right | by left].
    + intros Hk. apply elem_of_app in Hk as [Hk | Hk].
      * apply (Hp kD); [by left | done].
      * apply list_elem_of_singleton in Hk as ->.
        apply (Hdis kA); by left.
Qed.

Lemma activeAfter_disjoint (act : list vec3) (cells : list (vec3 * vec3)) :
  (forall k, k ∈ map snd cells -> k ∉ map fst cells) ->
  activeAfter act cells = removeAll (map snd cells) act ++ map fst cells.
Proof.
  intros Hdis. rewrite <- (app_nil_r act) at 1.
  rewrite (activeAfter_split cells Hdis act []); [done |].
  intros k _ Hk. by apply elem_of_nil in Hk.
Qed.

Section World.

Variable FromHexString : string -> color4.
Variable cfg : config.

Local Abbreviation cell := (cellStep FromHexString cfg).

Lemma installed_loaded (sc : scene) (ch : chunk) :
  loaded (snd (installed FromHexString cfg sc ch)).
Proof.
  unfold loaded. rewrite installed_tagged. split; intros H;
    apply Nat.ltb_lt in H; unfold installed; rewrite H.
  - destruct (0 <? length (outlierTagged (taggedPoints ch)))%nat;
      cbn [snd sphereMesh]; by eexists.
  - destruct (0 <? length (normalTagged (taggedPoints ch)))%nat;
      cbn [snd octMesh]; by eexists.
Qed.

Lemma loadChunkAt_absent (sc : scene) (m : gmap vec3 chunk) (k : vec3)
    (state : bool) :
  m !! k = None -> loadChunkAt FromHexString cfg sc m k state = Done (sc, m).
Proof. intros H. unfold loadChunkAt. by rewrite H. Qed.

Lemma loadChunkAt_present (sc : scene) (m : gmap vec3 chunk) (k : vec3)
    (ch : chunk) (state : bool) :
  m !! k = Some ch -> chunkWf ch ->
  exists sc' ch',
    loadChunkAt FromHexString cfg sc m k state = Done (sc', <[k := ch']> m)
    /\ sameCells ch ch' /\ chunkWf ch'
    /\ (if state then loaded ch' else unloaded ch').
Proof.
  intros Hk Hwf. unfold loadChunkAt. rewrite Hk. destruct state.
  - rewrite loadChunk_installed by done. cbn [obind fst snd].
    eexists _, _. split; [reflexivity |].
    pose proof (installed_cells FromHexString cfg sc ch) as Hc.
    split; [exact Hc |]. split; [| apply installed_loaded].
    destruct Hc as (Hp & Hm & Ho), Hwf as [Ht Hout].
    unfold chunkWf. by rewrite Hp, Hm, Ho.
  - cbn [loadChunk obind fst snd]. eexists _, _. split; [reflexivity |].
    split; [done |]. split; [exact Hwf | done].
Qed.

Lemma loadChunkAt_spec (sc : scene) (m : gmap vec3 chunk) (key : vec3)
    (state : bool) :
  allWf m ->
  exists sc' m',
    loadChunkAt FromHexString cfg sc m key state = Done (sc', m')
    /\ allWf m' /\ evolved m m'
    /\ (forall k, k <> key -> m' !! k = m !! k)
    /\ (forall ch', m' !! key = Some ch' ->
                    if state then loaded ch' else unloaded ch').
Proof.
  intros Hwf. destruct (m !! key) as [ch |] eqn:Ek.
  - destruct (loadChunkAt_present sc m key ch state Ek (Hwf _ _ Ek))
      as (sc' & ch' & Hload & Hsame & Hwf' & Hstate).
    exists sc', (<[key := ch']> m). split; [exact Hload |].
    split; [| split; [| split]].
    + intros k c Hc. destruct (decide (k = key)) as [-> | Hne].
      * rewrite lookup_insert_eq in Hc. by injection Hc as <-.
      * rewrite lookup_insert_ne in Hc by done. by apply (Hwf k).
    + intros k. destruct (decide (k = key)) as [-> | Hne].
      * rewrite Ek, lookup_insert_eq. by exists ch'.
      * rewrite lookup_insert_ne by done.
        destruct (m !! k) as [c |]; [| done]. by exists c.
    + intros k Hne. by rewrite lookup_insert_ne.
    + intros c. rewrite lookup_insert_eq. by intros [= <-].
  - exists sc, m. split; [by apply loadChunkAt_absent |].
    split; [done |]. split; [| split; [done |]].
    + intros k. destruct (m !! k) as [c |]; [| done]. by exists c.
    + intros c Hc. congruence.
Qed.

End World.

Lemma sameCells_trans (a b c : chunk) :
  sameCells a b -> sameCells b c -> sameCells a c.
Proof.
  intros (H1 & H2 & H3) (H4 & H5 & H6). unfold sameCells.
  by rewrite H4, H5, H6.
Qed.

Lemma evolved_refl (m : gmap vec3 chunk) : evolved m m.
Proof. intros k. destruct (m !! k) as [c |]; [| done]. by exists c. Qed.

Lemma evolved_trans (m1 m2 m3 : gmap vec3 chunk) :
  evolved m1 m2 -> evolved m2 m3 -> evolved m1 m3.
Proof.
  intros H12 H23 k. specialize (H12 k). specialize (H23 k).
  destruct (m1 !! k) as [c1 |].
  - destruct H12 as (c2 & E2 & S2). rewrite E2 in H23.
    destruct H23 as (c3 & E3 & S3). exists c3. split; [done |].
    by apply (sameCells_trans c1 c2 c3).
  - by rewrite H12 in H23.
Qed.


Section Run.

Variable FromHexString : string -> color4.
Variable cfg : config.

Local Abbreviation cell := (cellStep FromHexString cfg).

Lemma cellStep_spec (sc : scene) (m : gmap vec3 chunk) (act : list vec3)
    (kA kD : vec3) :
  allWf m ->
  exists sc' m',
    cell (sc, m, act) (kA, kD)
    = Done (sc', m', removeFirst kD (act ++ [kA]))
    /\ allWf m' /\ evolved m m'
    /\ (forall k, k <> kA -> k <> kD -> m' !! k = m !! k)
    /\ (forall ch', m' !! kD = Some ch' -> unloaded ch')
    /\ (forall ch', kA <> kD -> m' !! kA = Some ch' -> loaded ch').
Proof.
  intros Hwf.
  destruct (loadChunkAt_spec FromHexString cfg sc m kA true Hwf)
    as (sc1 & m1 & H1 & Hwf1 & Hev1 & Hfr1 & Hst1).
  destruct (loadChunkAt_spec FromHexString cfg sc1 m1 kD false Hwf1)
    as (sc2 & m2 & H2 & Hwf2 & Hev2 & Hfr2 & Hst2).
  exists sc2, m2. unfold cellStep. cbn [fst snd]. rewrite H1. cbn [obind fst snd].
  rewrite H2. cbn [obind fst snd]. split; [done |].
  split; [done |]. split; [by apply (evolved_trans m m1 m2) |].
  split; [| split].
  - intros k HA HD. by rewrite Hfr2, Hfr1.
  - exact Hst2.
  - intros ch' Hne Hch. rewrite Hfr2 in Hch by done. by apply Hst1.
Qed.

(** The world after the cells of a sweep. *)
Lemma cells_run (cells : list (vec3 * vec3)) :
  forall (sc : scene) (m : gmap vec3 chunk) (act : list vec3),
    allWf m ->
    exists sc' m',
      foldlM cell (sc, m, act) cells = Done (sc', m', activeAfter act cells)
      /\ allWf m' /\ evolved m m'
      /\ (forall k, k ∉ map fst cells -> k ∉ map snd cells -> m' !! k = m !! k)
      /\ (forall k ch', k ∈ map snd cells -> k ∉ map fst cells ->
                        m' !! k = Some ch' -> unloaded ch')
      /\ (forall k ch', k ∈ map fst cells -> k ∉ map snd cells ->
                        m' !! k = Some ch' -> loaded ch').
Proof.
  induction cells as [| [kA kD] cells IH]; intros sc m act Hwf.
  - exists sc, m. split; [done |]. split; [done |].
    split; [apply evolved_refl |]. split; [done |].
    split; intros k ch' Hk; by apply elem_of_nil in Hk.
  - destruct (cellStep_spec sc m act kA kD Hwf)
      as (sc1 & m1 & H1 & Hwf1 & Hev1 & Hfr1 & Hun1 & Hlo1).
    destruct (IH sc1 m1 (removeFirst kD (act ++ [kA])) Hwf1)
      as (sc' & m' & Hrun & Hwf' & Hev' & Hfr' & Hun' & Hlo').
    exists sc', m'. cbn [foldlM]. rewrite H1. cbn [obind].
    split; [exact Hrun |]. split; [done |].
    split; [by apply (evolved_trans m m1 m') |].
    cbn [map fst snd]. split; [| split].
    + intros k HA HD.
      apply not_elem_of_cons in HA as [HA1 HA2].
      apply not_elem_of_cons in HD as [HD1 HD2].
      by rewrite Hfr', Hfr1.
    + intros k ch' HD HA Hch.
      apply not_elem_of_cons in HA as [HA1 HA2].
      destruct (decide (k ∈ map snd cells)) as [Hin | Hnin].
      * by apply (Hun' k).
      * apply elem_of_cons in HD as [-> | HD]; [| done].
        rewrite Hfr' in Hch by done. by apply Hun1.
    + intros k ch' HA HD Hch.
      apply not_elem_of_cons in HD as [HD1 HD2].
      destruct (decide (k ∈ map fst cells)) as [Hin | Hnin].
      * by apply (Hlo' k).
      * apply elem_of_cons in HA as [-> | HA]; [| done].
        rewrite Hfr' in Hch by done. by apply Hlo1.
Qed.

End Run.

(** *** The two shells of a sweep *)

Lemma this_plus (x y : Qc) : (this (x + y) == this x + this y)%Q.
Proof. unfold Qcplus, Q2Qc. cbn [this]. apply Qred_correct. Qed.

Lemma this_minus (x y : Qc) : (this (x - y) == this x - this y)%Q.
Proof.
  unfold Qcminus, Qcplus, Qcopp, Q2Qc. cbn [this].
  rewrite !Qred_correct. reflexivity.
Qed.

Lemma this_mult (x y : Qc) : (this (x * y) == this x * this y)%Q.
Proof. unfold Qcmult, Q2Qc. cbn [this]. apply Qred_correct. Qed.

Lemma this_eq (x y : Qc) : x = y -> (this x == this y)%Q.
Proof. by intros ->. Qed.

Lemma range_nonneg (R : nat) (d : Qc) : (0 < d)%Qc -> (0 <= qz (Z.of_nat R) * d)%Qc.
Proof.
  intros Hd. apply Qcmult_nonneg_nonneg; [| by apply Qclt_le_weak].
  unfold qz. rewrite <- Z2Qc_inj_0, <- Z2Qc_inj_le. lia.
Qed.

(** The coordinate of the leading shell differs from that of the trailing
    shell. *)
Lemma shells_apart (x y L : Qc) :
  x <> y -> (0 <= L)%Qc ->
  let direction := if bool_decide (y < x)%Qc then qz 1 else qz (-1) in
  (x + direction * L)%Qc <> (y - direction * L)%Qc.
Proof.
  intros Hne HL direction E. apply this_eq in E.
  rewrite this_plus, this_minus, !this_mult in E.
  unfold Qcle in HL. change (this 0%Qc) with 0%Q in HL.
  unfold direction in E. destruct (bool_decide (y < x)%Qc) eqn:Hlt.
  - apply bool_decide_eq_true_1 in Hlt. unfold Qclt in Hlt.
    change (this (qz 1)) with 1%Q in E. lra.
  - apply bool_decide_eq_false_1 in Hlt.
    assert (Hxy : (x < y)%Qc).
    { destruct (Qclt_le_dec x y) as [? | Hle]; [done |].
      exfalso. apply Hlt. apply Qcle_lt_or_eq in Hle as [? | ->]; done. }
    unfold Qclt in Hxy. change (this (qz (-1))) with (-1)%Q in E. lra.
Qed.

Lemma cellKey_get (i : nat) (along a b : num) (cc : vec3) :
  (i < 3)%nat -> vget (cellKey i along a b cc) i = along.
Proof. intros Hi. unfold cellKey. by apply vget_vset_same. Qed.

Lemma shellCells_fst (R : nat) (d : Qc) (i : nat) (cc : vec3)
    (actAlong deAlong : num) (k : vec3) :
  k ∈ map fst (shellCells R d i cc actAlong deAlong)
  <-> exists a b, a ∈ offsets R d /\ b ∈ offsets R d
                  /\ k = cellKey i actAlong a b cc.
Proof.
  unfold shellCells. rewrite list_elem_of_fmap. split.
  - intros ([kA kD] & -> & Hin). apply list_elem_of_In, in_flat_map in Hin
      as (a & Ha & Hin).
    apply in_map_iff in Hin as (b & [= <- <-] & Hb).
    exists a, b. by rewrite <- !list_elem_of_In in *.
  - intros (a & b & Ha & Hb & ->).
    exists (cellKey i actAlong a b cc, cellKey i deAlong a b cc).
    split; [done |]. apply list_elem_of_In, in_flat_map.
    exists a. split; [by apply list_elem_of_In |].
    apply in_map_iff. exists b. split; [done | by apply list_elem_of_In].
Qed.

Lemma shellCells_snd (R : nat) (d : Qc) (i : nat) (cc : vec3)
    (actAlong deAlong : num) (k : vec3) :
  k ∈ map snd (shellCells R d i cc actAlong deAlong)
  <-> exists a b, a ∈ offsets R d /\ b ∈ offsets R d
                  /\ k = cellKey i deAlong a b cc.
Proof.
  unfold shellCells. rewrite list_elem_of_fmap. split.
  - intros ([kA kD] & -> & Hin). apply list_elem_of_In, in_flat_map in Hin
      as (a & Ha & Hin).
    apply in_map_iff in Hin as (b & [= <- <-] & Hb).
    exists a, b. by rewrite <- !list_elem_of_In in *.
  - intros (a & b & Ha & Hb & ->).
    exists (cellKey i actAlong a b cc, cellKey i deAlong a b cc).
    split; [done |]. apply list_elem_of_In, in_flat_map.
    exists a. split; [by apply list_elem_of_In |].
    apply in_map_iff. exists b. split; [done | by apply list_elem_of_In].
Qed.

Lemma shellCells_disjoint (R : nat) (d : Qc) (i : nat) (cc : vec3)
    (actAlong deAlong : num) :
  (i < 3)%nat -> actAlong <> deAlong ->
  forall k, k ∈ map snd (shellCells R d i cc actAlong deAlong) ->
            k ∉ map fst (shellCells R d i cc actAlong deAlong).
Proof.
  intros Hi Hne k Hde Hact.
  apply shellCells_snd in Hde as (a & b & _ & _ & ->).
  apply shellCells_fst in Hact as (a' & b' & _ & _ & E).
  apply (f_equal (fun v => vget v i)) in E.
  rewrite !cellKey_get in E by done. by symmetry in E.
Qed.

(** *** A sweep and the tick around it *)

Lemma removeFirst_other (k x : vec3) (l : list vec3) :
  k <> x -> (k ∈ removeFirst x l <-> k ∈ l).
Proof.
  intros Hne. induction l as [| y l IH]; [done |].
  cbn [removeFirst]. destruct (decide (y = x)) as [-> | Hyx].
  - rewrite elem_of_cons. split; [by right |].
    intros [E | H]; [congruence | done].
  - by rewrite !elem_of_cons, IH.
Qed.

Lemma removeAll_other (k : vec3) (ks l : list vec3) :
  k ∉ ks -> (k ∈ removeAll ks l <-> k ∈ l).
Proof.
  revert l. induction ks as [| x ks IH]; intros l Hk; [done |].
  apply not_elem_of_cons in Hk as [Hne Hk]. cbn [removeAll foldl].
  fold (removeAll ks (removeFirst x l)).
  rewrite IH by done. by apply removeFirst_other.
Qed.

Lemma Fin_inj (a b : Qc) : Fin a = Fin b -> a = b.
Proof. congruence. Qed.

Section Tick.

Variable FromHexString : string -> color4.
Variable cfg : config.

(** The effect of the callback for an axis on which the centroid moved. *)
Lemma sweepAxis_effect (c : controller) (currentChunkCentroid : vec3)
    (i R fuel : nat) (d x y : Qc) :
  (i < 3)%nat -> (0 < d)%Qc -> (2 * R + 1 < fuel)%nat ->
  chunkDiameter c = Fin d ->
  lastChunkDist c = Fin (qz (Z.of_nat R) * d)%Qc ->
  vget currentChunkCentroid i = Fin x ->
  vget (chunkCentroid c) i = Fin y ->
  x <> y ->
  allWf (chunks c) ->
  let direction := if bool_decide (y < x)%Qc then qz 1 else qz (-1) in
  let cells :=
    shellCells R d i (chunkCentroid c)
               (Fin (x + direction * (qz (Z.of_nat R) * d))%Qc)
               (Fin (y - direction * (qz (Z.of_nat R) * d))%Qc) in
  exists c',
    sweepAxis FromHexString fuel cfg currentChunkCentroid c i = Done c'
    /\ chunkDiameter c' = chunkDiameter c
    /\ chunkLoadRange c' = chunkLoadRange c
    /\ lastChunkDist c' = lastChunkDist c
    /\ chunkCentroid c' = chunkCentroid c
    /\ activeChunks c'
       = removeAll (map snd cells) (activeChunks c) ++ map fst cells
    /\ allWf (chunks c')
    /\ evolved (chunks c) (chunks c')
    /\ (forall k, k ∉ map fst cells -> k ∉ map snd cells ->
                  chunks c' !! k = chunks c !! k)
    /\ (forall k ch', k ∈ map snd cells -> chunks c' !! k = Some ch' ->
                      unloaded ch')
    /\ (forall k ch', k ∈ map fst cells -> chunks c' !! k = Some ch' ->
                      loaded ch').
Proof.
  intros Hi Hd Hfuel Hdiam Hlast Hx Hy Hne Hwf direction cells.
  assert (Hapart : Fin (x + direction * (qz (Z.of_nat R) * d))%Qc
                   <> Fin (y - direction * (qz (Z.of_nat R) * d))%Qc).
  { intros E. apply Fin_inj in E. revert E.
    apply shells_apart; [done |]. by apply range_nonneg. }
  pose proof (shellCells_disjoint R d i (chunkCentroid c) _ _ Hi Hapart) as Hdis.
  fold cells in Hdis.
  destruct (cells_run FromHexString cfg cells (theScene c) (chunks c)
                      (activeChunks c) Hwf)
    as (sc' & m' & Hrun & Hwf' & Hev & Hfr & Hun & Hlo).
  destruct (sweepAxis_cells FromHexString cfg c R d fuel i currentChunkCentroid
                            (sc', m', activeAfter (activeChunks c) cells)
                            Hi Hd Hfuel Hdiam Hlast)
    as (c' & Hsweep & Hw & Hd' & Hr' & Hl' & Hcc').
  { rewrite Hx, Hy. cbn [Num.neb]. by apply bool_decide_eq_true_2. }
  { rewrite Hx, Hy, Hlast. unfold Num.gtb. cbn [Num.ltb].
    unfold cells, direction in Hrun.
    destruct (bool_decide (y < x)%Qc); exact Hrun. }
  exists c'. unfold worldOf in Hw. injection Hw as Hsc Hm Hact.
  rewrite Hm, Hact, activeAfter_disjoint by done.
  split; [exact Hsweep |]. split; [exact Hd' |]. split; [exact Hr' |].
  split; [exact Hl' |]. split; [exact Hcc' |]. split; [reflexivity |].
  split; [exact Hwf' |]. split; [exact Hev |]. split; [exact Hfr |].
  split.
  - intros k ch' Hk. apply (Hun k ch' Hk). by apply Hdis.
  - intros k ch' Hk. apply (Hlo k ch' Hk). intros Hk'. by apply (Hdis k).
Qed.

Lemma sweepAxis_still (c : controller) (currentChunkCentroid : vec3)
    (j fuel : nat) (x : Qc) :
  vget currentChunkCentroid j = Fin x ->
  vget (chunkCentroid c) j = Fin x ->
  sweepAxis FromHexString fuel cfg currentChunkCentroid c j = Done c.
Proof.
  intros Hx Hy. unfold sweepAxis. rewrite Hx, Hy. cbn [Num.neb].
  by rewrite bool_decide_eq_false_2 by (intros H; by apply H).
Qed.

(** A tick in which the centroid moves on axis [i] alone is the sweep on
    that axis, followed by the update of the centroid. *)
Lemma tick_one_axis (c c1 : controller) (camera : vec3) (i fuel : nat) :
  (i < 3)%nat ->
  (forall j, (j < 3)%nat -> j <> i ->
             exists x, vget (getChunkCentroid camera (chunkDiameter c)) j = Fin x
                       /\ vget (chunkCentroid c) j = Fin x) ->
  sweepAxis FromHexString fuel cfg (getChunkCentroid camera (chunkDiameter c)) c i
  = Done c1 ->
  chunkCentroid c1 = chunkCentroid c ->
  chunkDiameter c1 = chunkDiameter c ->
  exists c',
    tick FromHexString fuel cfg c camera = Done c'
    /\ chunkCentroid c' = getChunkCentroid camera (chunkDiameter c)
    /\ chunkDiameter c' = chunkDiameter c1
    /\ chunkLoadRange c' = chunkLoadRange c1
    /\ lastChunkDist c' = lastChunkDist c1
    /\ chunks c' = chunks c1
    /\ activeChunks c' = activeChunks c1.
Proof.
  intros Hi Hother Hsweep Hcc Hdd. unfold tick. cbn [foldlM].
  destruct i as [| [| [| i]]]; [| | | lia].
  - rewrite Hsweep. cbn [obind].
    destruct (Hother 1%nat) as (x1 & Hx1 & Hy1); [lia | lia |].
    destruct (Hother 2%nat) as (x2 & Hx2 & Hy2); [lia | lia |].
    rewrite (sweepAxis_still c1 _ 1 fuel x1) by (by rewrite ?Hcc).
    cbn [obind].
    rewrite (sweepAxis_still c1 _ 2 fuel x2) by (by rewrite ?Hcc).
    cbn [obind]. eexists. split; [reflexivity |]. done.
  - destruct (Hother 0%nat) as (x0 & Hx0 & Hy0); [lia | lia |].
    destruct (Hother 2%nat) as (x2 & Hx2 & Hy2); [lia | lia |].
    rewrite (sweepAxis_still c _ 0 fuel x0) by done. cbn [obind].
    rewrite Hsweep. cbn [obind].
    rewrite (sweepAxis_still c1 _ 2 fuel x2) by (by rewrite ?Hcc).
    cbn [obind]. eexists. split; [reflexivity |]. done.
  - destruct (Hother 0%nat) as (x0 & Hx0 & Hy0); [lia | lia |].
    destruct (Hother 1%nat) as (x1 & Hx1 & Hy1); [lia | lia |].
    rewrite (sweepAxis_still c _ 0 fuel x0) by done. cbn [obind].
    rewrite (sweepAxis_still c _ 1 fuel x1) by done. cbn [obind].
    rewrite Hsweep. cbn [obind]. eexists. split; [reflexivity |]. done.
Qed.

Lemma tick_still (c : controller) (camera : vec3) (fuel : nat) :
  (forall j, (j < 3)%nat ->
             exists x, vget (getChunkCentroid camera (chunkDiameter c)) j = Fin x
                       /\ vget (chunkCentroid c) j = Fin x) ->
  tick FromHexString fuel cfg c camera
  = Done (Controller (chunkDiameter c) (chunkLoadRange c) (lastChunkDist c)
                     (chunks c) (activeChunks c)
                     (getChunkCentroid camera (chunkDiameter c))
                     (triggeredChunkCentroid c) (theScene c)).
Proof.
  intros Hsame. unfold tick. cbn [foldlM].
  destruct (Hsame 0%nat) as (x0 & Hx0 & Hy0); [lia |].
  destruct (Hsame 1%nat) as (x1 & Hx1 & Hy1); [lia |].
  destruct (Hsame 2%nat) as (x2 & Hx2 & Hy2); [lia |].
  rewrite (sweepAxis_still c _ 0 fuel x0) by done. cbn [obind].
  rewrite (sweepAxis_still c _ 1 fuel x1) by done. cbn [obind].
  rewrite (sweepAxis_still c _ 2 fuel x2) by done. reflexivity.
Qed.

End Tick.

(** *** The start of [plotData] *)

Section Start.

Variable FromHexString : string -> color4.
Variable cfg : config.

Lemma activateAll (keys : list vec3) :
  forall (sc : scene) (m : gmap vec3 chunk),
    allWf m ->
    exists sc' m',
      foldlM (fun w key => loadChunkAt FromHexString cfg (fst w) (snd w) key true)
             (sc, m) keys
      = Done (sc', m')
      /\ allWf m' /\ evolved m m'.
Proof.
  induction keys as [| key keys IH]; intros sc m Hwf.
  - exists sc, m. split; [done |]. split; [done | apply evolved_refl].
  - destruct (loadChunkAt_spec FromHexString cfg sc m key true Hwf)
      as (sc1 & m1 & H1 & Hwf1 & Hev1 & _).
    destruct (IH sc1 m1 Hwf1) as (sc' & m' & Hrun & Hwf' & Hev').
    exists sc', m'. cbn [foldlM fst snd]. rewrite H1. cbn [obind].
    split; [exact Hrun |]. split; [done |]. by apply (evolved_trans m m1 m').
Qed.

Lemma plotData_spec (data : dataset) (sc : scene) (camera : vec3) :
  let d := cfgChunkDiameter cfg in
  let r := cfgChunkLoadRange cfg in
  exists c0,
    plotData FromHexString cfg data sc camera = Done c0
    /\ chunkDiameter c0 = d
    /\ chunkLoadRange c0 = r
    /\ lastChunkDist c0 = Num.mul r d
    /\ chunkCentroid c0 = getChunkCentroid camera d
    /\ activeChunks c0 = snd (calculateChunks cfg data camera d r)
    /\ evolved (fst (calculateChunks cfg data camera d r)) (chunks c0)
    /\ allWf (chunks c0).
Proof.
  intros d r. unfold plotData. fold d r.
  destruct (calculateChunks cfg data camera d r) as [chunks0 active0] eqn:E.
  assert (Hwf0 : allWf chunks0).
  { intros k ch Hk. apply (calculateChunks_wf cfg data camera d r k).
    by rewrite E. }
  destruct (activateAll active0 sc chunks0 Hwf0) as (sc' & m' & Hrun & Hwf' & Hev).
  rewrite Hrun. cbn [obind fst snd]. eexists. split; [reflexivity |]. done.
Qed.

End Start.

(** *** The scenario *)

Lemma scenario_checked : scenarioCheck = true.
Proof. vm_compute. reflexivity. Qed.

Lemma scenario_runs :
  exists c0 c1, sweepStart = Done c0 /\ sweepEnd = Done c1.
Proof.
  pose proof scenario_checked as H. unfold scenarioCheck in H.
  destruct sweepStart as [c0 | |]; [| done | done].
  destruct sweepEnd as [c1 | |]; [| done | done].
  by exists c0, c1.
Qed.

Lemma scenario_shells (c0 c1 : controller) :
  sweepStart = Done c0 -> sweepEnd = Done c1 ->
  onlyShellsAffected c0 c1 0 (nz (-10)) (nz 20).
Proof.
  intros E0 E1.
  destruct (plotData_spec whiteHex (plainConfig 10 1) sweepData []
                          (nz 0, nz 0, nz 0))
    as (c0' & Hplot & Hd & Hr & Hl & Hcc & Hact & Hev & Hwf).
  unfold sweepStart in E0. rewrite Hplot in E0. injection E0 as ->.
  unfold sweepEnd, sweepStart in E1. rewrite Hplot in E1. cbn [obind] in E1.
  cbn [plainConfig cfgChunkDiameter cfgChunkLoadRange] in Hd, Hr, Hl, Hcc.
  assert (Hten : qz 10 <> 0%Qc) by (intros H; by apply (f_equal this) in H).
  assert (Hpos : (0 < qz 10)%Qc) by reflexivity.
  assert (Hcur : getChunkCentroid (nz 11, nz 0, nz 0) (chunkDiameter c0)
                 = (Fin (centroid_formula (qz 11) (qz 10)),
                    Fin (centroid_formula (qz 0) (qz 10)),
                    Fin (centroid_formula (qz 0) (qz 10)))).
  { rewrite Hd. unfold getChunkCentroid, nz. by rewrite !trim_finite. }
  assert (Hcc' : chunkCentroid c0
                 = (Fin (centroid_formula (qz 0) (qz 10)),
                    Fin (centroid_formula (qz 0) (qz 10)),
                    Fin (centroid_formula (qz 0) (qz 10)))).
  { rewrite Hcc. unfold getChunkCentroid, nz. by rewrite !trim_finite. }
  destruct (sweepAxis_effect whiteHex (plainConfig 10 1) c0
              (getChunkCentroid (nz 11, nz 0, nz 0) (chunkDiameter c0))
              0 1 4 (qz 10) (centroid_formula (qz 11) (qz 10))
              (centroid_formula (qz 0) (qz 10)))
    as (c' & Hsweep & Hd' & Hr' & Hl' & Hc' & Hact' & Hwf' & Hev' & Hfr & _);
    [lia | done | lia | done | by rewrite Hl | by rewrite Hcur | by rewrite Hcc'
     | | done |].
  { apply (bool_decide_eq_true_1 _). vm_compute. reflexivity. }
  destruct (tick_one_axis whiteHex (plainConfig 10 1) c0 c'
                          (nz 11, nz 0, nz 0) 0 4)
    as (c'' & Htick & _ & _ & _ & _ & Hm'' & Ha''); [lia | | done | done | done |].
  { intros j Hj Hne. exists (centroid_formula (qz 0) (qz 10)).
    rewrite Hcur, Hcc'.
    destruct j as [| [| [| j]]];
      [congruence | split; reflexivity | split; reflexivity | lia]. }
  rewrite Htick in E1. injection E1 as <-.
  intros k Hde Hac. rewrite Hm'', Ha'', Hact'.
  set (cells := shellCells _ _ _ _ _ _) in *.
  assert (HA : k ∉ map fst cells).
  { intros Hin. apply shellCells_fst in Hin as (a & b & _ & _ & ->).
    rewrite cellKey_get in Hac by lia. apply Hac.
    apply (bool_decide_eq_true_1 _). vm_compute. reflexivity. }
  assert (HD : k ∉ map snd cells).
  { intros Hin. apply shellCells_snd in Hin as (a & b & _ & _ & ->).
    rewrite cellKey_get in Hde by lia. apply Hde.
    apply (bool_decide_eq_true_1 _). vm_compute. reflexivity. }
  split; [by apply Hfr |].
  rewrite elem_of_app, removeAll_other by done. tauto.
Qed.

(** C2, as stated, fails in its own scenario: the chunk (-10,0,0), whose
    coordinate on the changing axis is neither -15 nor 25, is active before
    the tick and not after it; and the key (20,-10,-10) is in the active
    list after the tick although no chunk is stored under it. *)
Lemma sweep_not_at_sight_distance :
  exists c0 c1,
    result sweepStart = Some c0 /\ result sweepEnd = Some c1
    /\ ~ onlyShellsAffected c0 c1 0 (nz (-15)) (nz 25)
    /\ key3 20 (-10) (-10) ∈ activeChunks c1
    /\ chunks c1 !! key3 20 (-10) (-10) = None.
Proof.
  pose proof scenario_checked as H. unfold scenarioCheck in H.
  destruct sweepStart as [c0 | |] eqn:E0; [| done | done].
  destruct sweepEnd as [c1 | |] eqn:E1; [| done | done].
  repeat (apply andb_prop in H; destruct H as [H ?]).
  repeat match goal with
         | B : bool_decide _ = true |- _ => apply bool_decide_eq_true_1 in B
         end.
  exists c0, c1. split; [done |]. split; [done |].
  match goal with A1 : activeChunks c1 = _, A0 : activeChunks c0 = _ |- _ =>
    rename A1 into Hact1; rename A0 into Hact0 end.
  split; [| split; [| done]].
  - intros Hclaim.
    destruct (Hclaim (key3 (-10) 0 0)) as [_ Hiff].
    + intros E. apply Fin_inj in E. by apply (f_equal this) in E.
    + intros E. apply Fin_inj in E. by apply (f_equal this) in E.
    + assert (Hin : key3 (-10) 0 0 ∈ activeChunks c0).
      { rewrite Hact0. right. left. }
      apply Hiff in Hin. rewrite Hact1 in Hin.
      revert Hin. apply (bool_decide_eq_false_1 _). vm_compute. reflexivity.
  - rewrite Hact1. right. left.
Qed.

(** C2, amended: when the centroid has moved on axis [i], the callback for
    that axis goes through the offsets [-R*d .. R*d] on the two other axes
    and, for each combination, activates the chunk whose coordinate on axis
    [i] is [currentAxis + direction * lastChunkDist], appending its key to
    the active list (also when no chunk is stored under it), and deactivates
    the chunk at [previousAxis - direction * lastChunkDist], removing the
    first occurrence of its key; [lastChunkDist] is
    [chunkLoadRange * chunkDiameter].  Chunks outside the two shells are not
    touched.  With diameter 10 and range 1, moving from (0,0,0) to (11,0,0)
    deactivates the shell at -10 and activates the shell at 20. *)
Theorem sweepAxis_shell :
  forall (FromHexString : string -> color4) (cfg : config) (c : controller)
         (currentChunkCentroid : vec3) (i R fuel : nat) (d x y : Qc),
    (i < 3)%nat -> (0 < d)%Qc -> (2 * R + 1 < fuel)%nat ->
    chunkDiameter c = Fin d ->
    chunkLoadRange c = nz (Z.of_nat R) ->
    lastChunkDist c = Num.mul (chunkLoadRange c) (chunkDiameter c) ->
    vget currentChunkCentroid i = Fin x ->
    vget (chunkCentroid c) i = Fin y ->
    x <> y ->
    allWf (chunks c) ->
    let currentAxis := vget currentChunkCentroid i in
    let previousAxis := vget (chunkCentroid c) i in
    let direction := if Num.gtb currentAxis previousAxis then nz 1 else nz (-1) in
    let cells :=
      shellCells R d i (chunkCentroid c)
                 (Num.add currentAxis (Num.mul direction (lastChunkDist c)))
                 (Num.sub previousAxis (Num.mul direction (lastChunkDist c))) in
    (exists c',
        sweepAxis FromHexString fuel cfg currentChunkCentroid c i = Done c'
        /\ chunkCentroid c' = chunkCentroid c
        /\ activeChunks c'
           = removeAll (map snd cells) (activeChunks c) ++ map fst cells
        /\ evolved (chunks c) (chunks c')
        /\ (forall k, k ∉ map fst cells -> k ∉ map snd cells ->
                      chunks c' !! k = chunks c !! k)
        /\ (forall k ch', k ∈ map snd cells -> chunks c' !! k = Some ch' ->
                          unloaded ch')
        /\ (forall k ch', k ∈ map fst cells -> chunks c' !! k = Some ch' ->
                          loaded ch'))
    /\ (forall k,
           k ∈ map fst cells
           <-> exists a b,
               a ∈ offsets R d /\ b ∈ offsets R d
               /\ k = cellKey i (Num.add currentAxis
                                         (Num.mul direction (lastChunkDist c)))
                              a b (chunkCentroid c))
    /\ (forall k,
           k ∈ map snd cells
           <-> exists a b,
               a ∈ offsets R d /\ b ∈ offsets R d
               /\ k = cellKey i (Num.sub previousAxis
                                         (Num.mul direction (lastChunkDist c)))
                              a b (chunkCentroid c))
    /\ (exists c0 c1,
           result sweepStart = Some c0 /\ result sweepEnd = Some c1
           /\ chunkCentroid c0 = key3 0 0 0
           /\ chunkCentroid c1 = key3 10 0 0
           /\ onlyShellsAffected c0 c1 0 (nz (-10)) (nz 20)
           /\ key3 (-10) 0 0 ∈ activeChunks c0
           /\ (key3 (-10) 0 0 ∉ activeChunks c1)
           /\ sphereMesh <$> (chunks c0 !! key3 (-10) 0 0) = Some (Some 1%nat)
           /\ chunks c1 !! key3 (-10) 0 0
              = (fun ch => Chunk (points ch) (memberCounts ch) (outlierCount ch)
                                 None None)
                  <$> chunks c0 !! key3 (-10) 0 0
           /\ (key3 20 0 0 ∉ activeChunks c0)
           /\ key3 20 0 0 ∈ activeChunks c1
           /\ sphereMesh <$> (chunks c0 !! key3 20 0 0) = Some None
           /\ octMesh <$> (chunks c0 !! key3 20 0 0) = Some None
           /\ sphereMesh <$> (chunks c1 !! key3 20 0 0) = Some (Some 2%nat)
           /\ octMesh <$> (chunks c1 !! key3 20 0 0) = Some (Some 3%nat)
           /\ chunks c1 !! key3 0 0 0 = chunks c0 !! key3 0 0 0).
Proof.
  intros FromHexString cfg c cur i R fuel d x y Hi Hd Hfuel Hdiam Hrange Hlast
         Hx Hy Hne Hwf currentAxis previousAxis direction cells.
  assert (HL : lastChunkDist c = Fin (qz (Z.of_nat R) * d)%Qc)
    by (by rewrite Hlast, Hrange, Hdiam).
  assert (Hcells :
            cells
            = shellCells R d i (chunkCentroid c)
                (Fin (x + (if bool_decide (y < x)%Qc then qz 1 else qz (-1))
                          * (qz (Z.of_nat R) * d))%Qc)
                (Fin (y - (if bool_decide (y < x)%Qc then qz 1 else qz (-1))
                          * (qz (Z.of_nat R) * d))%Qc)).
  { unfold cells, direction, currentAxis, previousAxis.
    rewrite Hx, Hy, HL. unfold Num.gtb. cbn [Num.ltb].
    by destruct (bool_decide (y < x)%Qc). }
  split; [| split; [apply shellCells_fst | split; [apply shellCells_snd |]]].
  - destruct (sweepAxis_effect FromHexString cfg c cur i R fuel d x y
                               Hi Hd Hfuel Hdiam HL Hx Hy Hne Hwf)
      as (c' & Hsweep & _ & _ & _ & Hcc & Hact & _ & Hev & Hfr & Hun & Hlo).
    rewrite <- Hcells in Hact, Hfr, Hun, Hlo.
    exists c'. repeat (split; [assumption |]). assumption.
  - pose proof scenario_checked as H. unfold scenarioCheck in H.
    destruct sweepStart as [c0 | |] eqn:E0; [| done | done].
    destruct sweepEnd as [c1 | |] eqn:E1; [| done | done].
    pose proof (scenario_shells c0 c1 E0 E1) as Hshell.
    repeat (apply andb_prop in H; destruct H as [H ?]).
    repeat match goal with
           | B : bool_decide _ = true |- _ => apply bool_decide_eq_true_1 in B
           end.
    match goal with A1 : activeChunks c1 = _, A0 : activeChunks c0 = _ |- _ =>
      rename A1 into Hact1; rename A0 into Hact0 end.
    exists c0, c1. split; [done |]. split; [done |].
    split; [assumption |]. split; [assumption |]. split; [exact Hshell |].
    split; [rewrite Hact0; right; left |].
    split; [rewrite Hact1; apply (bool_decide_eq_false_1 _); vm_compute; reflexivity |].
    split; [assumption |]. split; [assumption |].
    split; [rewrite Hact0; apply (bool_decide_eq_false_1 _); vm_compute; reflexivity |].
    split; [rewrite Hact1; apply (bool_decide_eq_true_1 _); vm_compute; reflexivity |].
    repeat (split; [assumption |]). assumption.
Qed.

Lemma sweepAxis_shell_witness :
  exists c',
    sweepAxis whiteHex 4 (plainConfig 10 1) (key3 10 0 0) emptyController 0
    = Done c'
    /\ chunkCentroid c' = key3 0 0 0
    /\ length (activeChunks c') = 9%nat.
Proof.
  assert (Hpos : (0 < qz 10)%Qc) by reflexivity.
  assert (Hne : qz 10 <> qz 0) by (intros H; discriminate H).
  assert (Hwf : allWf (chunks emptyController))
    by (intros k ch H; discriminate H).
  destruct (sweepAxis_shell whiteHex (plainConfig 10 1) emptyController
              (key3 10 0 0) 0 1 4 (qz 10) (qz 10) (qz 0)
              (le_n_S _ _ (le_S _ _ (le_S _ _ (le_n 0)))) Hpos
              (le_n 4) eq_refl eq_refl eq_refl eq_refl eq_refl Hne Hwf)
    as [(c' & Hsweep & Hcc & Hact & _) _].
  exists c'. split; [exact Hsweep |]. split; [exact Hcc |].
  rewrite Hact. reflexivity.
Defined.

(** ** The streaming invariant *)

(** *** Arithmetic on the grid *)

Lemma this_qz (z : Z) : this (qz z) = inject_Z z.
Proof. reflexivity. Qed.

Lemma this_div (x y : Qc) : (this (x / y) == this x / this y)%Q.
Proof.
  unfold Qcdiv, Qcmult, Qcinv, Q2Qc. cbn [this].
  rewrite !Qred_correct. reflexivity.
Qed.

Lemma this_half : (this qhalf == 1 # 2)%Q.
Proof. reflexivity. Qed.

Lemma Qc_eq_this (x y : Qc) : (this x == this y)%Q -> x = y.
Proof. apply Qc_is_canon. Qed.

Lemma this_minus_opp (x : Qc) : (this (- x) == - this x)%Q.
Proof. unfold Qcopp, Q2Qc. cbn [this]. apply Qred_correct. Qed.

Ltac push_this :=
  repeat first [rewrite this_mult | rewrite this_plus | rewrite this_minus
               | rewrite this_minus_opp | rewrite this_div | rewrite this_qz
               | rewrite this_half].

Ltac push_this_in H :=
  repeat first [rewrite this_mult in H | rewrite this_plus in H
               | rewrite this_minus in H | rewrite this_minus_opp in H
               | rewrite this_div in H | rewrite this_qz in H
               | rewrite this_half in H].












(** *** The centroid of a position inside a cell *)




(** *** The keys of a shell *)












(** *** The active list across a sweep *)






(** *** Cells in range, before and after a step to a neighbouring cell *)





(** *** One tick *)

Section Streaming.

Variable FromHexString : string -> color4.
Variable cfg : config.


(** *** The initial build *)



(** *** A path of viewpoints *)



End Streaming.


(** ** The active list and the sight test *)







(** ** The callback along arbitrary paths *)

Section AnyPath.

Variable FromHexString : string -> color4.
Variable cfg : config.

Local Abbreviation cell := (cellStep FromHexString cfg).

(** *** A property of the world that every turn of the inner loop keeps *)

Section Kept.

Variable Inv : world -> Prop.
Hypothesis cell_kept :
  forall w kA kD, Inv w -> exists w', cell w (kA, kD) = Done w' /\ Inv w'.

Lemma cells_kept (cells : list (vec3 * vec3)) :
  forall w, Inv w -> exists w', foldlM cell w cells = Done w' /\ Inv w'.
Proof.
  induction cells as [| [kA kD] cells IH]; intros w Hw.
  - by exists w.
  - destruct (cell_kept w kA kD Hw) as (w1 & H1 & Hw1).
    destruct (IH w1 Hw1) as (w' & Hrun & Hw').
    exists w'. cbn [foldlM]. rewrite H1. by cbn [obind].
Qed.

Lemma sweepAxis_kept (c : controller) (cur : vec3) (i R fuel : nat) (d : Qc) :
  (i < 3)%nat -> (0 < d)%Qc -> (2 * R + 1 < fuel)%nat ->
  chunkDiameter c = Fin d ->
  lastChunkDist c = Fin (qz (Z.of_nat R) * d)%Qc ->
  Inv (worldOf c) ->
  exists c',
    sweepAxis FromHexString fuel cfg cur c i = Done c'
    /\ chunkDiameter c' = chunkDiameter c
    /\ chunkLoadRange c' = chunkLoadRange c
    /\ lastChunkDist c' = lastChunkDist c
    /\ chunkCentroid c' = chunkCentroid c
    /\ Inv (worldOf c').
Proof.
  intros Hi Hd Hfuel Hdiam Hlast Hw.
  destruct (Num.neb (vget cur i) (vget (chunkCentroid c) i)) eqn:Hne.
  - set (direction := if Num.gtb (vget cur i) (vget (chunkCentroid c) i)
                      then nz 1 else nz (-1)).
    destruct (cells_kept
                (shellCells R d i (chunkCentroid c)
                   (Num.add (vget cur i) (Num.mul direction (lastChunkDist c)))
                   (Num.sub (vget (chunkCentroid c) i)
                            (Num.mul direction (lastChunkDist c))))
                (worldOf c) Hw)
      as (w' & Hrun & Hw').
    destruct (sweepAxis_cells FromHexString cfg c R d fuel i cur w'
                              Hi Hd Hfuel Hdiam Hlast Hne Hrun)
      as (c' & Hsweep & Hworld & Hd' & Hr' & Hl' & Hcc').
    exists c'. rewrite Hworld. done.
  - exists c. unfold sweepAxis. rewrite Hne. done.
Qed.

Lemma tick_kept (c : controller) (camera : vec3) (R fuel : nat) (d : Qc) :
  (0 < d)%Qc -> (2 * R + 1 < fuel)%nat ->
  chunkDiameter c = Fin d ->
  lastChunkDist c = Fin (qz (Z.of_nat R) * d)%Qc ->
  Inv (worldOf c) ->
  exists c',
    tick FromHexString fuel cfg c camera = Done c'
    /\ chunkDiameter c' = chunkDiameter c
    /\ chunkLoadRange c' = chunkLoadRange c
    /\ lastChunkDist c' = lastChunkDist c
    /\ chunkCentroid c' = getChunkCentroid camera (chunkDiameter c)
    /\ Inv (worldOf c').
Proof.
  intros Hd Hfuel Hdiam Hlast Hw. unfold tick.
  set (cur := getChunkCentroid camera (chunkDiameter c)).
  destruct (sweepAxis_kept c cur 0 R fuel d) as (c1 & H1 & Hd1 & Hr1 & Hl1 & _ & Hw1);
    [lia | done | done | done | done | done |].
  destruct (sweepAxis_kept c1 cur 1 R fuel d) as (c2 & H2 & Hd2 & Hr2 & Hl2 & _ & Hw2);
    [lia | done | done | congruence | congruence | done |].
  destruct (sweepAxis_kept c2 cur 2 R fuel d) as (c3 & H3 & Hd3 & Hr3 & Hl3 & _ & Hw3);
    [lia | done | done | congruence | congruence | done |].
  cbn [foldlM]. rewrite H1. cbn [obind]. rewrite H2. cbn [obind].
  rewrite H3. cbn [obind]. eexists. split; [reflexivity |].
  cbn [chunkDiameter chunkLoadRange lastChunkDist chunkCentroid].
  split; [congruence |]. split; [congruence |]. split; [congruence |].
  split; [done |]. exact Hw3.
Qed.

Lemma run_kept (R fuel : nat) (d : Qc) (path : list vec3) :
  (0 < d)%Qc -> (2 * R + 1 < fuel)%nat ->
  forall c : controller,
    chunkDiameter c = Fin d ->
    lastChunkDist c = Fin (qz (Z.of_nat R) * d)%Qc ->
    Inv (worldOf c) ->
    exists c',
      run FromHexString fuel cfg c path = Done c'
      /\ chunkDiameter c' = chunkDiameter c
      /\ chunkLoadRange c' = chunkLoadRange c
      /\ lastChunkDist c' = lastChunkDist c
      /\ chunkCentroid c'
         = match last path with
           | Some p => getChunkCentroid p (Fin d)
           | None => chunkCentroid c
           end
      /\ Inv (worldOf c').
Proof.
  intros Hd Hfuel. induction path as [| p path IH]; intros c Hdiam Hlast Hw.
  - by exists c.
  - destruct (tick_kept c p R fuel d Hd Hfuel Hdiam Hlast Hw)
      as (c1 & Htick & Hd1 & Hr1 & Hl1 & Hcc1 & Hw1).
    destruct (IH c1) as (c' & Hrun & Hd' & Hr' & Hl' & Hcc' & Hw');
      [congruence | congruence | done |].
    exists c'. unfold run in *. cbn [foldlM]. rewrite Htick. cbn [obind].
    split; [exact Hrun |]. split; [congruence |]. split; [congruence |].
    split; [congruence |]. split; [| exact Hw'].
    rewrite last_cons, Hcc'. destruct (last path); [done |].
    by rewrite Hcc1, Hdiam.
Qed.

End Kept.

End AnyPath.

(** *** The scene and the chunk map across a call of [loadChunk] *)

Lemma retired_lookup (ch : chunk) (sc : scene) (h : nat) :
  (~ holds ch h ->
   dispose (octMesh ch) (dispose (sphereMesh ch) sc) !! h = sc !! h)
  /\ (holds ch h ->
      forall me, dispose (octMesh ch) (dispose (sphereMesh ch) sc) !! h = Some me ->
                 disposed me = true).
Proof.
  rewrite !dispose_lookup. unfold holds. split.
  - intros Hn. rewrite !decide_False by tauto. by destruct (sc !! h).
  - intros Hh me. destruct (sc !! h) as [x |]; [| done]. cbn.
    destruct (decide (octMesh ch = Some h)), (decide (sphereMesh ch = Some h));
      intros [= <-]; try reflexivity. tauto.
Qed.

Section Tidy.

Variable FromHexString : string -> color4.
Variable cfg : config.

Local Abbreviation inst := (installed FromHexString cfg).
Local Abbreviation normals c := (length (normalTagged (taggedPoints c))).
Local Abbreviation outliers c := (length (outlierTagged (taggedPoints c))).

(** The handles after an activation. *)
Lemma installed_handles_new (sc : scene) (ch : chunk) :
  (is_Some (sphereMesh ch) -> (0 < normals ch)%nat) ->
  (is_Some (octMesh ch) -> (0 < outliers ch)%nat) ->
  sphereMesh (snd (inst sc ch))
  = (if (0 <? normals ch)%nat then Some (length sc) else None)
  /\ octMesh (snd (inst sc ch))
     = (if (0 <? outliers ch)%nat
        then Some (length sc + (if (0 <? normals ch)%nat then 1 else 0))%nat
        else None).
Proof.
  intros Hs Ho. unfold installed. rewrite !dispose_length.
  destruct (0 <? normals ch)%nat eqn:En, (0 <? outliers ch)%nat eqn:Eo;
    cbn [snd sphereMesh octMesh]; rewrite ?length_app, ?dispose_length;
    cbn [length].
  - done.
  - split; [done |]. destruct (octMesh ch) as [h |]; [| done].
    apply Nat.ltb_ge in Eo. specialize (Ho ltac:(by eexists)). lia.
  - split; [| by rewrite Nat.add_0_r].
    destruct (sphereMesh ch) as [h |]; [| done].
    apply Nat.ltb_ge in En. specialize (Hs ltac:(by eexists)). lia.
  - split.
    + destruct (sphereMesh ch) as [h |]; [| done].
      apply Nat.ltb_ge in En. specialize (Hs ltac:(by eexists)). lia.
    + destruct (octMesh ch) as [h |]; [| done].
      apply Nat.ltb_ge in Eo. specialize (Ho ltac:(by eexists)). lia.
Qed.

(** The meshes that were there before an activation. *)
Lemma installed_before (sc : scene) (ch : chunk) (h : nat) :
  (is_Some (sphereMesh ch) -> (0 < normals ch)%nat) ->
  (is_Some (octMesh ch) -> (0 < outliers ch)%nat) ->
  (h < length sc)%nat ->
  fst (inst sc ch) !! h
  = dispose (octMesh ch) (dispose (sphereMesh ch) sc) !! h.
Proof.
  intros Hs Ho Hh. rewrite installed_old by done.
  destruct (installed_handles_new sc ch Hs Ho) as [E1 E2].
  rewrite E1, E2, !dispose_lookup.
  rewrite (decide_False (P := (if (0 <? outliers ch)%nat then _ else _) = Some h)).
  2: { destruct (0 <? outliers ch)%nat; [| done]. intros [= E]. lia. }
  rewrite (decide_False (P := (if (0 <? normals ch)%nat then _ else _) = Some h)).
  2: { destruct (0 <? normals ch)%nat; [| done]. intros [= E]. lia. }
  destruct (sc !! h) as [x |]; [| done]. cbn.
  by destruct (decide (octMesh ch = Some h)), (decide (sphereMesh ch = Some h)).
Qed.

(** The meshes an activation creates are in the scene, not disposed. *)
Lemma installed_fresh (sc : scene) (ch : chunk) (h : nat) :
  handlesValid sc ch ->
  (is_Some (sphereMesh ch) -> (0 < normals ch)%nat) ->
  (is_Some (octMesh ch) -> (0 < outliers ch)%nat) ->
  holds (snd (inst sc ch)) h ->
  (length sc <= h)%nat
  /\ exists me, fst (inst sc ch) !! h = Some me /\ disposed me = false.
Proof.
  intros Hv Hs Ho Hh.
  destruct (installed_handles_new sc ch Hs Ho) as [E1 E2].
  destruct Hh as [Hh | Hh].
  - rewrite E1 in Hh. destruct (0 <? normals ch)%nat eqn:En; [| done].
    injection Hh as <-. apply Nat.ltb_lt in En.
    destruct (installed_sphere FromHexString cfg sc ch Hv En) as [_ Hm].
    split; [lia |]. eexists. split; [exact Hm | done].
  - rewrite E2 in Hh. destruct (0 <? outliers ch)%nat eqn:Eo; [| done].
    injection Hh as <-. apply Nat.ltb_lt in Eo.
    destruct (installed_oct FromHexString cfg sc ch Hv Eo) as [_ Hm].
    split; [lia |]. eexists. split; [exact Hm | done].
Qed.

(** Every mesh beyond the old scene is held by the activated chunk. *)
Lemma installed_beyond (sc : scene) (ch : chunk) (h : nat) :
  (is_Some (sphereMesh ch) -> (0 < normals ch)%nat) ->
  (is_Some (octMesh ch) -> (0 < outliers ch)%nat) ->
  (length sc <= h)%nat -> is_Some (fst (inst sc ch) !! h) ->
  holds (snd (inst sc ch)) h.
Proof.
  intros Hs Ho Hge Hin. apply lookup_lt_is_Some in Hin.
  rewrite installed_length in Hin.
  destruct (installed_handles_new sc ch Hs Ho) as [E1 E2].
  unfold holds. rewrite E1, E2.
  destruct (0 <? normals ch)%nat, (0 <? outliers ch)%nat; cbn in Hin.
  - destruct (decide (h = length sc)) as [-> | Hne]; [by left |].
    right. f_equal. lia.
  - left. f_equal. lia.
  - right. f_equal. lia.
  - lia.
Qed.

(** Replacing the record of a chunk by one that holds only new meshes,
    in a scene where the old meshes of the chunk are disposed. *)
Lemma tidy_replace (base : nat) (sc sc' : scene) (m : gmap vec3 chunk)
    (key : vec3) (ch ch' : chunk) :
  tidy base sc m -> m !! key = Some ch ->
  chunkWf ch' ->
  (length sc <= length sc')%nat ->
  (forall h, (h < length sc)%nat ->
             sc' !! h = dispose (octMesh ch) (dispose (sphereMesh ch) sc) !! h) ->
  (forall h, holds ch' h ->
             (length sc <= h)%nat
             /\ exists me, sc' !! h = Some me /\ disposed me = false) ->
  (forall h, (length sc <= h)%nat -> is_Some (sc' !! h) -> holds ch' h) ->
  (forall h, sphereMesh ch' = Some h -> octMesh ch' <> Some h) ->
  ((is_Some (sphereMesh ch') -> (0 < normals ch')%nat)
   /\ (is_Some (octMesh ch') -> (0 < outliers ch')%nat)) ->
  tidy base sc' (<[key := ch']> m)
  /\ (forall h, (h < base)%nat -> sc' !! h = sc !! h).
Proof.
  intros [Hwf Hbase Hlive Hown Hapart Hnoleak Hpoints] Hkey
         Hwf' Hlen Hold Hnew Hbeyond Hapart' Hpoints'.
  assert (Hother : forall k c h, k <> key -> m !! k = Some c -> holds c h ->
                                 (h < length sc)%nat /\ sc' !! h = sc !! h).
  { intros k c h Hne Hk Hh.
    destruct (Hlive k c h Hk Hh) as (_ & me & Hme & _).
    pose proof (lookup_lt_Some _ _ _ Hme) as Hlt. split; [done |].
    rewrite Hold by done. apply retired_lookup.
    intros Hh'. apply Hne. by apply (Hown k key c ch h). }
  split; [split |].
  - intros k c Hc. destruct (decide (k = key)) as [-> | Hne].
    + rewrite lookup_insert_eq in Hc. by injection Hc as <-.
    + rewrite lookup_insert_ne in Hc by done. by apply (Hwf k).
  - lia.
  - intros k c h Hc Hh. destruct (decide (k = key)) as [-> | Hne].
    + rewrite lookup_insert_eq in Hc. injection Hc as <-.
      destruct (Hnew h Hh) as [Hge Hme]. split; [lia | done].
    + rewrite lookup_insert_ne in Hc by done.
      destruct (Hother k c h Hne Hc Hh) as [_ E]. rewrite E.
      by apply (Hlive k c h).
  - intros k k' c c' h Hc Hc' Hh Hh'.
    destruct (decide (k = key)) as [-> | Hne];
      destruct (decide (k' = key)) as [-> | Hne']; [done | | |].
    + rewrite lookup_insert_eq in Hc. injection Hc as <-.
      rewrite lookup_insert_ne in Hc' by done.
      destruct (Hnew h Hh) as [Hge _].
      destruct (Hother k' c' h Hne' Hc' Hh') as [Hlt _]. lia.
    + rewrite lookup_insert_eq in Hc'. injection Hc' as <-.
      rewrite lookup_insert_ne in Hc by done.
      destruct (Hnew h Hh') as [Hge _].
      destruct (Hother k c h Hne Hc Hh) as [Hlt _]. lia.
    + rewrite lookup_insert_ne in Hc, Hc' by done.
      by apply (Hown k k' c c' h).
  - intros k c h Hc. destruct (decide (k = key)) as [-> | Hne].
    + rewrite lookup_insert_eq in Hc. injection Hc as <-. apply Hapart'.
    + rewrite lookup_insert_ne in Hc by done. by apply (Hapart k).
  - intros h me Hme Hge Hlivem.
    destruct (decide (h < length sc)%nat) as [Hlt | Hnlt].
    + rewrite Hold in Hme by done.
      destruct (retired_lookup ch sc h) as [Hkeep Hgone].
      assert (Hnh : ~ holds ch h).
      { intros Hh. specialize (Hgone Hh me Hme). congruence. }
      rewrite (Hkeep Hnh) in Hme.
      destruct (Hnoleak h me Hme Hge Hlivem) as (k & c & Hc & Hh).
      exists k, c. split; [| done]. rewrite lookup_insert_ne; [done |].
      intros <-. rewrite Hkey in Hc. injection Hc as <-. done.
    + exists key, ch'. rewrite lookup_insert_eq. split; [done |].
      apply Hbeyond; [lia | by eexists].
  - intros k c Hc. destruct (decide (k = key)) as [-> | Hne].
    + rewrite lookup_insert_eq in Hc. by injection Hc as <-.
    + rewrite lookup_insert_ne in Hc by done. by apply (Hpoints k).
  - intros h Hh. rewrite Hold by lia. apply retired_lookup.
    intros Hheld. destruct (Hlive key ch h Hkey Hheld) as [Hge _]. lia.
Qed.

Lemma activate_tidy (base : nat) (sc : scene) (m : gmap vec3 chunk)
    (key : vec3) (ch : chunk) :
  tidy base sc m -> m !! key = Some ch ->
  tidy base (fst (inst sc ch)) (<[key := snd (inst sc ch)]> m)
  /\ (forall h, (h < base)%nat -> fst (inst sc ch) !! h = sc !! h).
Proof.
  intros Ht Hkey.
  destruct (tidy_points _ _ _ Ht key ch Hkey) as [Hs Ho].
  assert (Hv : handlesValid sc ch).
  { split; intros h Hh.
    - destruct (tidy_live _ _ _ Ht key ch h Hkey) as (_ & me & Hme & _);
        [by left |]. by apply lookup_lt_Some in Hme.
    - destruct (tidy_live _ _ _ Ht key ch h Hkey) as (_ & me & Hme & _);
        [by right |]. by apply lookup_lt_Some in Hme. }
  destruct (installed_handles_new sc ch Hs Ho) as [E1 E2].
  pose proof (installed_cells FromHexString cfg sc ch) as (Hp & Hm & Hc).
  apply (tidy_replace base sc _ m key ch _ Ht Hkey).
  - destruct (tidy_wf _ _ _ Ht key ch Hkey) as [Hw1 Hw2].
    unfold chunkWf. by rewrite Hp, Hm, Hc.
  - rewrite installed_length. lia.
  - intros h Hh. by apply installed_before.
  - intros h Hh. by apply installed_fresh.
  - intros h Hge Hin. by apply installed_beyond.
  - intros h. rewrite E1, E2.
    destruct (0 <? normals ch)%nat; [| done]. intros [= <-].
    destruct (0 <? outliers ch)%nat; [| done]. intros [= E]. lia.
  - rewrite installed_tagged, E1, E2. split; intros [h Hh].
    + destruct (0 <? normals ch)%nat eqn:En; [| done]. by apply Nat.ltb_lt.
    + destruct (0 <? outliers ch)%nat eqn:Eo; [| done]. by apply Nat.ltb_lt.
Qed.

Lemma deactivate_tidy (base : nat) (sc : scene) (m : gmap vec3 chunk)
    (key : vec3) (ch : chunk) :
  tidy base sc m -> m !! key = Some ch ->
  tidy base (fst (deactivate sc ch)) (<[key := snd (deactivate sc ch)]> m)
  /\ (forall h, (h < base)%nat -> fst (deactivate sc ch) !! h = sc !! h).
Proof.
  intros Ht Hkey.
  change (deactivate sc ch)
    with (dispose (octMesh ch) (dispose (sphereMesh ch) sc),
          Chunk (points ch) (memberCounts ch) (outlierCount ch) None None).
  cbn [fst snd].
  apply (tidy_replace base sc _ m key ch _ Ht Hkey).
  - exact (tidy_wf _ _ _ Ht key ch Hkey).
  - by rewrite !dispose_length.
  - done.
  - intros h [Hh | Hh]; discriminate Hh.
  - intros h Hge Hin. apply lookup_lt_is_Some in Hin.
    rewrite !dispose_length in Hin. lia.
  - intros h Hh. discriminate Hh.
  - split; intros [h Hh]; discriminate Hh.
Qed.

(** A call of [loadChunk] through the map keeps scene and map together,
    and leaves the meshes of others alone. *)
Lemma loadChunkAt_tidy (base : nat) (sc : scene) (m : gmap vec3 chunk)
    (key : vec3) (state : bool) :
  tidy base sc m ->
  exists sc' m',
    loadChunkAt FromHexString cfg sc m key state = Done (sc', m')
    /\ tidy base sc' m'
    /\ evolved m m'
    /\ (forall k, k <> key -> m' !! k = m !! k)
    /\ (forall ch', m' !! key = Some ch' ->
                    if state then loaded ch' else unloaded ch')
    /\ (forall h, (h < base)%nat -> sc' !! h = sc !! h).
Proof.
  intros Ht.
  destruct (loadChunkAt_spec FromHexString cfg sc m key state (tidy_wf _ _ _ Ht))
    as (sc' & m' & Hload & _ & Hev & Hfr & Hst).
  exists sc', m'. split; [exact Hload |].
  enough (tidy base sc' m' /\ (forall h, (h < base)%nat -> sc' !! h = sc !! h))
    as [H1 H2] by done.
  unfold loadChunkAt in Hload. destruct (m !! key) as [ch |] eqn:Ek.
  - destruct state.
    + rewrite loadChunk_installed in Hload
        by exact (tidy_wf _ _ _ Ht key ch Ek).
      cbn [obind] in Hload. injection Hload as <- <-.
      by apply activate_tidy.
    + cbn [loadChunk obind] in Hload. injection Hload as <- <-.
      by apply deactivate_tidy.
  - injection Hload as <- <-. done.
Qed.

End Tidy.

(** *** What every turn of the sweep keeps *)

Lemma unloaded_no_geometry (ch : chunk) : unloaded ch -> ~ hasGeometry ch.
Proof. intros [H1 H2] [[h Hh] | [h Hh]]; congruence. Qed.

Section KeptWorld.

Variable FromHexString : string -> color4.
Variable cfg : config.

Lemma cellStep_kept (sc0 : scene) (m0 : gmap vec3 chunk) (w : world)
    (kA kD : vec3) :
  kept sc0 m0 w ->
  exists w', cellStep FromHexString cfg w (kA, kD) = Done w' /\ kept sc0 m0 w'.
Proof.
  destruct w as [[sc m] act]. intros (Ht & Hlisted & Hev & Hframe).
  destruct (loadChunkAt_tidy FromHexString cfg _ sc m kA true Ht)
    as (sc1 & m1 & H1 & Ht1 & Hev1 & Hfr1 & _ & Hframe1).
  destruct (loadChunkAt_tidy FromHexString cfg _ sc1 m1 kD false Ht1)
    as (sc2 & m2 & H2 & Ht2 & Hev2 & Hfr2 & Hst2 & Hframe2).
  exists (sc2, m2, removeFirst kD (act ++ [kA])). split.
  - unfold cellStep. cbn [fst snd]. rewrite H1. cbn [obind fst snd].
    rewrite H2. done.
  - split; [exact Ht2 |]. split; [| split].
    + intros k ch Hk Hg. destruct (decide (k = kD)) as [-> | HneD].
      * exfalso. by apply (unloaded_no_geometry ch (Hst2 ch Hk)).
      * apply removeFirst_other; [done |]. apply elem_of_app.
        destruct (decide (k = kA)) as [-> | HneA].
        -- right. by apply list_elem_of_singleton.
        -- left. apply (Hlisted k ch); [| done].
           by rewrite <- Hfr1, <- Hfr2.
    + apply (evolved_trans m0 m m2); [done |].
      by apply (evolved_trans m m1 m2).
    + intros h Hh. by rewrite Hframe2, Hframe1, Hframe.
Qed.

(** *** The build and the first activations *)

Lemma activateAll_tidy (base : nat) (keys : list vec3) :
  forall (sc : scene) (m : gmap vec3 chunk),
    tidy base sc m ->
    exists sc' m',
      foldlM (fun w key => loadChunkAt FromHexString cfg (fst w) (snd w) key true)
             (sc, m) keys
      = Done (sc', m')
      /\ tidy base sc' m' /\ evolved m m'
      /\ (forall k, k ∉ keys -> m' !! k = m !! k)
      /\ (forall h, (h < base)%nat -> sc' !! h = sc !! h).
Proof.
  induction keys as [| key keys IH]; intros sc m Ht.
  - exists sc, m. split; [done |]. split; [done |].
    split; [apply evolved_refl | done].
  - destruct (loadChunkAt_tidy FromHexString cfg base sc m key true Ht)
      as (sc1 & m1 & H1 & Ht1 & Hev1 & Hfr1 & _ & Hframe1).
    destruct (IH sc1 m1 Ht1) as (sc' & m' & Hrun & Ht' & Hev' & Hfr' & Hframe').
    exists sc', m'. cbn [foldlM fst snd]. rewrite H1. cbn [obind].
    split; [exact Hrun |]. split; [done |].
    split; [by apply (evolved_trans m m1 m') |]. split.
    + intros k Hk. apply not_elem_of_cons in Hk as [Hne Hk].
      by rewrite Hfr', Hfr1.
    + intros h Hh. by rewrite Hframe', Hframe1.
Qed.

Lemma built_tidy (data : dataset) (pos : vec3) (d r : num) (sc : scene) :
  tidy (length sc) sc (fst (calculateChunks cfg data pos d r)).
Proof.
  assert (Hnone : forall k ch h,
             fst (calculateChunks cfg data pos d r) !! k = Some ch ->
             ~ holds ch h).
  { intros k ch h Hk [Hh | Hh];
      destruct (calculateChunks_wf cfg data pos d r k ch Hk) as (_ & H1 & H2);
      congruence. }
  split.
  - intros k ch Hk. by apply (calculateChunks_wf cfg data pos d r k).
  - done.
  - intros k ch h Hk Hh. by destruct (Hnone k ch h Hk).
  - intros k k' ch ch' h Hk _ Hh. by destruct (Hnone k ch h Hk).
  - intros k ch h Hk Hs. destruct (Hnone k ch h Hk). by left.
  - intros h me Hme Hge. apply lookup_lt_Some in Hme. lia.
  - intros k ch Hk.
    destruct (calculateChunks_wf cfg data pos d r k ch Hk) as (_ & H1 & H2).
    rewrite H1, H2. split; by intros [h Hh].
Qed.

Lemma plotData_kept (data : dataset) (sc : scene) (camera : vec3) :
  let d := cfgChunkDiameter cfg in
  let r := cfgChunkLoadRange cfg in
  exists c0,
    plotData FromHexString cfg data sc camera = Done c0
    /\ chunkDiameter c0 = d
    /\ chunkLoadRange c0 = r
    /\ lastChunkDist c0 = Num.mul r d
    /\ kept sc (fst (calculateChunks cfg data camera d r)) (worldOf c0).
Proof.
  intros d r. unfold plotData. fold d r.
  pose proof (built_tidy data camera d r sc) as Ht0.
  assert (Hbare : forall k ch,
             fst (calculateChunks cfg data camera d r) !! k = Some ch ->
             ~ hasGeometry ch).
  { intros k ch Hk.
    destruct (calculateChunks_wf cfg data camera d r k ch Hk) as (_ & H1 & H2).
    by apply unloaded_no_geometry. }
  destruct (calculateChunks cfg data camera d r) as [chunks0 active0] eqn:E.
  cbn [fst] in Ht0, Hbare.
  destruct (activateAll_tidy (length sc) active0 sc chunks0 Ht0)
    as (sc' & m' & Hrun & Ht' & Hev & Hfr & Hframe).
  rewrite Hrun. cbn [obind fst snd]. eexists. split; [reflexivity |].
  cbn [chunkDiameter chunkLoadRange lastChunkDist worldOf theScene chunks
       activeChunks kept].
  split; [done |]. split; [done |]. split; [done |].
  split; [exact Ht' |]. split; [| split; [exact Hev | exact Hframe]].
  intros k ch Hk Hg. destruct (decide (k ∈ active0)) as [Hin | Hnin]; [done |].
  exfalso. rewrite Hfr in Hk by done. by apply (Hbare k ch).
Qed.

(** The build, the first activations and the callback along a path. *)
Lemma streamed_kept (data : dataset) (sc : scene) (camera : vec3)
    (path : list vec3) (d : Qc) (R fuel : nat) :
  (0 < d)%Qc ->
  cfgChunkDiameter cfg = Fin d ->
  cfgChunkLoadRange cfg = nz (Z.of_nat R) ->
  (2 * R + 1 < fuel)%nat ->
  exists c0 c,
    plotData FromHexString cfg data sc camera = Done c0
    /\ run FromHexString fuel cfg c0 path = Done c
    /\ chunkDiameter c = cfgChunkDiameter cfg
    /\ chunkLoadRange c = cfgChunkLoadRange cfg
    /\ lastChunkDist c
       = Num.mul (cfgChunkLoadRange cfg) (cfgChunkDiameter cfg)
    /\ chunkCentroid c
       = getChunkCentroid (default camera (last path)) (cfgChunkDiameter cfg)
    /\ kept sc (fst (calculateChunks cfg data camera (cfgChunkDiameter cfg)
                                     (cfgChunkLoadRange cfg)))
            (worldOf c).
Proof.
  intros Hd Hdiam Hrange Hfuel.
  destruct (plotData_kept data sc camera) as (c0 & Hplot & Hd0 & Hr0 & Hl0 & Hk0).
  destruct (plotData_spec FromHexString cfg data sc camera)
    as (c0' & Hplot' & _ & _ & _ & Hcc0 & _).
  rewrite Hplot in Hplot'. injection Hplot' as <-.
  destruct (run_kept FromHexString cfg
              (kept sc (fst (calculateChunks cfg data camera
                               (cfgChunkDiameter cfg) (cfgChunkLoadRange cfg))))
              (cellStep_kept _ _) R fuel d path Hd Hfuel c0)
    as (c & Hrun & Hd' & Hr' & Hl' & Hcc' & Hk'); [congruence | | done |].
  { by rewrite Hl0, Hdiam, Hrange. }
  exists c0, c. split; [done |]. split; [done |].
  split; [congruence |]. split; [congruence |]. split; [congruence |].
  split; [| done].
  rewrite Hcc', Hdiam. destruct (last path); [done |]. by rewrite Hcc0, Hdiam.
Qed.

End KeptWorld.

(** *** Along any path *)



(** X2: at the start and after every callback, along any path, a chunk
    that holds geometry (a sphere mesh or an octahedron mesh) has its key in
    the active list. *)
Theorem geometry_only_on_listed_chunks :
  forall (FromHexString : string -> color4) (cfg : config) (data : dataset)
         (sc : scene) (camera : vec3) (path : list vec3)
         (d : Qc) (R fuel : nat),
    (0 < d)%Qc ->
    cfgChunkDiameter cfg = Fin d ->
    cfgChunkLoadRange cfg = nz (Z.of_nat R) ->
    (2 * R + 1 < fuel)%nat ->
    exists c0 c,
      plotData FromHexString cfg data sc camera = Done c0
      /\ run FromHexString fuel cfg c0 path = Done c
      /\ forall k ch,
          chunks c !! k = Some ch ->
          is_Some (sphereMesh ch) \/ is_Some (octMesh ch) ->
          k ∈ activeChunks c.
Proof.
  intros FromHexString cfg data sc camera path d R fuel Hd Hdiam Hrange Hfuel.
  destruct (streamed_kept FromHexString cfg data sc camera path d R fuel
                          Hd Hdiam Hrange Hfuel)
    as (c0 & c & Hplot & Hrun & _ & _ & _ & _ & Hk).
  exists c0, c. unfold kept, worldOf in Hk. destruct Hk as (_ & Hl & _).
  done.
Qed.

Lemma geometry_only_on_listed_chunks_witness :
  exists c0 c,
    plotData whiteHex (plainConfig 10 1) sweepData [] (nz 0, nz 0, nz 0) = Done c0
    /\ run whiteHex 4 (plainConfig 10 1) c0 roughPath = Done c
    /\ geometryListed (chunks c) (activeChunks c).
Proof.
  destruct (geometry_only_on_listed_chunks whiteHex (plainConfig 10 1) sweepData []
              (nz 0, nz 0, nz 0) roughPath (qz 10) 1 4
              eq_refl eq_refl eq_refl (le_n 4))
    as (c0 & c & Hplot & Hrun & Hl).
  exists c0, c. split; [exact Hplot |]. split; [exact Hrun | exact Hl].
Defined.

(** X3: at the start and after every callback, along any path, the meshes
    the chunk code has created and the handles in the chunk map account for
    each other: a mesh held by a chunk is in the scene and not disposed, no
    mesh is held twice, and every mesh created by the chunk code that is not
    disposed is held by a chunk, so that no mesh is left behind. *)
Theorem meshes_accounted_for :
  forall (FromHexString : string -> color4) (cfg : config) (data : dataset)
         (sc : scene) (camera : vec3) (path : list vec3)
         (d : Qc) (R fuel : nat),
    (0 < d)%Qc ->
    cfgChunkDiameter cfg = Fin d ->
    cfgChunkLoadRange cfg = nz (Z.of_nat R) ->
    (2 * R + 1 < fuel)%nat ->
    exists c0 c,
      plotData FromHexString cfg data sc camera = Done c0
      /\ run FromHexString fuel cfg c0 path = Done c
      /\ (forall k ch h,
             chunks c !! k = Some ch -> holds ch h ->
             (length sc <= h)%nat
             /\ exists me, theScene c !! h = Some me /\ disposed me = false)
      /\ (forall k k' ch ch' h,
             chunks c !! k = Some ch -> chunks c !! k' = Some ch' ->
             holds ch h -> holds ch' h -> k = k')
      /\ (forall k ch h,
             chunks c !! k = Some ch -> sphereMesh ch = Some h ->
             octMesh ch <> Some h)
      /\ (forall h me,
             theScene c !! h = Some me -> (length sc <= h)%nat ->
             disposed me = false ->
             exists k ch, chunks c !! k = Some ch /\ holds ch h).
Proof.
  intros FromHexString cfg data sc camera path d R fuel Hd Hdiam Hrange Hfuel.
  destruct (streamed_kept FromHexString cfg data sc camera path d R fuel
                          Hd Hdiam Hrange Hfuel)
    as (c0 & c & Hplot & Hrun & _ & _ & _ & _ & Hk).
  exists c0, c. unfold kept, worldOf in Hk. destruct Hk as (Ht & _).
  destruct Ht as [_ _ Hlive Hown Hapart Hnoleak _]. done.
Qed.

Lemma meshes_accounted_for_witness :
  exists c0 c,
    plotData whiteHex (plainConfig 10 1) sweepData foreignScene
             (nz 0, nz 0, nz 0) = Done c0
    /\ run whiteHex 4 (plainConfig 10 1) c0 roughPath = Done c
    /\ forall h me,
        theScene c !! h = Some me -> (1 <= h)%nat -> disposed me = false ->
        exists k ch, chunks c !! k = Some ch /\ holds ch h.
Proof.
  destruct (meshes_accounted_for whiteHex (plainConfig 10 1) sweepData
              foreignScene (nz 0, nz 0, nz 0) roughPath (qz 10) 1 4
              eq_refl eq_refl eq_refl (le_n 4))
    as (c0 & c & Hplot & Hrun & _ & _ & _ & Hnoleak).
  exists c0, c. split; [exact Hplot |]. split; [exact Hrun | exact Hnoleak].
Defined.

(** X4: the chunk code never touches a mesh it has not created: the meshes
    that were in the scene when [plotData] was called are, after any number
    of callbacks along any path, as they were. *)
Theorem foreign_meshes_untouched :
  forall (FromHexString : string -> color4) (cfg : config) (data : dataset)
         (sc : scene) (camera : vec3) (path : list vec3)
         (d : Qc) (R fuel : nat),
    (0 < d)%Qc ->
    cfgChunkDiameter cfg = Fin d ->
    cfgChunkLoadRange cfg = nz (Z.of_nat R) ->
    (2 * R + 1 < fuel)%nat ->
    exists c0 c,
      plotData FromHexString cfg data sc camera = Done c0
      /\ run FromHexString fuel cfg c0 path = Done c
      /\ take (length sc) (theScene c) = sc.
Proof.
  intros FromHexString cfg data sc camera path d R fuel Hd Hdiam Hrange Hfuel.
  destruct (streamed_kept FromHexString cfg data sc camera path d R fuel
                          Hd Hdiam Hrange Hfuel)
    as (c0 & c & Hplot & Hrun & _ & _ & _ & _ & Hk).
  exists c0, c. unfold kept, worldOf in Hk.
  destruct Hk as (Ht & _ & _ & Hframe).
  split; [done |]. split; [done |].
  pose proof (tidy_base _ _ _ Ht) as Hbase.
  apply list_eq. intros h. destruct (decide (h < length sc)%nat) as [Hlt | Hge].
  - rewrite lookup_take_lt by done. by apply Hframe.
  - rewrite lookup_take_ge by lia. symmetry. apply lookup_ge_None. lia.
Qed.

Lemma foreign_meshes_untouched_witness :
  exists c0 c,
    plotData whiteHex (plainConfig 10 1) sweepData foreignScene
             (nz 0, nz 0, nz 0) = Done c0
    /\ run whiteHex 4 (plainConfig 10 1) c0 roughPath = Done c
    /\ take 1 (theScene c) = foreignScene.
Proof.
  destruct (foreign_meshes_untouched whiteHex (plainConfig 10 1) sweepData
              foreignScene (nz 0, nz 0, nz 0) roughPath (qz 10) 1 4
              eq_refl eq_refl eq_refl (le_n 4))
    as (c0 & c & Hplot & Hrun & Hframe).
  exists c0, c. split; [exact Hplot |]. split; [exact Hrun | exact Hframe].
Defined.

(** ** Reloading *)

Section Reloading.

Variable FromHexString : string -> color4.
Variable cfg : config.

Lemma deactivated_length (sc : scene) (m : gmap vec3 chunk) (key : vec3)
    (sc' : scene) (m' : gmap vec3 chunk) :
  loadChunkAt FromHexString cfg sc m key false = Done (sc', m') ->
  length sc' = length sc.
Proof.
  unfold loadChunkAt. destruct (m !! key) as [ch |].
  - cbn [loadChunk obind]. intros [= <- _].
    change (fst (deactivate sc ch))
      with (dispose (octMesh ch) (dispose (sphereMesh ch) sc)).
    by rewrite !dispose_length.
  - by intros [= <- _].
Qed.

Lemma clearChunks_tidy (base : nat) (keys : list vec3) :
  forall (sc : scene) (m : gmap vec3 chunk),
    tidy base sc m ->
    exists sc' m',
      clearChunks FromHexString cfg sc m keys = Done (sc', m')
      /\ tidy base sc' m' /\ evolved m m'
      /\ length sc' = length sc
      /\ (forall k, k ∉ keys -> m' !! k = m !! k)
      /\ (forall k ch, k ∈ keys -> m' !! k = Some ch -> unloaded ch)
      /\ (forall h, (h < base)%nat -> sc' !! h = sc !! h).
Proof.
  unfold clearChunks.
  induction keys as [| key keys IH]; intros sc m Ht.
  - exists sc, m. split; [done |]. split; [done |].
    split; [apply evolved_refl |]. split; [done |]. split; [done |].
    split; [| done]. intros k ch Hk. by apply elem_of_nil in Hk.
  - destruct (loadChunkAt_tidy FromHexString cfg base sc m key false Ht)
      as (sc1 & m1 & H1 & Ht1 & Hev1 & Hfr1 & Hst1 & Hframe1).
    destruct (IH sc1 m1 Ht1)
      as (sc' & m' & Hrun & Ht' & Hev' & Hlen' & Hfr' & Hun' & Hframe').
    exists sc', m'. cbn [foldlM fst snd]. rewrite H1. cbn [obind].
    split; [exact Hrun |]. split; [done |].
    split; [by apply (evolved_trans m m1 m') |].
    split; [by rewrite Hlen', (deactivated_length _ _ _ _ _ H1) |].
    split; [| split].
    + intros k Hk. apply not_elem_of_cons in Hk as [Hne Hk].
      by rewrite Hfr', Hfr1.
    + intros k ch Hk Hch.
      destruct (decide (k ∈ keys)) as [Hin | Hnin]; [by apply (Hun' k) |].
      apply elem_of_cons in Hk as [-> | Hk]; [| done].
      rewrite Hfr' in Hch by done. by apply Hst1.
    + intros h Hh. by rewrite Hframe', Hframe1.
Qed.

(** A scene whose chunks hold nothing fits every map that holds nothing. *)
Lemma tidy_swap (base : nat) (sc : scene) (m m2 : gmap vec3 chunk) :
  tidy base sc m ->
  (forall k ch, m !! k = Some ch -> ~ hasGeometry ch) ->
  allWf m2 ->
  (forall k ch, m2 !! k = Some ch -> unloaded ch) ->
  tidy base sc m2.
Proof.
  intros [_ Hbase _ _ _ Hnoleak _] Hbare Hwf2 Hun2.
  assert (Hnone : forall k ch h, m2 !! k = Some ch -> ~ holds ch h).
  { intros k ch h Hk [Hh | Hh]; destruct (Hun2 k ch Hk); congruence. }
  split; [done | done | | | | |].
  - intros k ch h Hk Hh. by destruct (Hnone k ch h Hk).
  - intros k k' ch ch' h Hk _ Hh. by destruct (Hnone k ch h Hk).
  - intros k ch h Hk Hs. destruct (Hnone k ch h Hk). by left.
  - intros h me Hme Hge Hlive.
    destruct (Hnoleak h me Hme Hge Hlive) as (k & ch & Hk & [Hh | Hh]);
      exfalso; apply (Hbare k ch Hk); [left | right]; by eexists.
  - intros k ch Hk. destruct (Hun2 k ch Hk) as [H1 H2].
    rewrite H1, H2. split; by intros [h Hh].
Qed.

(** The listener on a world the chunk code has kept: it returns, the
    meshes of the old chunks are all disposed, and the new world is kept
    again, now with the chunks of the new build. *)
Lemma onChunkReload_kept (data : dataset) (camera : vec3) (c : controller)
    (sc0 : scene) (m0 : gmap vec3 chunk) :
  kept sc0 m0 (worldOf c) ->
  let d := cfgChunkDiameter cfg in
  let r := cfgChunkLoadRange cfg in
  exists c',
    onChunkReload FromHexString cfg data camera c = Done c'
    /\ chunkDiameter c' = d
    /\ chunkLoadRange c' = r
    /\ lastChunkDist c' = Num.mul r d
    /\ chunkCentroid c' = chunkCentroid c
    /\ activeChunks c' = snd (calculateChunks cfg data camera d r)
    /\ kept sc0 (fst (calculateChunks cfg data camera d r)) (worldOf c')
    /\ (forall h, (length sc0 <= h < length (theScene c))%nat ->
                  exists me, theScene c' !! h = Some me /\ disposed me = true).
Proof.
  intros Hk d r. unfold kept, worldOf in Hk.
  destruct Hk as (Ht & Hlisted & _ & Hframe).
  destruct (clearChunks_tidy (length sc0) (activeChunks c) (theScene c)
                             (chunks c) Ht)
    as (sc1 & m1 & Hclear & Ht1 & _ & Hlen1 & Hfr1 & Hun1 & Hframe1).
  assert (Hbare1 : forall k ch, m1 !! k = Some ch -> ~ hasGeometry ch).
  { intros k ch Hk Hg.
    destruct (decide (k ∈ activeChunks c)) as [Hin | Hnin].
    - by apply (unloaded_no_geometry ch (Hun1 k ch Hin Hk)).
    - rewrite Hfr1 in Hk by done. apply Hnin. by apply (Hlisted k ch). }
  assert (Hgone1 : forall h, (length sc0 <= h < length sc1)%nat ->
                             exists me, sc1 !! h = Some me /\ disposed me = true).
  { intros h [Hge Hlt]. destruct (lookup_lt_is_Some_2 sc1 h Hlt) as [me Hme].
    exists me. split; [done |].
    destruct (disposed me) eqn:Edis; [done |]. exfalso.
    destruct (tidy_noleak _ _ _ Ht1 h me Hme Hge Edis) as (k & ch & Hk & Hh).
    apply (Hbare1 k ch Hk). destruct Hh as [Hh | Hh]; [left | right]; by eexists. }
  assert (Hnew : forall k ch,
             fst (calculateChunks cfg data camera d r) !! k = Some ch ->
             unloaded ch).
  { intros k ch Hk.
    by destruct (calculateChunks_wf cfg data camera d r k ch Hk) as (_ & H1 & H2). }
  assert (Ht2 : tidy (length sc0) sc1 (fst (calculateChunks cfg data camera d r))).
  { apply (tidy_swap _ sc1 m1); [done | done | | done].
    intros k ch Hk. by apply (calculateChunks_wf cfg data camera d r k). }
  assert (Ht3 : tidy (length sc1) sc1 (fst (calculateChunks cfg data camera d r)))
    by apply built_tidy.
  unfold onChunkReload, reloadChunks. rewrite Hclear. cbn [obind fst snd].
  fold d r.
  destruct (calculateChunks cfg data camera d r) as [chunks0 active0] eqn:E.
  cbn [fst snd] in *.
  destruct (activateAll_tidy FromHexString cfg (length sc0) active0 sc1 chunks0 Ht2)
    as (sc' & m' & Hrun & Ht' & Hev & Hfr & Hframe').
  destruct (activateAll_tidy FromHexString cfg (length sc1) active0 sc1 chunks0 Ht3)
    as (sc'' & m'' & Hrun' & _ & _ & _ & Hframe'').
  rewrite Hrun in Hrun'. injection Hrun' as <- <-.
  rewrite Hrun. cbn [obind fst snd]. eexists. split; [reflexivity |].
  unfold kept, worldOf.
  cbn [chunkDiameter chunkLoadRange lastChunkDist chunkCentroid activeChunks
       theScene chunks].
  split; [done |]. split; [done |]. split; [done |]. split; [done |].
  split; [done |]. split.
  - split; [exact Ht' |]. split; [| split; [exact Hev |]].
    + intros k ch Hk Hg.
      destruct (decide (k ∈ active0)) as [Hin | Hnin]; [done |].
      exfalso. rewrite Hfr in Hk by done.
      by apply (unloaded_no_geometry ch (Hnew k ch Hk)).
    + intros h Hh. by rewrite Hframe', Hframe1, Hframe.
  - intros h Hh. rewrite Hframe'' by lia. apply Hgone1. lia.
Qed.

End Reloading.

(** X5: a reload in any state the build and the callbacks have reached, under
    any new configuration and with the camera anywhere, returns.  After it
    every mesh the chunk code had created before is disposed; the variables
    of the controller hold the new diameter, the new load range, their
    product and the map and the active list of [calculateChunks] for the new
    configuration and the position of the camera; the centroid the callback
    compares with is the old one; and the new chunks and the scene account
    for each other as before. *)
Theorem reload_disposes_and_rebuilds :
  forall (FromHexString : string -> color4) (cfg cfg' : config) (data : dataset)
         (sc : scene) (camera camera' : vec3) (path : list vec3)
         (d : Qc) (R fuel : nat),
    (0 < d)%Qc ->
    cfgChunkDiameter cfg = Fin d ->
    cfgChunkLoadRange cfg = nz (Z.of_nat R) ->
    (2 * R + 1 < fuel)%nat ->
    let d' := cfgChunkDiameter cfg' in
    let r' := cfgChunkLoadRange cfg' in
    exists c0 c c',
      plotData FromHexString cfg data sc camera = Done c0
      /\ run FromHexString fuel cfg c0 path = Done c
      /\ onChunkReload FromHexString cfg' data camera' c = Done c'
      /\ (forall h, (length sc <= h < length (theScene c))%nat ->
                    exists me, theScene c' !! h = Some me /\ disposed me = true)
      /\ chunkDiameter c' = d'
      /\ chunkLoadRange c' = r'
      /\ lastChunkDist c' = Num.mul r' d'
      /\ chunkCentroid c' = chunkCentroid c
      /\ activeChunks c' = snd (calculateChunks cfg' data camera' d' r')
      /\ evolved (fst (calculateChunks cfg' data camera' d' r')) (chunks c')
      /\ tidy (length sc) (theScene c') (chunks c')
      /\ geometryListed (chunks c') (activeChunks c').
Proof.
  intros FromHexString cfg cfg' data sc camera camera' path d R fuel
         Hd Hdiam Hrange Hfuel d' r'.
  destruct (streamed_kept FromHexString cfg data sc camera path d R fuel
                          Hd Hdiam Hrange Hfuel)
    as (c0 & c & Hplot & Hrun & _ & _ & _ & _ & Hk).
  destruct (onChunkReload_kept FromHexString cfg' data camera' c sc _ Hk)
    as (c' & Hre & Hd' & Hr' & Hl' & Hcc' & Hact' & Hk' & Hgone).
  exists c0, c, c'. unfold kept, worldOf in Hk'.
  destruct Hk' as (Ht' & Hlisted' & Hev' & _). done.
Qed.

Lemma reload_disposes_and_rebuilds_witness :
  exists c0 c c',
    plotData whiteHex (plainConfig 10 1) sweepData foreignScene
             (nz 0, nz 0, nz 0) = Done c0
    /\ run whiteHex 4 (plainConfig 10 1) c0 roughPath = Done c
    /\ onChunkReload whiteHex wideConfig sweepData (nz 3, nz 0, nz 0) c = Done c'
    /\ chunkDiameter c' = nz 25
    /\ chunkCentroid c' = chunkCentroid c.
Proof.
  destruct (reload_disposes_and_rebuilds whiteHex (plainConfig 10 1) wideConfig
              sweepData foreignScene (nz 0, nz 0, nz 0) (nz 3, nz 0, nz 0)
              roughPath (qz 10) 1 4 eq_refl eq_refl eq_refl (le_n 4))
    as (c0 & c & c' & Hplot & Hrun & Hre & _ & Hd' & _ & _ & Hcc' & _).
  exists c0, c, c'. split; [exact Hplot |]. split; [exact Hrun |].
  split; [exact Hre |]. split; [exact Hd' | exact Hcc'].
Defined.

(** ** Geometry and sight along a path of single steps *)

Section Matches.

Variable FromHexString : string -> color4.
Variable cfg : config.






End Matches.



(** *** A reload between two callbacks *)

Section ReloadStreaming.

Variable FromHexString : string -> color4.
Variable cfg : config.




End ReloadStreaming.






(** ** The cell of a point *)










(** ** The brightness of the family colours *)

Lemma shifted_dark (j : Z) :
  0 <= j < 8 ->
  existsb (Ascii.eqb (hexDigit (j + 3)))
          (String.list_ascii_of_string "3456789A") = true.
Proof.
  intros Hj.
  assert (H : j = 0 \/ j = 1 \/ j = 2 \/ j = 3 \/ j = 4 \/ j = 5 \/ j = 6 \/ j = 7)
    by lia.
  repeat (destruct H as [-> | H]; [reflexivity |]). by subst.
Qed.

Lemma shifted_light (j : Z) :
  0 <= j < 8 ->
  existsb (Ascii.eqb (hexDigit (j + 7)))
          (String.list_ascii_of_string "789ABCDE") = true.
Proof.
  intros Hj.
  assert (H : j = 0 \/ j = 1 \/ j = 2 \/ j = 3 \/ j = 4 \/ j = 5 \/ j = 6 \/ j = 7)
    by lia.
  repeat (destruct H as [-> | H]; [reflexivity |]). by subst.
Qed.

(** X11: the digits of a family colour stay in a band that depends on the
    display mode alone: in dark mode every one of the six digits after "#"
    is one of 3 to 9 or A, in light mode one of 7 to 9 or A to E.  No family
    colour has a digit 0, 1, 2 or F. *)
Theorem getColor_digit_bands :
  forall family : list Z,
    (exists ds, getColor true family = String "#" ds
                /\ charsWithin "3456789A" ds = true)
    /\ (exists ds, getColor false family = String "#" ds
                   /\ charsWithin "789ABCDE" ds = true).
Proof.
  intros family. destruct (colorValue_bounds family) as [_ Hrange].
  split.
  - destruct (renderColor_spec 3 (colorValue family) ltac:(by left) Hrange)
      as [Heq _].
    change (getColor true family) with (renderColor 3 (colorValue family)).
    rewrite Heq. unfold specColor. eexists. split; [reflexivity |].
    unfold charsWithin. cbn [map String.string_of_list_ascii
                                 String.list_ascii_of_string forallb].
    rewrite !shifted_dark by apply octalDigit_range. reflexivity.
  - destruct (renderColor_spec 7 (colorValue family) ltac:(by right) Hrange)
      as [Heq _].
    change (getColor false family) with (renderColor 7 (colorValue family)).
    rewrite Heq. unfold specColor. eexists. split; [reflexivity |].
    unfold charsWithin. cbn [map String.string_of_list_ascii
                                 String.list_ascii_of_string forallb].
    rewrite !shifted_light by apply octalDigit_range. reflexivity.
Qed.



(** ** The configuration object *)

Lemma validators_lookup (key : string) :
  ConfigStore.validators !! key = validatorOf key.
Proof.
  unfold ConfigStore.validators. cbn [foldl ConfigStore.asArray fst snd].
  rewrite !lookup_insert, lookup_empty.
  repeat (case_decide; [subst key; vm_compute; reflexivity |]).
  unfold validatorOf.
  rewrite !bool_decide_eq_false_2; [done | congruence | ..];
    rewrite ?elem_of_cons, elem_of_nil; intuition congruence.
Qed.

Lemma integer_positive (n : num) :
  ConfigStore.isInteger (ConfigStore.CNum n) = true -> Num.leb n (nz 0) = false ->
  exists z, 0 < z /\ n = nz z.
Proof.
  destruct n as [q |]; [| done]. cbn [ConfigStore.isInteger Num.leb nz].
  intros Hden Hpos. apply Pos.eqb_eq in Hden.
  apply bool_decide_eq_false in Hpos. apply Qcnot_le_lt in Hpos.
  exists (Qnum (this q)). split.
  - unfold Qclt, Qlt in Hpos. rewrite Hden in Hpos. cbn in Hpos. lia.
  - unfold nz. f_equal. apply Qc_is_canon. rewrite this_qz.
    destruct q as [[a b] Hc]. cbn in *. subst b. reflexivity.
Qed.

Lemma positive_integer (z : Z) :
  0 < z ->
  ConfigStore.isInteger (ConfigStore.cnum z) = true
  /\ Num.leb (nz z) (nz 0) = false.
Proof.
  intros Hz. split; [reflexivity |].
  cbn [Num.leb nz]. apply bool_decide_eq_false. apply Qclt_not_le.
  unfold Qclt, Qlt. rewrite !this_qz. cbn. lia.
Qed.

Ltac each_key H :=
  repeat (apply elem_of_cons in H as [-> | H]; [vm_compute; reflexivity |]);
  by apply elem_of_nil in H.

Lemma validatorOf_boolean (key : string) :
  key ∈ ["orbitMode"; "darkMode"] -> validatorOf key = Some ConfigStore.Boolean.
Proof. intros H. each_key H. Qed.

Lemma validatorOf_number (key : string) :
  key ∈ ["x"; "y"; "z"; "rotationX"; "rotationY"] ->
  validatorOf key = Some ConfigStore.Number.
Proof. intros H. each_key H. Qed.

Lemma validatorOf_positive (key : string) :
  key ∈ ["orbitModeTargetDistance"; "mouseSensibility"; "movementSpeed"; "scale"] ->
  validatorOf key = Some ConfigStore.Positive.
Proof. intros H. each_key H. Qed.

Lemma validatorOf_integer (key : string) :
  key ∈ ["chunkDiameter"; "chunkLoadRange"] ->
  validatorOf key = Some ConfigStore.PositiveInteger.
Proof. intros H. each_key H. Qed.

(** The keys that have a validator. *)
Lemma validatorOf_cases (key : string) :
  (key ∈ ["orbitMode"; "darkMode"]
   /\ validatorOf key = Some ConfigStore.Boolean)
  \/ (key ∈ ["x"; "y"; "z"; "rotationX"; "rotationY"]
      /\ validatorOf key = Some ConfigStore.Number)
  \/ (key ∈ ["orbitModeTargetDistance"; "mouseSensibility"; "movementSpeed";
             "scale"]
      /\ validatorOf key = Some ConfigStore.Positive)
  \/ (key ∈ ["chunkDiameter"; "chunkLoadRange"]
      /\ validatorOf key = Some ConfigStore.PositiveInteger)
  \/ (key = "shownFamilies" /\ validatorOf key = Some ConfigStore.Families)
  \/ ((key ∉ ["orbitMode"; "darkMode"; "x"; "y"; "z"; "rotationX"; "rotationY";
              "orbitModeTargetDistance"; "mouseSensibility"; "movementSpeed";
              "scale"; "chunkDiameter"; "chunkLoadRange"; "shownFamilies"])
      /\ validatorOf key = None).
Proof.
  destruct (decide (key ∈ ["orbitMode"; "darkMode"])) as [H1 | H1];
    [left; split; [done | by apply validatorOf_boolean] | right].
  destruct (decide (key ∈ ["x"; "y"; "z"; "rotationX"; "rotationY"])) as [H2 | H2];
    [left; split; [done | by apply validatorOf_number] | right].
  destruct (decide (key ∈ ["orbitModeTargetDistance"; "mouseSensibility";
                           "movementSpeed"; "scale"])) as [H3 | H3];
    [left; split; [done | by apply validatorOf_positive] | right].
  destruct (decide (key ∈ ["chunkDiameter"; "chunkLoadRange"])) as [H4 | H4];
    [left; split; [done | by apply validatorOf_integer] | right].
  destruct (decide (key = "shownFamilies")) as [-> | H5];
    [left; split; reflexivity | right].
  split.
  - rewrite !elem_of_cons, elem_of_nil in *. intuition.
  - unfold validatorOf. by rewrite !bool_decide_eq_false_2.
Qed.

Lemma validate_unfold (key : string) (value : ConfigStore.cval) :
  ConfigStore.validate key value
  = match validatorOf key with
    | Some f => Done (negb (ConfigStore.throws f value))
    | None => if ConfigStore.endsWith key "Diameter" then Raised else Done false
    end.
Proof. unfold ConfigStore.validate. by rewrite validators_lookup. Qed.

Lemma families_always_throws (value : ConfigStore.cval) :
  ConfigStore.throws ConfigStore.Families value = true.
Proof. by destruct value. Qed.

(** The keys with a validator and the keys that end in "Diameter". *)
Lemma validated_diameter (key : string) (f : ConfigStore.validator) :
  validatorOf key = Some f -> ConfigStore.endsWith key "Diameter" = true ->
  key = "chunkDiameter".
Proof.
  intros Hf Hd.
  destruct (validatorOf_cases key)
    as [[H _] | [[H _] | [[H _] | [[H _] | [[-> _] | [_ H]]]]]];
    [| | | | by vm_compute in Hd | congruence];
    repeat (apply elem_of_cons in H as [-> | H];
            [first [reflexivity | by vm_compute in Hd] |]);
    by apply elem_of_nil in H.
Qed.

Lemma accepted_shape (key : string) (value : ConfigStore.cval) :
  ConfigStore.validate key value = Done true ->
  (key ∈ ["orbitMode"; "darkMode"]
   /\ exists b, value = ConfigStore.CBool b)
  \/ (key ∈ ["x"; "y"; "z"; "rotationX"; "rotationY"]
      /\ exists n, value = ConfigStore.CNum n)
  \/ (key ∈ ["orbitModeTargetDistance"; "mouseSensibility";
             "movementSpeed"; "scale"]
      /\ exists n, value = ConfigStore.CNum n
                   /\ Num.leb n (nz 0) = false)
  \/ (key ∈ ["chunkDiameter"; "chunkLoadRange"]
      /\ exists z, 0 < z /\ value = ConfigStore.cnum z).
Proof.
  rewrite validate_unfold.
  destruct (validatorOf_cases key)
    as [[H E] | [[H E] | [[H E] | [[H E] | [[H E] | [H E]]]]]];
    rewrite E; cbn [ConfigStore.throws].
  - intros Hv. left. split; [done |].
    destruct value; try discriminate Hv. by eexists.
  - intros Hv. right. left. split; [done |].
    destruct value; try discriminate Hv. by eexists.
  - intros Hv. right. right. left. split; [done |].
    destruct value as [| n | | | |]; try discriminate Hv.
    exists n. split; [done |]. cbn in Hv.
    destruct (Num.leb n (nz 0)); [discriminate Hv | done].
  - intros Hv. right. right. right. split; [done |].
    destruct value as [| n | | | |]; try discriminate Hv.
    injection Hv as Hv. apply negb_true_iff, orb_false_iff in Hv as [Hi Hp].
    apply negb_false_iff in Hi.
    destruct (integer_positive n Hi Hp) as (z & Hz & ->). by exists z.
  - destruct value; discriminate.
  - destruct (ConfigStore.endsWith key "Diameter"); discriminate.
Qed.

(** X12: which values [validate] lets through.  A boolean for [orbitMode]
    and [darkMode]; a number (NaN included) for the position and the two
    rotations; a number that is not [<= 0] (so also NaN) for
    [orbitModeTargetDistance], [mouseSensibility], [movementSpeed] and
    [scale]; a positive integer for [chunkDiameter] and [chunkLoadRange];
    nothing at all for [shownFamilies] or for any other key.  And
    [validate] throws exactly for the keys other than [chunkDiameter] that
    end in "Diameter". *)
Theorem validate_characterised :
  forall (key : string) (value : ConfigStore.cval),
    ConfigStore.ownKey key ->
    (ConfigStore.validate key value = Done true
     <-> (key ∈ ["orbitMode"; "darkMode"]
          /\ exists b, value = ConfigStore.CBool b)
         \/ (key ∈ ["x"; "y"; "z"; "rotationX"; "rotationY"]
             /\ exists n, value = ConfigStore.CNum n)
         \/ (key ∈ ["orbitModeTargetDistance"; "mouseSensibility";
                    "movementSpeed"; "scale"]
             /\ exists n, value = ConfigStore.CNum n
                          /\ Num.leb n (nz 0) = false)
         \/ (key ∈ ["chunkDiameter"; "chunkLoadRange"]
             /\ exists z, 0 < z /\ value = ConfigStore.cnum z))
    /\ (ConfigStore.validate key value = Raised
        <-> ConfigStore.endsWith key "Diameter" = true /\ key <> "chunkDiameter").
Proof.
  intros key value _. split.
  - split; [apply accepted_shape |]. rewrite validate_unfold.
    intros [[H (b & ->)] | [[H (n & ->)] | [[H (n & -> & Hn)] | [H (z & Hz & ->)]]]].
    + by rewrite (validatorOf_boolean key H).
    + by rewrite (validatorOf_number key H).
    + rewrite (validatorOf_positive key H). cbn. by rewrite Hn.
    + rewrite (validatorOf_integer key H). cbn [ConfigStore.throws].
      destruct (positive_integer z Hz) as [Hi Hp].
      unfold ConfigStore.notPositive, ConfigStore.cnum in *. by rewrite Hi, Hp.
  - rewrite validate_unfold. destruct (validatorOf key) as [f |] eqn:E.
    + split; [discriminate |]. intros [Hd Hne].
      by destruct (Hne (validated_diameter key f E Hd)).
    + destruct (ConfigStore.endsWith key "Diameter") eqn:Ed.
      * split; [| done]. intros _. split; [done |]. intros ->. discriminate E.
      * split; [discriminate | by intros [? _]].
Qed.

Lemma validate_characterised_witness :
  ConfigStore.validate "scale" (ConfigStore.CNum NaN) = Done true
  <-> ("scale" ∈ ["orbitMode"; "darkMode"]
       /\ exists b, ConfigStore.CNum NaN = ConfigStore.CBool b)
      \/ ("scale" ∈ ["x"; "y"; "z"; "rotationX"; "rotationY"]
          /\ exists n, ConfigStore.CNum NaN = ConfigStore.CNum n)
      \/ ("scale" ∈ ["orbitModeTargetDistance"; "mouseSensibility";
                     "movementSpeed"; "scale"]
          /\ exists n, ConfigStore.CNum NaN = ConfigStore.CNum n
                       /\ Num.leb n (nz 0) = false)
      \/ ("scale" ∈ ["chunkDiameter"; "chunkLoadRange"]
          /\ exists z, 0 < z /\ ConfigStore.CNum NaN = ConfigStore.cnum z).
Proof.
  assert (Hown : ConfigStore.ownKey "scale").
  { apply (bool_decide_eq_true_1 _). vm_compute. reflexivity. }
  exact (proj1 (validate_characterised "scale" (ConfigStore.CNum NaN) Hown)).
Defined.

(** *** What [config.set] refuses *)

Lemma color_not_diameter (key : string) :
  ConfigStore.endsWith key "Color" = true ->
  ConfigStore.endsWith key "Diameter" = false.
Proof.
  unfold ConfigStore.endsWith.
  change (rev (String.list_ascii_of_string "Color"))
    with ["r"; "o"; "l"; "o"; "C"]%char.
  change (rev (String.list_ascii_of_string "Diameter"))
    with ["r"; "e"; "t"; "e"; "m"; "a"; "i"; "D"]%char.
  destruct (rev (String.list_ascii_of_string key)) as [| a [| b l]];
    cbn [ConfigStore.startsWith]; [done | by rewrite andb_false_r |].
  intros H. apply andb_prop in H as [_ H]. apply andb_prop in H as [H _].
  apply Ascii.eqb_eq in H as <-. by rewrite andb_false_r.
Qed.

Lemma unvalidated (key : string) :
  key ∉ ["orbitMode"; "darkMode"; "x"; "y"; "z"; "rotationX"; "rotationY";
         "orbitModeTargetDistance"; "mouseSensibility"; "movementSpeed";
         "scale"; "chunkDiameter"; "chunkLoadRange"] ->
  forall f, validatorOf key = Some f -> f = ConfigStore.Families.
Proof.
  intros Hnot f Hf.
  destruct (validatorOf_cases key)
    as [[H _] | [[H _] | [[H _] | [[H _] | [[_ E] | [_ E]]]]]];
    [| | | | congruence | congruence];
    exfalso; apply Hnot;
    repeat (apply elem_of_cons in H as [-> | H];
            [apply (bool_decide_eq_true_1 _); vm_compute; reflexivity |]);
    by apply elem_of_nil in H.
Qed.

Section SetProperties.

Variable prefersDark : bool.
Variable W : Type.
Variable callbacks
  : gmap string (ConfigStore.cval -> ConfigStore.values * W
                 -> outcome (ConfigStore.values * W)).
Variable dispatchChunkReload
  : string -> ConfigStore.values * W -> outcome (ConfigStore.values * W).

Local Abbreviation set :=
  (ConfigStore.set prefersDark W callbacks dispatchChunkReload).

Lemma set_refused (key : string) (value : ConfigStore.cval) (run : bool)
    (s : ConfigStore.values * W) :
  ConfigStore.validate key value = Done false -> set key value run s = Done s.
Proof. intros Hv. unfold ConfigStore.set. by rewrite Hv. Qed.

Lemma set_raised (key : string) (value : ConfigStore.cval) (run : bool)
    (s : ConfigStore.values * W) :
  ConfigStore.validate key value = Raised -> set key value run s = Raised.
Proof. intros Hv. unfold ConfigStore.set. by rewrite Hv. Qed.

Lemma set_quiet (key : string) (value : ConfigStore.cval)
    (s : ConfigStore.values * W) :
  ConfigStore.validate key value = Done true ->
  set key value false s
  = Done (ConfigStore.assign prefersDark key value (fst s), snd s).
Proof. intros Hv. unfold ConfigStore.set. by rewrite Hv. Qed.

End SetProperties.

(** X13: [config.set] changes nothing, runs no callback and dispatches no
    event for a key outside the thirteen that have a validator which can
    succeed, unless the key ends in "Diameter": so for [shownFamilies]
    (whose validator throws on every value), for the three tissue keys, for
    every key that ends in "Color" (the colours of the background, of the
    axes and of the families) and for every other key of a family. *)
Theorem set_refuses_unvalidated_keys :
  forall (prefersDark : bool) (W : Type)
         (callbacks : gmap string (ConfigStore.cval -> ConfigStore.values * W
                                   -> outcome (ConfigStore.values * W)))
         (dispatchChunkReload : string -> ConfigStore.values * W
                                -> outcome (ConfigStore.values * W))
         (key : string) (value : ConfigStore.cval) (runCallback : bool)
         (s : ConfigStore.values * W),
    ConfigStore.ownKey key ->
    key ∉ ["orbitMode"; "darkMode"; "x"; "y"; "z"; "rotationX"; "rotationY";
           "orbitModeTargetDistance"; "mouseSensibility"; "movementSpeed";
           "scale"; "chunkDiameter"; "chunkLoadRange"] ->
    ConfigStore.endsWith key "Diameter" = false ->
    ConfigStore.set prefersDark W callbacks dispatchChunkReload key value
                    runCallback s
    = Done s.
Proof.
  intros prefersDark W callbacks dispatch key value run s _ Hnot Hd.
  apply set_refused. rewrite validate_unfold, Hd.
  destruct (validatorOf key) as [f |] eqn:E; [| done].
  rewrite (unvalidated key Hnot f E). by rewrite families_always_throws.
Qed.

Lemma set_refuses_unvalidated_keys_witness :
  ConfigStore.set true unit ∅ (fun _ s => Done s) "OG0000103_Color"
                  (ConfigStore.CStr "#A00000") true (ConfigStore.noValues, tt)
  = Done (ConfigStore.noValues, tt).
Proof.
  assert (Hown : ConfigStore.ownKey "OG0000103_Color").
  { apply (bool_decide_eq_true_1 _). vm_compute. reflexivity. }
  assert (Hnot : "OG0000103_Color"
                 ∉ ["orbitMode"; "darkMode"; "x"; "y"; "z"; "rotationX";
                    "rotationY"; "orbitModeTargetDistance"; "mouseSensibility";
                    "movementSpeed"; "scale"; "chunkDiameter"; "chunkLoadRange"]).
  { apply (bool_decide_eq_true_1 _). vm_compute. reflexivity. }
  exact (set_refuses_unvalidated_keys true unit ∅ (fun _ s => Done s)
           "OG0000103_Color" (ConfigStore.CStr "#A00000") true
           (ConfigStore.noValues, tt) Hown Hnot eq_refl).
Defined.

(** X14: [config.set] throws for every key that ends in "Diameter", except
    [chunkDiameter], whatever the value: the branch of [validate] for these
    keys reads a variable that does not exist.  The diameters of the
    families and [outlierDataPointDiameter] cannot be set. *)
Theorem set_throws_on_diameter_keys :
  forall (prefersDark : bool) (W : Type)
         (callbacks : gmap string (ConfigStore.cval -> ConfigStore.values * W
                                   -> outcome (ConfigStore.values * W)))
         (dispatchChunkReload : string -> ConfigStore.values * W
                                -> outcome (ConfigStore.values * W))
         (key : string) (value : ConfigStore.cval) (runCallback : bool)
         (s : ConfigStore.values * W),
    ConfigStore.ownKey key ->
    ConfigStore.endsWith key "Diameter" = true ->
    key <> "chunkDiameter" ->
    ConfigStore.set prefersDark W callbacks dispatchChunkReload key value
                    runCallback s
    = Raised.
Proof.
  intros prefersDark W callbacks dispatch key value run s _ Hd Hne.
  apply set_raised. rewrite validate_unfold.
  destruct (validatorOf key) as [f |] eqn:E.
  - by destruct (Hne (validated_diameter key f E Hd)).
  - by rewrite Hd.
Qed.

Lemma set_throws_on_diameter_keys_witness :
  ConfigStore.set true unit ∅ (fun _ s => Done s) "OG0000103_OutlierDiameter"
                  (ConfigStore.CNum (Fin qhalf)) true (ConfigStore.noValues, tt)
  = Raised.
Proof.
  assert (Hown : ConfigStore.ownKey "OG0000103_OutlierDiameter").
  { apply (bool_decide_eq_true_1 _). vm_compute. reflexivity. }
  assert (Hne : "OG0000103_OutlierDiameter" <> "chunkDiameter").
  { apply (bool_decide_eq_true_1 _). vm_compute. reflexivity. }
  exact (set_throws_on_diameter_keys true unit ∅ (fun _ s => Done s)
           "OG0000103_OutlierDiameter" (ConfigStore.CNum (Fin qhalf)) true
           (ConfigStore.noValues, tt) Hown eq_refl Hne).
Defined.

(** *** What [config.set] stores *)

Lemma settable_defined (prefersDark : bool) (key : string) :
  key ∈ ["orbitMode"; "darkMode"; "x"; "y"; "z"; "rotationX"; "rotationY";
         "orbitModeTargetDistance"; "mouseSensibility"; "movementSpeed";
         "scale"; "chunkDiameter"; "chunkLoadRange"] ->
  ConfigStore.isUndefined
    (ConfigStore.prop (ConfigStore.defaultsAllModes prefersDark) key)
  = false.
Proof. intros H. each_key H. Qed.

Ltac settable_key H :=
  repeat (apply elem_of_cons in H as [-> | H];
          [apply (bool_decide_eq_true_1 _); vm_compute; reflexivity |]);
  by apply elem_of_nil in H.

Lemma accepted_settable (key : string) (value : ConfigStore.cval) :
  ConfigStore.validate key value = Done true ->
  key ∈ ["orbitMode"; "darkMode"; "x"; "y"; "z"; "rotationX"; "rotationY";
         "orbitModeTargetDistance"; "mouseSensibility"; "movementSpeed";
         "scale"; "chunkDiameter"; "chunkLoadRange"]
  /\ ((exists b, value = ConfigStore.CBool b)
      \/ (exists n, value = ConfigStore.CNum n)).
Proof.
  intros Hv.
  destruct (accepted_shape key value Hv)
    as [[H (b & ->)] | [[H (n & ->)] | [[H (n & -> & _)] | [H (z & _ & ->)]]]].
  - split; [settable_key H | left; by eexists].
  - split; [settable_key H | right; by eexists].
  - split; [settable_key H | right; by eexists].
  - split; [settable_key H | right; by eexists].
Qed.

Lemma get_stored (prefersDark : bool) (vs : ConfigStore.values) (key : string)
    (value : ConfigStore.cval) :
  ConfigStore.vAllModes vs !! key = Some value ->
  (exists b, value = ConfigStore.CBool b) \/ (exists n, value = ConfigStore.CNum n) ->
  ConfigStore.get prefersDark vs key = value.
Proof.
  intros Hk Hv.
  assert (E : ConfigStore.prop (ConfigStore.vAllModes vs) key = value)
    by (unfold ConfigStore.prop; by rewrite Hk).
  unfold ConfigStore.get. rewrite E.
  by destruct Hv as [(b & ->) | (n & ->)].
Qed.

Lemma get_elsewhere (prefersDark : bool) (vs vs' : ConfigStore.values)
    (k : string) :
  ConfigStore.vAllModes vs' !! k = ConfigStore.vAllModes vs !! k ->
  ConfigStore.vAllModes vs' !! "darkMode" = ConfigStore.vAllModes vs !! "darkMode" ->
  ConfigStore.vLightMode vs' = ConfigStore.vLightMode vs ->
  ConfigStore.vDarkMode vs' = ConfigStore.vDarkMode vs ->
  ConfigStore.get prefersDark vs' k = ConfigStore.get prefersDark vs k.
Proof.
  intros Hk Hd Hl Hdk. unfold ConfigStore.get, ConfigStore.prop.
  by rewrite Hk, Hd, Hl, Hdk.
Qed.

Lemma assign_settable (prefersDark : bool) (key : string)
    (value : ConfigStore.cval) (vs : ConfigStore.values) :
  key ∈ ["orbitMode"; "darkMode"; "x"; "y"; "z"; "rotationX"; "rotationY";
         "orbitModeTargetDistance"; "mouseSensibility"; "movementSpeed";
         "scale"; "chunkDiameter"; "chunkLoadRange"] ->
  ConfigStore.assign prefersDark key value vs
  = ConfigStore.Values (<[key := value]> (ConfigStore.vAllModes vs))
                       (ConfigStore.vLightMode vs) (ConfigStore.vDarkMode vs).
Proof.
  intros H. unfold ConfigStore.assign.
  by rewrite (settable_defined prefersDark key H).
Qed.

(** X15: a value that [validate] lets through is stored for all modes, and
    read back by [config.get]: after [config.set(key, value, false)],
    [config.get(key)] is [value]; the values kept per display mode are
    untouched; and unless the key is [darkMode], [config.get] of every other
    key is what it was. *)
Theorem set_then_get :
  forall (prefersDark : bool) (W : Type)
         (callbacks : gmap string (ConfigStore.cval -> ConfigStore.values * W
                                   -> outcome (ConfigStore.values * W)))
         (dispatchChunkReload : string -> ConfigStore.values * W
                                -> outcome (ConfigStore.values * W))
         (key : string) (value : ConfigStore.cval)
         (s : ConfigStore.values * W),
    ConfigStore.ownKey key ->
    ConfigStore.validate key value = Done true ->
    exists vs',
      ConfigStore.set prefersDark W callbacks dispatchChunkReload key value
                      false s
      = Done (vs', snd s)
      /\ ConfigStore.get prefersDark vs' key = value
      /\ ConfigStore.vLightMode vs' = ConfigStore.vLightMode (fst s)
      /\ ConfigStore.vDarkMode vs' = ConfigStore.vDarkMode (fst s)
      /\ (key <> "darkMode" ->
          forall k, k <> key ->
                    ConfigStore.get prefersDark vs' k
                    = ConfigStore.get prefersDark (fst s) k).
Proof.
  intros prefersDark W callbacks dispatch key value s _ Hv.
  destruct (accepted_settable key value Hv) as [Hkey Hshape].
  exists (ConfigStore.assign prefersDark key value (fst s)).
  split; [by apply set_quiet |].
  rewrite (assign_settable prefersDark key value (fst s) Hkey).
  split; [| split; [done | split; [done |]]].
  - apply get_stored; [| done]. cbn. apply lookup_insert_eq.
  - intros Hdark k Hk. apply get_elsewhere; cbn; try done;
      by rewrite lookup_insert_ne.
Qed.

Lemma set_then_get_witness :
  exists vs',
    ConfigStore.set false unit ∅ (fun _ s => Done s) "chunkLoadRange"
                    (ConfigStore.cnum 3) false (ConfigStore.noValues, tt)
    = Done (vs', tt)
    /\ ConfigStore.get false vs' "chunkLoadRange" = ConfigStore.cnum 3.
Proof.
  assert (Hown : ConfigStore.ownKey "chunkLoadRange").
  { apply (bool_decide_eq_true_1 _). vm_compute. reflexivity. }
  assert (Hv : ConfigStore.validate "chunkLoadRange" (ConfigStore.cnum 3)
               = Done true) by (vm_compute; reflexivity).
  destruct (set_then_get false unit ∅ (fun _ s => Done s) "chunkLoadRange"
              (ConfigStore.cnum 3) (ConfigStore.noValues, tt) Hown Hv)
    as (vs' & Hset & Hget & _).
  exists vs'. split; [exact Hset | exact Hget].
Defined.


(** *** The parameters of the chunks *)

Lemma accepted_integer (key : string) (value : ConfigStore.cval) :
  ConfigStore.validate key value = Done true ->
  key ∈ ["chunkDiameter"; "chunkLoadRange"] ->
  exists z, 0 < z /\ value = ConfigStore.cnum z.
Proof.
  intros Hv Hk.
  destruct (accepted_shape key value Hv) as [[H _] | [[H _] | [[H _] | [_ H]]]];
    [| | | done];
    exfalso;
    repeat (apply elem_of_cons in H as [-> | H];
            [revert Hk; apply (bool_decide_eq_false_1 _); vm_compute; reflexivity |]);
    by apply elem_of_nil in H.
Qed.

Lemma get_chunkDiameter (prefersDark : bool) (vs : ConfigStore.values) :
  ConfigStore.get prefersDark vs "chunkDiameter"
  = ConfigStore.orElse (ConfigStore.prop (ConfigStore.vAllModes vs) "chunkDiameter")
                       (ConfigStore.cnum 50).
Proof.
  unfold ConfigStore.get.
  assert (E : ConfigStore.prop (ConfigStore.defaultsAllModes prefersDark)
                               "chunkDiameter" = ConfigStore.cnum 50)
    by (vm_compute; reflexivity).
  rewrite E.
  by destruct (ConfigStore.prop (ConfigStore.vAllModes vs) "chunkDiameter").
Qed.

Lemma get_chunkLoadRange (prefersDark : bool) (vs : ConfigStore.values) :
  ConfigStore.get prefersDark vs "chunkLoadRange"
  = ConfigStore.orElse (ConfigStore.prop (ConfigStore.vAllModes vs) "chunkLoadRange")
                       (ConfigStore.cnum 2).
Proof.
  unfold ConfigStore.get.
  assert (E : ConfigStore.prop (ConfigStore.defaultsAllModes prefersDark)
                               "chunkLoadRange" = ConfigStore.cnum 2)
    by (vm_compute; reflexivity).
  rewrite E.
  by destruct (ConfigStore.prop (ConfigStore.vAllModes vs) "chunkLoadRange").
Qed.

Lemma prop_insert (m : gmap string ConfigStore.cval) (key k : string)
    (value : ConfigStore.cval) :
  ConfigStore.prop (<[key := value]> m) k
  = if decide (key = k) then value else ConfigStore.prop m k.
Proof. unfold ConfigStore.prop. rewrite lookup_insert. by case_decide. Qed.

Lemma assign_valid (prefersDark : bool) (key : string)
    (value : ConfigStore.cval) (vs : ConfigStore.values) :
  ConfigStore.validate key value = Done true ->
  chunkParametersValid prefersDark vs ->
  chunkParametersValid prefersDark (ConfigStore.assign prefersDark key value vs).
Proof.
  intros Hv (z1 & z2 & Hz1 & Hz2 & H1 & H2).
  destruct (accepted_settable key value Hv) as [Hkey _].
  rewrite (assign_settable prefersDark key value vs Hkey).
  rewrite get_chunkDiameter in H1. rewrite get_chunkLoadRange in H2.
  unfold chunkParametersValid.
  rewrite get_chunkDiameter, get_chunkLoadRange. cbn [ConfigStore.vAllModes].
  rewrite !prop_insert.
  destruct (decide (key = "chunkDiameter")) as [-> | Hne1].
  - destruct (accepted_integer _ value Hv) as (z & Hz & ->);
      [apply (bool_decide_eq_true_1 _); vm_compute; reflexivity |].
    rewrite decide_False by done. by exists z, z2.
  - destruct (decide (key = "chunkLoadRange")) as [-> | Hne2].
    + destruct (accepted_integer _ value Hv) as (z & Hz & ->);
        [apply (bool_decide_eq_true_1 _); vm_compute; reflexivity |].
      by exists z1, z.
    + by exists z1, z2.
Qed.

(** X16: [config.get] gives a positive integer for [chunkDiameter] and for
    [chunkLoadRange] with the defaults alone, and still does after any
    sequence of calls of [config.set] that returns, with any keys, values
    and flags, as long as the callbacks and the listeners of "chunkReload"
    change the settings through [config.set] only (here: keep the property
    themselves). *)
Theorem chunk_parameters_stay_positive :
  forall (prefersDark : bool) (W : Type)
         (callbacks : gmap string (ConfigStore.cval -> ConfigStore.values * W
                                   -> outcome (ConfigStore.values * W)))
         (dispatchChunkReload : string -> ConfigStore.values * W
                                -> outcome (ConfigStore.values * W)),
    (forall key callback value s s',
        callbacks !! key = Some callback ->
        chunkParametersValid prefersDark (fst s) ->
        callback value s = Done s' ->
        chunkParametersValid prefersDark (fst s')) ->
    (forall key s s',
        chunkParametersValid prefersDark (fst s) ->
        dispatchChunkReload key s = Done s' ->
        chunkParametersValid prefersDark (fst s')) ->
    chunkParametersValid prefersDark ConfigStore.noValues
    /\ forall (calls : list setCall) (s s' : ConfigStore.values * W),
        Forall (fun call => ConfigStore.ownKey (fst (fst call))) calls ->
        chunkParametersValid prefersDark (fst s) ->
        foldlM (fun st call =>
                  ConfigStore.set prefersDark W callbacks dispatchChunkReload
                                  (fst (fst call)) (snd (fst call)) (snd call) st)
               s calls
        = Done s' ->
        chunkParametersValid prefersDark (fst s').
Proof.
  intros prefersDark W callbacks dispatch Hcb Hdisp. split.
  - exists 50, 2. split; [lia |]. split; [lia |].
    split; vm_compute; reflexivity.
  - induction calls as [| [[key value] run] calls IH]; intros s s' Hown Hs Hrun.
    + by injection Hrun as <-.
    + apply Forall_cons in Hown as [_ Hown]. cbn [foldlM fst snd] in Hrun.
      destruct (ConfigStore.set prefersDark W callbacks dispatch key value run s)
        as [s1 | |] eqn:Hset; cbn [obind] in Hrun; [| done | done].
      apply (IH s1 s'); [exact Hown | | exact Hrun].
      unfold ConfigStore.set in Hset.
      destruct (ConfigStore.validate key value) as [[|] | |] eqn:Hv;
        cbn [obind] in Hset; [| by injection Hset as <- | done | done].
      pose proof (assign_valid prefersDark key value (fst s) Hv Hs) as Hs1.
      set (sa := (ConfigStore.assign prefersDark key value (fst s), snd s)) in *.
      change (chunkParametersValid prefersDark (fst sa)) in Hs1.
      clearbody sa.
      destruct run; [| by injection Hset as <-].
      destruct (callbacks !! key) as [callback |] eqn:Hc; cbn [obind] in Hset.
      * destruct (callback value sa) as [s2 | |] eqn:Hcall; cbn [obind] in Hset;
          [| done | done].
        pose proof (Hcb key callback value sa s2 Hc Hs1 Hcall) as Hs2.
        destruct (_ || _);
          [exact (Hdisp key s2 s1 Hs2 Hset) | by injection Hset as <-].
      * destruct (_ || _);
          [exact (Hdisp key sa s1 Hs1 Hset) | by injection Hset as <-].
Qed.


Lemma chunk_parameters_stay_positive_witness :
  chunkParametersValid true ConfigStore.noValues
  /\ exists s', sampleSession = Done s' /\ chunkParametersValid true (fst s').
Proof.
  assert (Hcb : forall (key : string)
                       (callback : ConfigStore.cval -> ConfigStore.values * unit
                                   -> outcome (ConfigStore.values * unit))
                       (value : ConfigStore.cval) (s s' : ConfigStore.values * unit),
             (∅ : gmap string _) !! key = Some callback ->
             chunkParametersValid true (fst s) ->
             callback value s = Done s' ->
             chunkParametersValid true (fst s')).
  { intros key callback value s s' Hc. by rewrite lookup_empty in Hc. }
  assert (Hdisp : forall (key : string) (s s' : ConfigStore.values * unit),
             chunkParametersValid true (fst s) ->
             (fun (_ : string) (st : ConfigStore.values * unit) => Done st) key s
             = Done s' ->
             chunkParametersValid true (fst s')).
  { intros key s s' Hs [= <-]. exact Hs. }
  destruct (chunk_parameters_stay_positive true unit ∅ (fun _ s => Done s)
                                           Hcb Hdisp)
    as [H0 Hall].
  split; [exact H0 |].
  assert (Hdone : is_Some (result sampleSession))
    by (apply (bool_decide_eq_true_1 _); vm_compute; reflexivity).
  destruct sampleSession as [s' | |] eqn:E;
    [| by destruct Hdone | by destruct Hdone].
  exists s'. split; [reflexivity |].
  apply (Hall sampleCalls (ConfigStore.noValues, tt) s'); [| exact H0 | exact E].
  assert (H1 : ConfigStore.ownKey "chunkDiameter")
    by (apply (bool_decide_eq_true_1 _); vm_compute; reflexivity).
  assert (H2 : ConfigStore.ownKey "chunkLoadRange")
    by (apply (bool_decide_eq_true_1 _); vm_compute; reflexivity).
  unfold sampleCalls. apply Forall_cons. split; [exact H1 |].
  apply Forall_cons. split; [exact H1 |].
  apply Forall_cons. split; [exact H2 | by apply Forall_nil].
Defined.

(** ** The reference grid *)

Lemma forLoop_values {St : Type} (lo hi t : Qc) (n : nat)
    (body : St -> num -> outcome St) :
  (forall i, (i < n)%nat -> (lo + qz (Z.of_nat i) * t <= hi)%Qc) ->
  ~ (lo + qz (Z.of_nat n) * t <= hi)%Qc ->
  forall (rem k fuel : nat) (s : St),
    (k + rem = n)%nat -> (rem < fuel)%nat ->
    forLoop fuel (Fin (lo + qz (Z.of_nat k) * t)%Qc) (Fin hi) (Fin t) body s
    = foldlM body s
             (map (fun i => Fin (lo + qz (Z.of_nat i) * t)%Qc) (seq k rem)).
Proof.
  intros Hin Hout. induction rem as [| rem IH]; intros k fuel s Hk Hfuel.
  - destruct fuel as [| fuel]; [lia |]. cbn [forLoop seq map foldlM Num.leb].
    rewrite bool_decide_eq_false_2; [done |].
    replace k with n by lia. exact Hout.
  - destruct fuel as [| fuel]; [lia |]. cbn [forLoop seq map foldlM Num.leb].
    rewrite bool_decide_eq_true_2 by (apply Hin; lia).
    apply obind_ext. intros s'.
    assert (E : Num.add (Fin (lo + qz (Z.of_nat k) * t)%Qc) (Fin t)
                = Fin (lo + qz (Z.of_nat (S k)) * t)%Qc).
    { cbn [Num.add]. f_equal. apply Qc_eq_this. push_this.
      rewrite Nat2Z.inj_succ. unfold Z.succ. rewrite inject_Z_plus.
      change (inject_Z 1) with 1%Q. ring. }
    rewrite E. apply IH; lia.
Qed.

Lemma forLoop_first {St : Type} (lo hi t : Qc) (n : nat)
    (body : St -> num -> outcome St) (fuel : nat) (s : St) :
  (forall i, (i < n)%nat -> (lo + qz (Z.of_nat i) * t <= hi)%Qc) ->
  ~ (lo + qz (Z.of_nat n) * t <= hi)%Qc ->
  (n < fuel)%nat ->
  forLoop fuel (Fin lo) (Fin hi) (Fin t) body s
  = foldlM body s
           (map (fun i => Fin (lo + qz (Z.of_nat i) * t)%Qc) (seq 0 n)).
Proof.
  intros Hin Hout Hfuel.
  rewrite <- (forLoop_values lo hi t n body Hin Hout n 0 fuel s) by lia.
  f_equal. f_equal. apply Qc_eq_this. push_this. cbn. ring.
Qed.

Lemma foldlM_collect {A B : Type} (f : A -> list B) (l : list A) :
  forall acc : list B,
    foldlM (fun lines a => Done (lines ++ f a)) acc l
    = Done (acc ++ flat_map f l).
Proof.
  induction l as [| a l IH]; intros acc; cbn [foldlM flat_map obind].
  - by rewrite app_nil_r.
  - by rewrite IH, app_assoc.
Qed.

Lemma foldlM_collect_nested {A B : Type} (g : list B -> A -> outcome (list B))
    (f : A -> list B) (l : list A) :
  (forall acc a, g acc a = Done (acc ++ f a)) ->
  forall acc : list B, foldlM g acc l = Done (acc ++ flat_map f l).
Proof.
  intros Hg. induction l as [| a l IH]; intros acc; cbn [foldlM flat_map].
  - by rewrite app_nil_r.
  - rewrite Hg. cbn [obind]. by rewrite IH, app_assoc.
Qed.

Lemma length_flat_map_const {A B : Type} (f : A -> list B) (l : list A)
    (c : nat) :
  (forall a, length (f a) = c) -> length (flat_map f l) = (length l * c)%nat.
Proof.
  intros Hf. induction l as [| a l IH]; [done |].
  cbn [flat_map length]. rewrite length_app, Hf, IH. lia.
Qed.

Lemma grid_range (s t : Qc) (n : nat) :
  (0 < t)%Qc ->
  ((qz (Z.of_nat n) - 1) * t <= s)%Qc -> (s < qz (Z.of_nat n) * t)%Qc ->
  (forall i, (i < n)%nat ->
             (0 - s / qz 2 + qz (Z.of_nat i) * t <= s / qz 2)%Qc)
  /\ ~ (0 - s / qz 2 + qz (Z.of_nat n) * t <= s / qz 2)%Qc.
Proof.
  intros Ht Hlo Hhi. unfold Qclt, Qcle in *.
  change (this 0%Qc) with 0%Q in Ht.
  push_this_in Hlo. push_this_in Hhi.
  change (this 1%Qc) with 1%Q in Hlo.
  split.
  - intros i Hi. push_this. change (this 0%Qc) with 0%Q.
    assert (Hz : (inject_Z (Z.of_nat i) <= inject_Z (Z.of_nat n) - 1)%Q).
    { assert (H : (Z.of_nat i <= Z.of_nat n - 1)%Z) by lia.
      rewrite Zle_Qle in H. unfold Z.sub in H.
      by rewrite inject_Z_plus, inject_Z_opp in H. }
    assert (E : (this s / inject_Z 2 == (1 # 2) * this s)%Q) by (by field).
    rewrite E. nra.
  - push_this. change (this 0%Qc) with 0%Q.
    assert (E : (this s / inject_Z 2 == (1 # 2) * this s)%Q) by (by field).
    rewrite E. intros H. nra.
Qed.

(** X17: for a positive step and a size that is not negative
    [create3DGrid] returns, having created [3 * n * n] lines, where [n] is
    the number of multiples of the step up to the size
    ([(n - 1) * step <= size < n * step]): for every pair of grid values
    [a], [b] among [-size/2 + i * step], [i < n], one line along each axis
    from [-size/2] to [size/2], in the order of the two loops. *)
Theorem create3DGrid_lines :
  forall (size step : Qc) (n fuel : nat),
    (0 < step)%Qc ->
    ((qz (Z.of_nat n) - 1) * step <= size)%Qc ->
    (size < qz (Z.of_nat n) * step)%Qc ->
    (n < fuel)%nat ->
    let lines :=
      flat_map (fun a =>
                  flat_map (fun b => gridLines (Fin (size / qz 2)%Qc) a b)
                           (gridValues size step n))
               (gridValues size step n) in
    create3DGrid fuel (Fin size) (Fin step) = Done lines
    /\ length lines = (3 * n * n)%nat.
Proof.
  intros size step n fuel Ht Hlo Hhi Hfuel lines.
  destruct (grid_range size step n Ht Hlo Hhi) as [Hin Hout].
  split.
  - unfold create3DGrid, nz.
    rewrite (div_finite size (qz 2)) by apply qz_two_nonzero.
    change (Num.sub (Fin (qz 0)) (Fin (size / qz 2)%Qc))
      with (Fin (0 - size / qz 2)%Qc).
    rewrite (forLoop_first _ _ _ n _ fuel [] Hin Hout Hfuel).
    fold (gridValues size step n).
    rewrite (foldlM_collect_nested _
               (fun a => flat_map (fun b => gridLines (Fin (size / qz 2)%Qc) a b)
                                  (gridValues size step n))); [done |].
    intros acc a.
    rewrite (forLoop_first _ _ _ n _ fuel acc Hin Hout Hfuel).
    fold (gridValues size step n). apply foldlM_collect.
  - unfold lines.
    assert (Hlen : length (gridValues size step n) = n)
      by (unfold gridValues; by rewrite length_map, length_seq).
    rewrite (length_flat_map_const _ _ (n * 3)%nat).
    + rewrite Hlen. lia.
    + intros a. rewrite (length_flat_map_const _ _ 3%nat); [by rewrite Hlen | done].
Qed.

Lemma create3DGrid_lines_witness :
  exists lines,
    create3DGrid 12 (nz 100) (nz 10) = Done lines /\ length lines = 363%nat.
Proof.
  assert (Hlo : ((qz (Z.of_nat 11) - 1) * qz 10 <= qz 100)%Qc)
    by (apply (bool_decide_eq_true_1 _); vm_compute; reflexivity).
  assert (Hhi : (qz 100 < qz (Z.of_nat 11) * qz 10)%Qc) by reflexivity.
  eexists. exact (create3DGrid_lines (qz 100) (qz 10) 11 12 eq_refl Hlo Hhi (le_n 12)).
Defined.

Lemma forLoop_never_ends {St : Type} (hi t : Qc) (body : St -> num -> outcome St) :
  (t <= 0)%Qc ->
  (forall s x, body s x <> Raised) ->
  forall (fuel : nat) (a : Qc) (s : St),
    (a <= hi)%Qc ->
    forLoop fuel (Fin a) (Fin hi) (Fin t) body s = Timeout.
Proof.
  intros Ht Hbody. induction fuel as [| fuel IH]; intros a s Ha; [done |].
  cbn [forLoop Num.leb Num.add]. rewrite bool_decide_eq_true_2 by done.
  destruct (body s (Fin a)) as [s' | |] eqn:E; cbn [obind]; [| | done].
  - apply IH. unfold Qcle in *. push_this. change (this 0%Qc) with 0%Q in Ht. lra.
  - by destruct (Hbody s (Fin a)).
Qed.

(** X18: for a step that is zero or negative (and a size that is not
    negative) [create3DGrid] does not return: however many turns its loops
    are given, they are still running. *)
Theorem create3DGrid_never_ends :
  forall (size step : Qc) (fuel : nat),
    (step <= 0)%Qc -> (0 <= size)%Qc ->
    create3DGrid fuel (Fin size) (Fin step) = Timeout.
Proof.
  intros size step fuel Ht Hs. unfold create3DGrid, nz.
  rewrite (div_finite size (qz 2)) by apply qz_two_nonzero.
  change (Num.sub (Fin (qz 0)) (Fin (size / qz 2)%Qc))
    with (Fin (0 - size / qz 2)%Qc).
  assert (Hle : (0 - size / qz 2 <= size / qz 2)%Qc).
  { unfold Qcle in *. push_this. change (this 0%Qc) with 0%Q in *.
    assert (E : (this size / inject_Z 2 == (1 # 2) * this size)%Q) by (by field).
    rewrite E. lra. }
  apply forLoop_never_ends; [done | | done].
  intros lines a. rewrite (forLoop_never_ends _ _ _ Ht); [done | | done].
  intros lines' b. done.
Qed.

Lemma create3DGrid_never_ends_witness :
  create3DGrid 1000 (nz 100) (nz 0) = Timeout.
Proof.
  assert (Ht : (qz 0 <= 0)%Qc)
    by (apply (bool_decide_eq_true_1 _); vm_compute; reflexivity).
  assert (Hs : (0 <= qz 100)%Qc)
    by (apply (bool_decide_eq_true_1 _); vm_compute; reflexivity).
  exact (create3DGrid_never_ends (qz 100) (qz 0) 1000 Ht Hs).
Defined.

(** ** The build under another viewpoint or another load range *)

Lemma inSight_wider (s s' : Qc) (pos key : vec3) :
  (s <= s')%Qc ->
  inSight (Fin s) pos key = true -> inSight (Fin s') pos key = true.
Proof.
  intros Hs. unfold inSight. rewrite !andb_true_iff.
  assert (Hax : forall a, Num.ltb a (Fin s) = true -> Num.ltb a (Fin s') = true).
  { intros [x |]; [| done]. cbn [Num.ltb]. rewrite !bool_decide_eq_true.
    intros Hx. by apply (Qclt_le_trans _ s). }
  intros [[H0 H1] H2]. split; [split |]; by apply Hax.
Qed.

(** X19: the chunk map of [calculateChunks] depends on the configuration,
    the data and the diameter alone, not on the viewpoint nor on the load
    range: two builds that differ in those return the same map.  Only the
    initial active list differs. *)
Theorem calculateChunks_map_independent_of_view :
  forall (cfg : config) (data : dataset) (pos pos' : vec3) (d r r' : num),
    fst (calculateChunks cfg data pos d r)
    = fst (calculateChunks cfg data pos' d r').
Proof.
  intros cfg data pos pos' d r r'. apply map_eq. intros k.
  by rewrite !calculateChunks_lookup.
Qed.

(** X20: with the same diameter and the same viewpoint, a larger load range
    gives an initial active list that holds every key the smaller one
    gives. *)
Theorem calculateChunks_active_grows_with_range :
  forall (cfg : config) (data : dataset) (pos : vec3) (d : Qc) (R R' : nat)
         (key : vec3),
    (0 < d)%Qc -> (R <= R')%nat ->
    key ∈ snd (calculateChunks cfg data pos (Fin d) (nz (Z.of_nat R))) ->
    key ∈ snd (calculateChunks cfg data pos (Fin d) (nz (Z.of_nat R'))).
Proof.
  intros cfg data pos d R R' key Hd HR Hin.
  destruct (calculateChunks_inSight cfg data pos (Fin d) (nz (Z.of_nat R)))
    as [_ H1].
  destruct (calculateChunks_inSight cfg data pos (Fin d) (nz (Z.of_nat R')))
    as [_ H2].
  apply H1 in Hin as [Hk Hs]. apply H2. split.
  - rewrite calculateChunks_lookup in *. exact Hk.
  - revert Hs. apply inSight_wider.
    unfold Qclt, Qcle in *. push_this. change (this 0%Qc) with 0%Q in Hd.
    assert (Hz : (inject_Z (Z.of_nat R) <= inject_Z (Z.of_nat R'))%Q)
      by (rewrite <- Zle_Qle; lia).
    nra.
Qed.

Lemma calculateChunks_active_grows_with_range_witness :
  key3 0 0 0 ∈ snd (calculateChunks (plainConfig 10 1) sweepData
                                    (nz 0, nz 0, nz 0) (nz 10) (nz 2)).
Proof.
  assert (Hin : key3 0 0 0
                ∈ snd (calculateChunks (plainConfig 10 1) sweepData
                                       (nz 0, nz 0, nz 0) (nz 10) (nz 1)))
    by (apply (bool_decide_eq_true_1 _); vm_compute; reflexivity).
  exact (calculateChunks_active_grows_with_range (plainConfig 10 1) sweepData
           (nz 0, nz 0, nz 0) (qz 10) 1 2 (key3 0 0 0) eq_refl
           (le_S _ _ (le_n 1)) Hin).
Defined.

(** ** One call of [fillThinInstanceBuffers] *)

(** X21: [fillThinInstanceBuffers] writes seven cells of the transform
    buffer (offsets 0, 5, 10 and 12 to 15 from [dIndex]) and four cells of
    the colour buffer (from [cIndex]); every other cell of the two buffers
    is left as it is, the nine other cells of the slot included; the buffers
    keep their lengths, a write beyond the end being dropped; and when the
    slots lie inside the buffers the written cells hold the diameter, the
    coordinates, 1 and the four components of the colour. *)
Theorem fillThinInstanceBuffers_frame :
  forall (dimensionsBuffer : list num) (dIndex : nat) (colorBuffer : list num)
         (cIndex : nat) (diameter : num) (xyz : vec3) (color : color4),
    let filled := fillThinInstanceBuffers dimensionsBuffer dIndex colorBuffer
                                          cIndex diameter xyz color in
    length (fst filled) = length dimensionsBuffer
    /\ length (snd filled) = length colorBuffer
    /\ (forall j,
           j ∉ [dIndex; dIndex + 5; dIndex + 10; dIndex + 12; dIndex + 13;
                dIndex + 14; dIndex + 15]%nat ->
           fst filled !! j = dimensionsBuffer !! j)
    /\ (forall j, (j < cIndex \/ cIndex + 4 <= j)%nat ->
                  snd filled !! j = colorBuffer !! j)
    /\ ((dIndex + 16 <= length dimensionsBuffer)%nat ->
        fst filled !! dIndex = Some diameter
        /\ fst filled !! (dIndex + 5)%nat = Some diameter
        /\ fst filled !! (dIndex + 10)%nat = Some diameter
        /\ fst filled !! (dIndex + 12)%nat = Some (vget xyz 0)
        /\ fst filled !! (dIndex + 13)%nat = Some (vget xyz 1)
        /\ fst filled !! (dIndex + 14)%nat = Some (vget xyz 2)
        /\ fst filled !! (dIndex + 15)%nat = Some (nz 1))
    /\ ((cIndex + 4 <= length colorBuffer)%nat ->
        snd filled !! cIndex = Some (cr color)
        /\ snd filled !! (cIndex + 1)%nat = Some (cg color)
        /\ snd filled !! (cIndex + 2)%nat = Some (cb color)
        /\ snd filled !! (cIndex + 3)%nat = Some (ca color)).
Proof.
  intros dim dIndex col cIndex diameter [[x y] z] color filled.
  unfold filled, fillThinInstanceBuffers. cbn [fst snd vget].
  split; [by rewrite !length_insert |]. split; [by rewrite !length_insert |].
  split; [| split; [| split]].
  - intros j Hj. rewrite !not_elem_of_cons in Hj.
    destruct Hj as (H0 & H5 & H10 & H12 & H13 & H14 & H15 & _).
    by rewrite !list_lookup_insert_ne by done.
  - intros j Hj. by rewrite !list_lookup_insert_ne by lia.
  - intros Hlen.
    repeat split;
      repeat first
        [ rewrite list_lookup_insert_eq by (rewrite ?length_insert; lia); reflexivity
        | rewrite list_lookup_insert_ne by lia ].
  - intros Hlen.
    repeat split;
      repeat first
        [ rewrite list_lookup_insert_eq by (rewrite ?length_insert; lia); reflexivity
        | rewrite list_lookup_insert_ne by lia ].
Qed.

Lemma fillThinInstanceBuffers_frame_witness :
  let filled := fillThinInstanceBuffers (zeros 32) 16 (zeros 8) 4 (nz 3)
                                        (nz 7, nz 8, nz 9) (whiteHex "") in
  fst filled !! 28%nat = Some (nz 7)
  /\ fst filled !! 17%nat = Some (nz 0)
  /\ length (fst filled) = 32%nat.
Proof.
  destruct (fillThinInstanceBuffers_frame (zeros 32) 16 (zeros 8) 4 (nz 3)
              (nz 7, nz 8, nz 9) (whiteHex ""))
    as (Hlen & _ & Hframe & _ & Hslot & _).
  destruct (Hslot (le_n 32)) as (_ & _ & _ & Hx & _).
  split; [exact Hx |]. split; [| exact Hlen].
  rewrite Hframe; [reflexivity |].
  apply (bool_decide_eq_true_1 _). vm_compute. reflexivity.
Defined.

(** ** A callback with the camera still in its cell *)

(** X22: a callback that finds the camera in the cell of the stored
    centroid (all three coordinates of the centroid being numbers) changes
    nothing: no chunk is loaded or unloaded, the active list and the scene
    are as they were, and no loop is entered, whatever the load range. *)
Theorem callback_idle_within_cell :
  forall (FromHexString : string -> color4) (cfg : config) (c : controller)
         (camera : vec3) (fuel : nat),
    (forall i, (i < 3)%nat -> exists x, vget (chunkCentroid c) i = Fin x) ->
    getChunkCentroid camera (chunkDiameter c) = chunkCentroid c ->
    tick FromHexString fuel cfg c camera = Done c.
Proof.
  intros FromHexString cfg c camera fuel Hfin Hsame.
  rewrite tick_still.
  - rewrite Hsame. by destruct c.
  - intros j Hj. destruct (Hfin j Hj) as [x Hx]. exists x. by rewrite Hsame.
Qed.

Lemma callback_idle_within_cell_witness :
  tick whiteHex 0 (plainConfig 10 1) emptyController (nz 4, nz (-4), nz 0)
  = Done emptyController.
Proof.
  apply callback_idle_within_cell.
  - intros i Hi. destruct i as [| [| [| i]]]; [| | | lia]; by eexists.
  - apply (bool_decide_eq_true_1 _). vm_compute. reflexivity.
Defined.
